(** * Security Words Picker: the selection pipeline of [index.js]

    A shallow embedding of [getWords] and [calculateScrabbleScore] from
    [index.js], followed by the properties of the pipeline.

    Modelling conventions.
    - A word is a JavaScript string whose code units are ASCII; it is a
      [string], and [split('')] is [chars].
    - Numeric options and the numeric argument are integers ([Z]), the type
      the README documents for them.
    - The caller's [history] Set is a [gset string] threaded through the
      call; [Math.random] is a stream of draws threaded the same way.
    - Caller-supplied procedures ([customFilter], [customShuffle],
      [customEntropyCalculator], [pattern.test]) are total functions; for
      [pattern] that is a regular expression without the [g] and [y] flags,
      which keeps no position between two tests.
    - [weightedSelection] is a plain object with integer weights; reading
      a name it does not have reaches [Object.prototype].
    - [localeCompare] is a parameter where a property is about the order
      of a sort in general ([getWordsIn]); [getWords] sorts by code unit.
    - An exception is the [Throw] outcome; it carries the state at the
      throw. *)

From Stdlib Require Import Ascii String ZArith NArith QArith.
From Stdlib Require Import List Permutation Lia.
From stdpp Require Import base decidable option list gmap strings sorting.

Local Open Scope Z_scope.

(** ** JavaScript strings over ASCII code units *)

Module JsString.

(** [word.split('')] *)
Definition chars (s : string) : list ascii := String.list_ascii_of_string s.

(** [array.join('')] on single characters *)
Definition of_chars (l : list ascii) : string := String.string_of_list_ascii l.

Definition code (c : ascii) : N := N_of_ascii c.

Definition in_range (lo hi c : ascii) : bool :=
  (code lo <=? code c)%N && (code c <=? code hi)%N.

Definition is_upper (c : ascii) : bool := in_range "A" "Z" c.
Definition is_lower (c : ascii) : bool := in_range "a" "z" c.
Definition is_digit (c : ascii) : bool := in_range "0" "9" c.
Definition is_letter (c : ascii) : bool := is_lower c || is_upper c.

Definition toLowerCaseChar (c : ascii) : ascii :=
  if is_upper c then ascii_of_N (code c + 32) else c.

Definition toUpperCaseChar (c : ascii) : ascii :=
  if is_lower c then ascii_of_N (code c - 32) else c.

Fixpoint map_string (f : ascii -> ascii) (s : string) : string :=
  match s with
  | EmptyString => EmptyString
  | String c s' => String (f c) (map_string f s')
  end.

Definition toLowerCase : string -> string := map_string toLowerCaseChar.
Definition toUpperCase : string -> string := map_string toUpperCaseChar.

(** [s.length] *)
Definition length (s : string) : nat := String.length s.

(** [s.startsWith(p)] *)
Definition startsWith (s p : string) : bool := String.prefix p s.

(** [s.endsWith(p)] *)
Definition endsWith (s p : string) : bool :=
  String.prefix (String.rev p) (String.rev s).

(** [s.includes(p)] *)
Fixpoint includes (s p : string) : bool :=
  String.prefix p s ||
  match s with
  | EmptyString => false
  | String _ s' => includes s' p
  end.

(** [s.slice(-2)] *)
Definition slice_last2 (s : string) : string :=
  of_chars (drop (List.length (chars s) - 2)%nat (chars s)).

(** [s.charAt(0)] *)
Definition charAt0 (s : string) : string :=
  match s with
  | EmptyString => EmptyString
  | String c _ => String c EmptyString
  end.

(** [s.slice(1)] *)
Definition slice1 (s : string) : string :=
  match s with
  | EmptyString => EmptyString
  | String _ s' => s'
  end.

(** [regex.test(s)] for a regular expression that is one character class *)
Definition test_class (cls : ascii -> bool) (s : string) : bool :=
  existsb cls (chars s).

(** [new Set(s).size]: the number of distinct characters *)
Definition distinct_chars (s : string) : nat :=
  List.length (remove_dups (chars s)).

(** [array.join(sep)] *)
Definition join (sep : string) (l : list string) : string :=
  String.concat sep l.

(** [a.localeCompare(b)] for a collation that orders by code unit. Which
    collation the process uses depends on its locale: [getWordsIn] below
    takes it as a parameter, and [getWords] is [getWordsIn] at this one. *)
Definition localeCompare (a b : string) : comparison := String.compare a b.

End JsString.

Import JsString.

(** ** Exceptions *)

Inductive exn : Type :=
| Error (message : string)
| TypeError (message : string).

(** A computation that returns or throws. *)
Inductive attempt (A : Type) : Type :=
| Ok (a : A)
| Raise (e : exn).
Arguments Ok {A} a.
Arguments Raise {A} e.

#[global] Instance attempt_ret : MRet attempt := fun A a => Ok a.

#[global] Instance attempt_bind : MBind attempt := fun A B k m =>
  match m with
  | Ok a => k a
  | Raise e => Raise e
  end.

(** ** The phonetic code *)

(** The [codes] table of [soundex]; [None] is [undefined]. *)
Definition codes (c : ascii) : option string :=
  match c with
  | "a" | "e" | "i" | "o" | "u" => Some ""%string
  | "b" | "f" | "p" | "v" => Some "1"%string
  | "c" | "g" | "j" | "k" | "q" | "s" | "x" | "z" => Some "2"%string
  | "d" | "t" => Some "3"%string
  | "l" => Some "4"%string
  | "m" | "n" => Some "5"%string
  | "r" => Some "6"%string
  | _ => None
  end%char.

(** A string is truthy when it is not empty. *)
Definition truthy_string (s : string) : bool :=
  match s with EmptyString => false | _ => true end.

(** The body of [a.forEach(char => ...)]: the state is [soundexArr] and
    [prev]. *)
Definition soundex_step (st : list string * string) (char : ascii)
  : list string * string :=
  let '(soundexArr, prev) := st in
  match codes char with
  | Some code =>
      if truthy_string code && negb (String.eqb code prev)
      then (soundexArr ++ [code], code)
      else (soundexArr, prev)
  | None => (soundexArr, prev)
  end.

(** [while (soundexArr.length < 4) soundexArr.push('0')]; the fuel is the
    number of missing entries, so the loop runs to its exit. *)
Fixpoint pad (fuel : nat) (soundexArr : list string) : list string :=
  match fuel with
  | O => soundexArr
  | S fuel' =>
      if (List.length soundexArr <? 4)%nat
      then pad fuel' (soundexArr ++ ["0"])
      else soundexArr
  end.

(** The message of the [TypeError] of [f.toUpperCase()] when [f] is
    [undefined]. *)
Definition undefined_message : string :=
  "Cannot read properties of undefined (reading 'toUpperCase')".

Definition soundex (word : string) : attempt string :=
  match chars (toLowerCase word) with
  | [] =>
      (* [a.shift()] of the empty array is [undefined] *)
      Raise (TypeError undefined_message)
  | f :: a =>
      let soundexArr := [String (toUpperCaseChar f) EmptyString] in
      let '(soundexArr, _) := fold_left soundex_step a (soundexArr, ""%string) in
      let soundexArr := pad (4 - List.length soundexArr) soundexArr in
      Ok (join "" (take 4 soundexArr))
  end.

(** ** The Phonetic Dedup Stage

    [filteredWords.filter(word => ...)] with the [phoneticMap] object as the
    set of codes seen so far. *)
Fixpoint phoneticFilter (phoneticMap : gset string) (words : list string)
  : attempt (list string) :=
  match words with
  | [] => Ok []
  | word :: rest =>
      s ← soundex word;
      if bool_decide (s ∈ phoneticMap)
      then phoneticFilter phoneticMap rest
      else
        kept ← phoneticFilter ({[ s ]} ∪ phoneticMap) rest;
        Ok (word :: kept)
  end.

(** ** The options

    The names [getWords] destructures from [options], after the defaults of
    the destructuring: an absent option is [None], or the default the source
    gives it. The [history] option is the History argument of [getWords]
    below. *)
Record Options : Type := {
  lengthMin : option Z;
  lengthMax : option Z;
  fixLength : option Z;
  reverse : bool;
  asString : bool;
  sort : option string;
  caseOption : option string;
  filterStartsWith : option (list string);
  filterEndsWith : option (list string);
  excludeSubstrings : option (list string);
  blacklist : option (list string);
  whitelist : option (list string);
  languages : option (list string);
  excludeAmbiguous : bool;
  pattern : option (string -> bool);
  phoneticDistinct : bool;
  includeMetadata : bool;
  seed : option Z;
  weightedSelection : option (gmap string Z);
  customShuffle : option (list string -> list string);
  batchSize : option Z;
  validateWords : option (string -> bool);
  uniqueCharacters : bool;
  maxRepeatLetters : option Z;
  allowNumbers : bool;
  allowSpecialChars : bool;
  minEntropy : option Q;
  returnEntropy : bool;
  customEntropyCalculator : option (string -> Q);
  syllableCount : option Z;
  excludePartsOfSpeech : option (list string);
  includePartsOfSpeech : option (list string);
  limitSyllables : option Z;
  excludeWordOrigins : option (list string);
  includeWordOrigins : option (list string);
  excludeProperNouns : bool;
  excludeSlang : bool;
  includeDefinitions : bool;
  includeExamples : bool;
  synonyms : option (list string);
  excludeHomonyms : bool;
  includeHomonyms : bool;
  excludeCompoundWords : bool;
  excludeAbbreviations : bool;
  onlyMonosyllabic : bool;
  onlyPolysyllabic : bool;
  limitVowels : option (list string);
  excludeSpecificVowels : option (list string);
  includeRhymeWith : option string;
  excludeRhymeWith : option string;
  scrabbleScoreRange : option (list Z);
  excludeLetters : option (list string);
  includeLetters : option (list string);
  mustContainAllLetters : option (list string);
  mustContainAnyLetters : option (list string);
  excludeWordsWithRepeatingLetters : bool;
  minConsonants : option Z;
  minVowels : option Z;
  customFilter : option (string -> bool)
}.

(** [options = {}] *)
Definition defaults : Options := {|
  lengthMin := None;
  lengthMax := None;
  fixLength := None;
  reverse := false;
  asString := false;
  sort := None;
  caseOption := None;
  filterStartsWith := None;
  filterEndsWith := None;
  excludeSubstrings := None;
  blacklist := None;
  whitelist := None;
  languages := None;
  excludeAmbiguous := false;
  pattern := None;
  phoneticDistinct := true;
  includeMetadata := false;
  seed := None;
  weightedSelection := None;
  customShuffle := None;
  batchSize := None;
  validateWords := None;
  uniqueCharacters := false;
  maxRepeatLetters := None;
  allowNumbers := false;
  allowSpecialChars := false;
  minEntropy := None;
  returnEntropy := false;
  customEntropyCalculator := None;
  syllableCount := None;
  excludePartsOfSpeech := None;
  includePartsOfSpeech := None;
  limitSyllables := None;
  excludeWordOrigins := None;
  includeWordOrigins := None;
  excludeProperNouns := false;
  excludeSlang := false;
  includeDefinitions := false;
  includeExamples := false;
  synonyms := None;
  excludeHomonyms := false;
  includeHomonyms := false;
  excludeCompoundWords := false;
  excludeAbbreviations := false;
  onlyMonosyllabic := false;
  onlyPolysyllabic := false;
  limitVowels := None;
  excludeSpecificVowels := None;
  includeRhymeWith := None;
  excludeRhymeWith := None;
  scrabbleScoreRange := None;
  excludeLetters := None;
  includeLetters := None;
  mustContainAllLetters := None;
  mustContainAnyLetters := None;
  excludeWordsWithRepeatingLetters := false;
  minConsonants := None;
  minVowels := None;
  customFilter := None
|}.

(** [{ ...o, name: v }] for the options the scenarios set. *)
Definition with_lengthMin (v : option Z) (o : Options) : Options := {|
  lengthMin := v; lengthMax := lengthMax o; fixLength := fixLength o;
  reverse := reverse o; asString := asString o; sort := sort o;
  caseOption := caseOption o; filterStartsWith := filterStartsWith o;
  filterEndsWith := filterEndsWith o;
  excludeSubstrings := excludeSubstrings o; blacklist := blacklist o;
  whitelist := whitelist o; languages := languages o;
  excludeAmbiguous := excludeAmbiguous o; pattern := pattern o;
  phoneticDistinct := phoneticDistinct o;
  includeMetadata := includeMetadata o; seed := seed o;
  weightedSelection := weightedSelection o; customShuffle := customShuffle o;
  batchSize := batchSize o; validateWords := validateWords o;
  uniqueCharacters := uniqueCharacters o;
  maxRepeatLetters := maxRepeatLetters o; allowNumbers := allowNumbers o;
  allowSpecialChars := allowSpecialChars o; minEntropy := minEntropy o;
  returnEntropy := returnEntropy o;
  customEntropyCalculator := customEntropyCalculator o;
  syllableCount := syllableCount o;
  excludePartsOfSpeech := excludePartsOfSpeech o;
  includePartsOfSpeech := includePartsOfSpeech o;
  limitSyllables := limitSyllables o;
  excludeWordOrigins := excludeWordOrigins o;
  includeWordOrigins := includeWordOrigins o;
  excludeProperNouns := excludeProperNouns o; excludeSlang := excludeSlang o;
  includeDefinitions := includeDefinitions o;
  includeExamples := includeExamples o; synonyms := synonyms o;
  excludeHomonyms := excludeHomonyms o; includeHomonyms := includeHomonyms o;
  excludeCompoundWords := excludeCompoundWords o;
  excludeAbbreviations := excludeAbbreviations o;
  onlyMonosyllabic := onlyMonosyllabic o;
  onlyPolysyllabic := onlyPolysyllabic o; limitVowels := limitVowels o;
  excludeSpecificVowels := excludeSpecificVowels o;
  includeRhymeWith := includeRhymeWith o;
  excludeRhymeWith := excludeRhymeWith o;
  scrabbleScoreRange := scrabbleScoreRange o;
  excludeLetters := excludeLetters o; includeLetters := includeLetters o;
  mustContainAllLetters := mustContainAllLetters o;
  mustContainAnyLetters := mustContainAnyLetters o;
  excludeWordsWithRepeatingLetters := excludeWordsWithRepeatingLetters o;
  minConsonants := minConsonants o; minVowels := minVowels o;
  customFilter := customFilter o
|}.

Definition with_maxRepeatLetters (v : option Z) (o : Options) : Options := {|
  lengthMin := lengthMin o; lengthMax := lengthMax o; fixLength := fixLength o;
  reverse := reverse o; asString := asString o; sort := sort o;
  caseOption := caseOption o; filterStartsWith := filterStartsWith o;
  filterEndsWith := filterEndsWith o;
  excludeSubstrings := excludeSubstrings o; blacklist := blacklist o;
  whitelist := whitelist o; languages := languages o;
  excludeAmbiguous := excludeAmbiguous o; pattern := pattern o;
  phoneticDistinct := phoneticDistinct o;
  includeMetadata := includeMetadata o; seed := seed o;
  weightedSelection := weightedSelection o; customShuffle := customShuffle o;
  batchSize := batchSize o; validateWords := validateWords o;
  uniqueCharacters := uniqueCharacters o;
  maxRepeatLetters := v; allowNumbers := allowNumbers o;
  allowSpecialChars := allowSpecialChars o; minEntropy := minEntropy o;
  returnEntropy := returnEntropy o;
  customEntropyCalculator := customEntropyCalculator o;
  syllableCount := syllableCount o;
  excludePartsOfSpeech := excludePartsOfSpeech o;
  includePartsOfSpeech := includePartsOfSpeech o;
  limitSyllables := limitSyllables o;
  excludeWordOrigins := excludeWordOrigins o;
  includeWordOrigins := includeWordOrigins o;
  excludeProperNouns := excludeProperNouns o; excludeSlang := excludeSlang o;
  includeDefinitions := includeDefinitions o;
  includeExamples := includeExamples o; synonyms := synonyms o;
  excludeHomonyms := excludeHomonyms o; includeHomonyms := includeHomonyms o;
  excludeCompoundWords := excludeCompoundWords o;
  excludeAbbreviations := excludeAbbreviations o;
  onlyMonosyllabic := onlyMonosyllabic o;
  onlyPolysyllabic := onlyPolysyllabic o; limitVowels := limitVowels o;
  excludeSpecificVowels := excludeSpecificVowels o;
  includeRhymeWith := includeRhymeWith o;
  excludeRhymeWith := excludeRhymeWith o;
  scrabbleScoreRange := scrabbleScoreRange o;
  excludeLetters := excludeLetters o; includeLetters := includeLetters o;
  mustContainAllLetters := mustContainAllLetters o;
  mustContainAnyLetters := mustContainAnyLetters o;
  excludeWordsWithRepeatingLetters := excludeWordsWithRepeatingLetters o;
  minConsonants := minConsonants o; minVowels := minVowels o;
  customFilter := customFilter o
|}.

Definition with_scrabbleScoreRange (v : option (list Z)) (o : Options) : Options := {|
  lengthMin := lengthMin o; lengthMax := lengthMax o; fixLength := fixLength o;
  reverse := reverse o; asString := asString o; sort := sort o;
  caseOption := caseOption o; filterStartsWith := filterStartsWith o;
  filterEndsWith := filterEndsWith o;
  excludeSubstrings := excludeSubstrings o; blacklist := blacklist o;
  whitelist := whitelist o; languages := languages o;
  excludeAmbiguous := excludeAmbiguous o; pattern := pattern o;
  phoneticDistinct := phoneticDistinct o;
  includeMetadata := includeMetadata o; seed := seed o;
  weightedSelection := weightedSelection o; customShuffle := customShuffle o;
  batchSize := batchSize o; validateWords := validateWords o;
  uniqueCharacters := uniqueCharacters o;
  maxRepeatLetters := maxRepeatLetters o; allowNumbers := allowNumbers o;
  allowSpecialChars := allowSpecialChars o; minEntropy := minEntropy o;
  returnEntropy := returnEntropy o;
  customEntropyCalculator := customEntropyCalculator o;
  syllableCount := syllableCount o;
  excludePartsOfSpeech := excludePartsOfSpeech o;
  includePartsOfSpeech := includePartsOfSpeech o;
  limitSyllables := limitSyllables o;
  excludeWordOrigins := excludeWordOrigins o;
  includeWordOrigins := includeWordOrigins o;
  excludeProperNouns := excludeProperNouns o; excludeSlang := excludeSlang o;
  includeDefinitions := includeDefinitions o;
  includeExamples := includeExamples o; synonyms := synonyms o;
  excludeHomonyms := excludeHomonyms o; includeHomonyms := includeHomonyms o;
  excludeCompoundWords := excludeCompoundWords o;
  excludeAbbreviations := excludeAbbreviations o;
  onlyMonosyllabic := onlyMonosyllabic o;
  onlyPolysyllabic := onlyPolysyllabic o; limitVowels := limitVowels o;
  excludeSpecificVowels := excludeSpecificVowels o;
  includeRhymeWith := includeRhymeWith o;
  excludeRhymeWith := excludeRhymeWith o;
  scrabbleScoreRange := v;
  excludeLetters := excludeLetters o; includeLetters := includeLetters o;
  mustContainAllLetters := mustContainAllLetters o;
  mustContainAnyLetters := mustContainAnyLetters o;
  excludeWordsWithRepeatingLetters := excludeWordsWithRepeatingLetters o;
  minConsonants := minConsonants o; minVowels := minVowels o;
  customFilter := customFilter o
|}.

Definition with_sort (v : option string) (o : Options) : Options := {|
  lengthMin := lengthMin o; lengthMax := lengthMax o;
  fixLength := fixLength o; reverse := reverse o; asString := asString o;
  sort := v; caseOption := caseOption o;
  filterStartsWith := filterStartsWith o; filterEndsWith := filterEndsWith o;
  excludeSubstrings := excludeSubstrings o; blacklist := blacklist o;
  whitelist := whitelist o; languages := languages o;
  excludeAmbiguous := excludeAmbiguous o; pattern := pattern o;
  phoneticDistinct := phoneticDistinct o;
  includeMetadata := includeMetadata o; seed := seed o;
  weightedSelection := weightedSelection o; customShuffle := customShuffle o;
  batchSize := batchSize o; validateWords := validateWords o;
  uniqueCharacters := uniqueCharacters o;
  maxRepeatLetters := maxRepeatLetters o; allowNumbers := allowNumbers o;
  allowSpecialChars := allowSpecialChars o; minEntropy := minEntropy o;
  returnEntropy := returnEntropy o;
  customEntropyCalculator := customEntropyCalculator o;
  syllableCount := syllableCount o;
  excludePartsOfSpeech := excludePartsOfSpeech o;
  includePartsOfSpeech := includePartsOfSpeech o;
  limitSyllables := limitSyllables o;
  excludeWordOrigins := excludeWordOrigins o;
  includeWordOrigins := includeWordOrigins o;
  excludeProperNouns := excludeProperNouns o; excludeSlang := excludeSlang o;
  includeDefinitions := includeDefinitions o;
  includeExamples := includeExamples o; synonyms := synonyms o;
  excludeHomonyms := excludeHomonyms o; includeHomonyms := includeHomonyms o;
  excludeCompoundWords := excludeCompoundWords o;
  excludeAbbreviations := excludeAbbreviations o;
  onlyMonosyllabic := onlyMonosyllabic o;
  onlyPolysyllabic := onlyPolysyllabic o; limitVowels := limitVowels o;
  excludeSpecificVowels := excludeSpecificVowels o;
  includeRhymeWith := includeRhymeWith o;
  excludeRhymeWith := excludeRhymeWith o;
  scrabbleScoreRange := scrabbleScoreRange o;
  excludeLetters := excludeLetters o; includeLetters := includeLetters o;
  mustContainAllLetters := mustContainAllLetters o;
  mustContainAnyLetters := mustContainAnyLetters o;
  excludeWordsWithRepeatingLetters := excludeWordsWithRepeatingLetters o;
  minConsonants := minConsonants o; minVowels := minVowels o;
  customFilter := customFilter o
|}.

Definition with_caseOption (v : option string) (o : Options) : Options := {|
  lengthMin := lengthMin o; lengthMax := lengthMax o;
  fixLength := fixLength o; reverse := reverse o; asString := asString o;
  sort := sort o; caseOption := v; filterStartsWith := filterStartsWith o;
  filterEndsWith := filterEndsWith o;
  excludeSubstrings := excludeSubstrings o; blacklist := blacklist o;
  whitelist := whitelist o; languages := languages o;
  excludeAmbiguous := excludeAmbiguous o; pattern := pattern o;
  phoneticDistinct := phoneticDistinct o;
  includeMetadata := includeMetadata o; seed := seed o;
  weightedSelection := weightedSelection o; customShuffle := customShuffle o;
  batchSize := batchSize o; validateWords := validateWords o;
  uniqueCharacters := uniqueCharacters o;
  maxRepeatLetters := maxRepeatLetters o; allowNumbers := allowNumbers o;
  allowSpecialChars := allowSpecialChars o; minEntropy := minEntropy o;
  returnEntropy := returnEntropy o;
  customEntropyCalculator := customEntropyCalculator o;
  syllableCount := syllableCount o;
  excludePartsOfSpeech := excludePartsOfSpeech o;
  includePartsOfSpeech := includePartsOfSpeech o;
  limitSyllables := limitSyllables o;
  excludeWordOrigins := excludeWordOrigins o;
  includeWordOrigins := includeWordOrigins o;
  excludeProperNouns := excludeProperNouns o; excludeSlang := excludeSlang o;
  includeDefinitions := includeDefinitions o;
  includeExamples := includeExamples o; synonyms := synonyms o;
  excludeHomonyms := excludeHomonyms o; includeHomonyms := includeHomonyms o;
  excludeCompoundWords := excludeCompoundWords o;
  excludeAbbreviations := excludeAbbreviations o;
  onlyMonosyllabic := onlyMonosyllabic o;
  onlyPolysyllabic := onlyPolysyllabic o; limitVowels := limitVowels o;
  excludeSpecificVowels := excludeSpecificVowels o;
  includeRhymeWith := includeRhymeWith o;
  excludeRhymeWith := excludeRhymeWith o;
  scrabbleScoreRange := scrabbleScoreRange o;
  excludeLetters := excludeLetters o; includeLetters := includeLetters o;
  mustContainAllLetters := mustContainAllLetters o;
  mustContainAnyLetters := mustContainAnyLetters o;
  excludeWordsWithRepeatingLetters := excludeWordsWithRepeatingLetters o;
  minConsonants := minConsonants o; minVowels := minVowels o;
  customFilter := customFilter o
|}.

Definition with_excludeAmbiguous (v : bool) (o : Options) : Options := {|
  lengthMin := lengthMin o; lengthMax := lengthMax o;
  fixLength := fixLength o; reverse := reverse o; asString := asString o;
  sort := sort o; caseOption := caseOption o;
  filterStartsWith := filterStartsWith o; filterEndsWith := filterEndsWith o;
  excludeSubstrings := excludeSubstrings o; blacklist := blacklist o;
  whitelist := whitelist o; languages := languages o; excludeAmbiguous := v;
  pattern := pattern o; phoneticDistinct := phoneticDistinct o;
  includeMetadata := includeMetadata o; seed := seed o;
  weightedSelection := weightedSelection o; customShuffle := customShuffle o;
  batchSize := batchSize o; validateWords := validateWords o;
  uniqueCharacters := uniqueCharacters o;
  maxRepeatLetters := maxRepeatLetters o; allowNumbers := allowNumbers o;
  allowSpecialChars := allowSpecialChars o; minEntropy := minEntropy o;
  returnEntropy := returnEntropy o;
  customEntropyCalculator := customEntropyCalculator o;
  syllableCount := syllableCount o;
  excludePartsOfSpeech := excludePartsOfSpeech o;
  includePartsOfSpeech := includePartsOfSpeech o;
  limitSyllables := limitSyllables o;
  excludeWordOrigins := excludeWordOrigins o;
  includeWordOrigins := includeWordOrigins o;
  excludeProperNouns := excludeProperNouns o; excludeSlang := excludeSlang o;
  includeDefinitions := includeDefinitions o;
  includeExamples := includeExamples o; synonyms := synonyms o;
  excludeHomonyms := excludeHomonyms o; includeHomonyms := includeHomonyms o;
  excludeCompoundWords := excludeCompoundWords o;
  excludeAbbreviations := excludeAbbreviations o;
  onlyMonosyllabic := onlyMonosyllabic o;
  onlyPolysyllabic := onlyPolysyllabic o; limitVowels := limitVowels o;
  excludeSpecificVowels := excludeSpecificVowels o;
  includeRhymeWith := includeRhymeWith o;
  excludeRhymeWith := excludeRhymeWith o;
  scrabbleScoreRange := scrabbleScoreRange o;
  excludeLetters := excludeLetters o; includeLetters := includeLetters o;
  mustContainAllLetters := mustContainAllLetters o;
  mustContainAnyLetters := mustContainAnyLetters o;
  excludeWordsWithRepeatingLetters := excludeWordsWithRepeatingLetters o;
  minConsonants := minConsonants o; minVowels := minVowels o;
  customFilter := customFilter o
|}.

Definition with_seed (v : option Z) (o : Options) : Options := {|
  lengthMin := lengthMin o; lengthMax := lengthMax o;
  fixLength := fixLength o; reverse := reverse o; asString := asString o;
  sort := sort o; caseOption := caseOption o;
  filterStartsWith := filterStartsWith o; filterEndsWith := filterEndsWith o;
  excludeSubstrings := excludeSubstrings o; blacklist := blacklist o;
  whitelist := whitelist o; languages := languages o;
  excludeAmbiguous := excludeAmbiguous o; pattern := pattern o;
  phoneticDistinct := phoneticDistinct o;
  includeMetadata := includeMetadata o; seed := v;
  weightedSelection := weightedSelection o; customShuffle := customShuffle o;
  batchSize := batchSize o; validateWords := validateWords o;
  uniqueCharacters := uniqueCharacters o;
  maxRepeatLetters := maxRepeatLetters o; allowNumbers := allowNumbers o;
  allowSpecialChars := allowSpecialChars o; minEntropy := minEntropy o;
  returnEntropy := returnEntropy o;
  customEntropyCalculator := customEntropyCalculator o;
  syllableCount := syllableCount o;
  excludePartsOfSpeech := excludePartsOfSpeech o;
  includePartsOfSpeech := includePartsOfSpeech o;
  limitSyllables := limitSyllables o;
  excludeWordOrigins := excludeWordOrigins o;
  includeWordOrigins := includeWordOrigins o;
  excludeProperNouns := excludeProperNouns o; excludeSlang := excludeSlang o;
  includeDefinitions := includeDefinitions o;
  includeExamples := includeExamples o; synonyms := synonyms o;
  excludeHomonyms := excludeHomonyms o; includeHomonyms := includeHomonyms o;
  excludeCompoundWords := excludeCompoundWords o;
  excludeAbbreviations := excludeAbbreviations o;
  onlyMonosyllabic := onlyMonosyllabic o;
  onlyPolysyllabic := onlyPolysyllabic o; limitVowels := limitVowels o;
  excludeSpecificVowels := excludeSpecificVowels o;
  includeRhymeWith := includeRhymeWith o;
  excludeRhymeWith := excludeRhymeWith o;
  scrabbleScoreRange := scrabbleScoreRange o;
  excludeLetters := excludeLetters o; includeLetters := includeLetters o;
  mustContainAllLetters := mustContainAllLetters o;
  mustContainAnyLetters := mustContainAnyLetters o;
  excludeWordsWithRepeatingLetters := excludeWordsWithRepeatingLetters o;
  minConsonants := minConsonants o; minVowels := minVowels o;
  customFilter := customFilter o
|}.

Definition with_asString (v : bool) (o : Options) : Options := {|
  lengthMin := lengthMin o; lengthMax := lengthMax o;
  fixLength := fixLength o; reverse := reverse o; asString := v;
  sort := sort o; caseOption := caseOption o;
  filterStartsWith := filterStartsWith o; filterEndsWith := filterEndsWith o;
  excludeSubstrings := excludeSubstrings o; blacklist := blacklist o;
  whitelist := whitelist o; languages := languages o;
  excludeAmbiguous := excludeAmbiguous o; pattern := pattern o;
  phoneticDistinct := phoneticDistinct o;
  includeMetadata := includeMetadata o; seed := seed o;
  weightedSelection := weightedSelection o; customShuffle := customShuffle o;
  batchSize := batchSize o; validateWords := validateWords o;
  uniqueCharacters := uniqueCharacters o;
  maxRepeatLetters := maxRepeatLetters o; allowNumbers := allowNumbers o;
  allowSpecialChars := allowSpecialChars o; minEntropy := minEntropy o;
  returnEntropy := returnEntropy o;
  customEntropyCalculator := customEntropyCalculator o;
  syllableCount := syllableCount o;
  excludePartsOfSpeech := excludePartsOfSpeech o;
  includePartsOfSpeech := includePartsOfSpeech o;
  limitSyllables := limitSyllables o;
  excludeWordOrigins := excludeWordOrigins o;
  includeWordOrigins := includeWordOrigins o;
  excludeProperNouns := excludeProperNouns o; excludeSlang := excludeSlang o;
  includeDefinitions := includeDefinitions o;
  includeExamples := includeExamples o; synonyms := synonyms o;
  excludeHomonyms := excludeHomonyms o; includeHomonyms := includeHomonyms o;
  excludeCompoundWords := excludeCompoundWords o;
  excludeAbbreviations := excludeAbbreviations o;
  onlyMonosyllabic := onlyMonosyllabic o;
  onlyPolysyllabic := onlyPolysyllabic o; limitVowels := limitVowels o;
  excludeSpecificVowels := excludeSpecificVowels o;
  includeRhymeWith := includeRhymeWith o;
  excludeRhymeWith := excludeRhymeWith o;
  scrabbleScoreRange := scrabbleScoreRange o;
  excludeLetters := excludeLetters o; includeLetters := includeLetters o;
  mustContainAllLetters := mustContainAllLetters o;
  mustContainAnyLetters := mustContainAnyLetters o;
  excludeWordsWithRepeatingLetters := excludeWordsWithRepeatingLetters o;
  minConsonants := minConsonants o; minVowels := minVowels o;
  customFilter := customFilter o
|}.

Definition with_includeMetadata (v : bool) (o : Options) : Options := {|
  lengthMin := lengthMin o; lengthMax := lengthMax o;
  fixLength := fixLength o; reverse := reverse o; asString := asString o;
  sort := sort o; caseOption := caseOption o;
  filterStartsWith := filterStartsWith o; filterEndsWith := filterEndsWith o;
  excludeSubstrings := excludeSubstrings o; blacklist := blacklist o;
  whitelist := whitelist o; languages := languages o;
  excludeAmbiguous := excludeAmbiguous o; pattern := pattern o;
  phoneticDistinct := phoneticDistinct o;
  includeMetadata := v; seed := seed o;
  weightedSelection := weightedSelection o; customShuffle := customShuffle o;
  batchSize := batchSize o; validateWords := validateWords o;
  uniqueCharacters := uniqueCharacters o;
  maxRepeatLetters := maxRepeatLetters o; allowNumbers := allowNumbers o;
  allowSpecialChars := allowSpecialChars o; minEntropy := minEntropy o;
  returnEntropy := returnEntropy o;
  customEntropyCalculator := customEntropyCalculator o;
  syllableCount := syllableCount o;
  excludePartsOfSpeech := excludePartsOfSpeech o;
  includePartsOfSpeech := includePartsOfSpeech o;
  limitSyllables := limitSyllables o;
  excludeWordOrigins := excludeWordOrigins o;
  includeWordOrigins := includeWordOrigins o;
  excludeProperNouns := excludeProperNouns o; excludeSlang := excludeSlang o;
  includeDefinitions := includeDefinitions o;
  includeExamples := includeExamples o; synonyms := synonyms o;
  excludeHomonyms := excludeHomonyms o; includeHomonyms := includeHomonyms o;
  excludeCompoundWords := excludeCompoundWords o;
  excludeAbbreviations := excludeAbbreviations o;
  onlyMonosyllabic := onlyMonosyllabic o;
  onlyPolysyllabic := onlyPolysyllabic o; limitVowels := limitVowels o;
  excludeSpecificVowels := excludeSpecificVowels o;
  includeRhymeWith := includeRhymeWith o;
  excludeRhymeWith := excludeRhymeWith o;
  scrabbleScoreRange := scrabbleScoreRange o;
  excludeLetters := excludeLetters o; includeLetters := includeLetters o;
  mustContainAllLetters := mustContainAllLetters o;
  mustContainAnyLetters := mustContainAnyLetters o;
  excludeWordsWithRepeatingLetters := excludeWordsWithRepeatingLetters o;
  minConsonants := minConsonants o; minVowels := minVowels o;
  customFilter := customFilter o
|}.

Definition with_uniqueCharacters (v : bool) (o : Options) : Options := {|
  lengthMin := lengthMin o; lengthMax := lengthMax o;
  fixLength := fixLength o; reverse := reverse o; asString := asString o;
  sort := sort o; caseOption := caseOption o;
  filterStartsWith := filterStartsWith o; filterEndsWith := filterEndsWith o;
  excludeSubstrings := excludeSubstrings o; blacklist := blacklist o;
  whitelist := whitelist o; languages := languages o;
  excludeAmbiguous := excludeAmbiguous o; pattern := pattern o;
  phoneticDistinct := phoneticDistinct o;
  includeMetadata := includeMetadata o; seed := seed o;
  weightedSelection := weightedSelection o; customShuffle := customShuffle o;
  batchSize := batchSize o; validateWords := validateWords o;
  uniqueCharacters := v;
  maxRepeatLetters := maxRepeatLetters o; allowNumbers := allowNumbers o;
  allowSpecialChars := allowSpecialChars o; minEntropy := minEntropy o;
  returnEntropy := returnEntropy o;
  customEntropyCalculator := customEntropyCalculator o;
  syllableCount := syllableCount o;
  excludePartsOfSpeech := excludePartsOfSpeech o;
  includePartsOfSpeech := includePartsOfSpeech o;
  limitSyllables := limitSyllables o;
  excludeWordOrigins := excludeWordOrigins o;
  includeWordOrigins := includeWordOrigins o;
  excludeProperNouns := excludeProperNouns o; excludeSlang := excludeSlang o;
  includeDefinitions := includeDefinitions o;
  includeExamples := includeExamples o; synonyms := synonyms o;
  excludeHomonyms := excludeHomonyms o; includeHomonyms := includeHomonyms o;
  excludeCompoundWords := excludeCompoundWords o;
  excludeAbbreviations := excludeAbbreviations o;
  onlyMonosyllabic := onlyMonosyllabic o;
  onlyPolysyllabic := onlyPolysyllabic o; limitVowels := limitVowels o;
  excludeSpecificVowels := excludeSpecificVowels o;
  includeRhymeWith := includeRhymeWith o;
  excludeRhymeWith := excludeRhymeWith o;
  scrabbleScoreRange := scrabbleScoreRange o;
  excludeLetters := excludeLetters o; includeLetters := includeLetters o;
  mustContainAllLetters := mustContainAllLetters o;
  mustContainAnyLetters := mustContainAnyLetters o;
  excludeWordsWithRepeatingLetters := excludeWordsWithRepeatingLetters o;
  minConsonants := minConsonants o; minVowels := minVowels o;
  customFilter := customFilter o
|}.

Definition with_allowNumbers (v : bool) (o : Options) : Options := {|
  lengthMin := lengthMin o; lengthMax := lengthMax o;
  fixLength := fixLength o; reverse := reverse o; asString := asString o;
  sort := sort o; caseOption := caseOption o;
  filterStartsWith := filterStartsWith o; filterEndsWith := filterEndsWith o;
  excludeSubstrings := excludeSubstrings o; blacklist := blacklist o;
  whitelist := whitelist o; languages := languages o;
  excludeAmbiguous := excludeAmbiguous o; pattern := pattern o;
  phoneticDistinct := phoneticDistinct o;
  includeMetadata := includeMetadata o; seed := seed o;
  weightedSelection := weightedSelection o; customShuffle := customShuffle o;
  batchSize := batchSize o; validateWords := validateWords o;
  uniqueCharacters := uniqueCharacters o;
  maxRepeatLetters := maxRepeatLetters o; allowNumbers := v;
  allowSpecialChars := allowSpecialChars o; minEntropy := minEntropy o;
  returnEntropy := returnEntropy o;
  customEntropyCalculator := customEntropyCalculator o;
  syllableCount := syllableCount o;
  excludePartsOfSpeech := excludePartsOfSpeech o;
  includePartsOfSpeech := includePartsOfSpeech o;
  limitSyllables := limitSyllables o;
  excludeWordOrigins := excludeWordOrigins o;
  includeWordOrigins := includeWordOrigins o;
  excludeProperNouns := excludeProperNouns o; excludeSlang := excludeSlang o;
  includeDefinitions := includeDefinitions o;
  includeExamples := includeExamples o; synonyms := synonyms o;
  excludeHomonyms := excludeHomonyms o; includeHomonyms := includeHomonyms o;
  excludeCompoundWords := excludeCompoundWords o;
  excludeAbbreviations := excludeAbbreviations o;
  onlyMonosyllabic := onlyMonosyllabic o;
  onlyPolysyllabic := onlyPolysyllabic o; limitVowels := limitVowels o;
  excludeSpecificVowels := excludeSpecificVowels o;
  includeRhymeWith := includeRhymeWith o;
  excludeRhymeWith := excludeRhymeWith o;
  scrabbleScoreRange := scrabbleScoreRange o;
  excludeLetters := excludeLetters o; includeLetters := includeLetters o;
  mustContainAllLetters := mustContainAllLetters o;
  mustContainAnyLetters := mustContainAnyLetters o;
  excludeWordsWithRepeatingLetters := excludeWordsWithRepeatingLetters o;
  minConsonants := minConsonants o; minVowels := minVowels o;
  customFilter := customFilter o
|}.

Definition with_reverse (v : bool) (o : Options) : Options := {|
  lengthMin := lengthMin o; lengthMax := lengthMax o;
  fixLength := fixLength o; reverse := v; asString := asString o;
  sort := sort o; caseOption := caseOption o;
  filterStartsWith := filterStartsWith o; filterEndsWith := filterEndsWith o;
  excludeSubstrings := excludeSubstrings o; blacklist := blacklist o;
  whitelist := whitelist o; languages := languages o;
  excludeAmbiguous := excludeAmbiguous o; pattern := pattern o;
  phoneticDistinct := phoneticDistinct o;
  includeMetadata := includeMetadata o; seed := seed o;
  weightedSelection := weightedSelection o; customShuffle := customShuffle o;
  batchSize := batchSize o; validateWords := validateWords o;
  uniqueCharacters := uniqueCharacters o;
  maxRepeatLetters := maxRepeatLetters o; allowNumbers := allowNumbers o;
  allowSpecialChars := allowSpecialChars o; minEntropy := minEntropy o;
  returnEntropy := returnEntropy o;
  customEntropyCalculator := customEntropyCalculator o;
  syllableCount := syllableCount o;
  excludePartsOfSpeech := excludePartsOfSpeech o;
  includePartsOfSpeech := includePartsOfSpeech o;
  limitSyllables := limitSyllables o;
  excludeWordOrigins := excludeWordOrigins o;
  includeWordOrigins := includeWordOrigins o;
  excludeProperNouns := excludeProperNouns o; excludeSlang := excludeSlang o;
  includeDefinitions := includeDefinitions o;
  includeExamples := includeExamples o; synonyms := synonyms o;
  excludeHomonyms := excludeHomonyms o; includeHomonyms := includeHomonyms o;
  excludeCompoundWords := excludeCompoundWords o;
  excludeAbbreviations := excludeAbbreviations o;
  onlyMonosyllabic := onlyMonosyllabic o;
  onlyPolysyllabic := onlyPolysyllabic o; limitVowels := limitVowels o;
  excludeSpecificVowels := excludeSpecificVowels o;
  includeRhymeWith := includeRhymeWith o;
  excludeRhymeWith := excludeRhymeWith o;
  scrabbleScoreRange := scrabbleScoreRange o;
  excludeLetters := excludeLetters o; includeLetters := includeLetters o;
  mustContainAllLetters := mustContainAllLetters o;
  mustContainAnyLetters := mustContainAnyLetters o;
  excludeWordsWithRepeatingLetters := excludeWordsWithRepeatingLetters o;
  minConsonants := minConsonants o; minVowels := minVowels o;
  customFilter := customFilter o
|}.

Definition with_phoneticDistinct (v : bool) (o : Options) : Options := {|
  lengthMin := lengthMin o; lengthMax := lengthMax o;
  fixLength := fixLength o; reverse := reverse o; asString := asString o;
  sort := sort o; caseOption := caseOption o;
  filterStartsWith := filterStartsWith o; filterEndsWith := filterEndsWith o;
  excludeSubstrings := excludeSubstrings o; blacklist := blacklist o;
  whitelist := whitelist o; languages := languages o;
  excludeAmbiguous := excludeAmbiguous o; pattern := pattern o;
  phoneticDistinct := v; includeMetadata := includeMetadata o;
  seed := seed o; weightedSelection := weightedSelection o;
  customShuffle := customShuffle o; batchSize := batchSize o;
  validateWords := validateWords o; uniqueCharacters := uniqueCharacters o;
  maxRepeatLetters := maxRepeatLetters o; allowNumbers := allowNumbers o;
  allowSpecialChars := allowSpecialChars o; minEntropy := minEntropy o;
  returnEntropy := returnEntropy o;
  customEntropyCalculator := customEntropyCalculator o;
  syllableCount := syllableCount o;
  excludePartsOfSpeech := excludePartsOfSpeech o;
  includePartsOfSpeech := includePartsOfSpeech o;
  limitSyllables := limitSyllables o;
  excludeWordOrigins := excludeWordOrigins o;
  includeWordOrigins := includeWordOrigins o;
  excludeProperNouns := excludeProperNouns o; excludeSlang := excludeSlang o;
  includeDefinitions := includeDefinitions o;
  includeExamples := includeExamples o; synonyms := synonyms o;
  excludeHomonyms := excludeHomonyms o; includeHomonyms := includeHomonyms o;
  excludeCompoundWords := excludeCompoundWords o;
  excludeAbbreviations := excludeAbbreviations o;
  onlyMonosyllabic := onlyMonosyllabic o;
  onlyPolysyllabic := onlyPolysyllabic o; limitVowels := limitVowels o;
  excludeSpecificVowels := excludeSpecificVowels o;
  includeRhymeWith := includeRhymeWith o;
  excludeRhymeWith := excludeRhymeWith o;
  scrabbleScoreRange := scrabbleScoreRange o;
  excludeLetters := excludeLetters o; includeLetters := includeLetters o;
  mustContainAllLetters := mustContainAllLetters o;
  mustContainAnyLetters := mustContainAnyLetters o;
  excludeWordsWithRepeatingLetters := excludeWordsWithRepeatingLetters o;
  minConsonants := minConsonants o; minVowels := minVowels o;
  customFilter := customFilter o
|}.

Definition with_weightedSelection (v : option (gmap string Z)) (o : Options) : Options := {|
  lengthMin := lengthMin o; lengthMax := lengthMax o;
  fixLength := fixLength o; reverse := reverse o; asString := asString o;
  sort := sort o; caseOption := caseOption o;
  filterStartsWith := filterStartsWith o; filterEndsWith := filterEndsWith o;
  excludeSubstrings := excludeSubstrings o; blacklist := blacklist o;
  whitelist := whitelist o; languages := languages o;
  excludeAmbiguous := excludeAmbiguous o; pattern := pattern o;
  phoneticDistinct := phoneticDistinct o;
  includeMetadata := includeMetadata o; seed := seed o;
  weightedSelection := v; customShuffle := customShuffle o;
  batchSize := batchSize o; validateWords := validateWords o;
  uniqueCharacters := uniqueCharacters o;
  maxRepeatLetters := maxRepeatLetters o; allowNumbers := allowNumbers o;
  allowSpecialChars := allowSpecialChars o; minEntropy := minEntropy o;
  returnEntropy := returnEntropy o;
  customEntropyCalculator := customEntropyCalculator o;
  syllableCount := syllableCount o;
  excludePartsOfSpeech := excludePartsOfSpeech o;
  includePartsOfSpeech := includePartsOfSpeech o;
  limitSyllables := limitSyllables o;
  excludeWordOrigins := excludeWordOrigins o;
  includeWordOrigins := includeWordOrigins o;
  excludeProperNouns := excludeProperNouns o; excludeSlang := excludeSlang o;
  includeDefinitions := includeDefinitions o;
  includeExamples := includeExamples o; synonyms := synonyms o;
  excludeHomonyms := excludeHomonyms o; includeHomonyms := includeHomonyms o;
  excludeCompoundWords := excludeCompoundWords o;
  excludeAbbreviations := excludeAbbreviations o;
  onlyMonosyllabic := onlyMonosyllabic o;
  onlyPolysyllabic := onlyPolysyllabic o; limitVowels := limitVowels o;
  excludeSpecificVowels := excludeSpecificVowels o;
  includeRhymeWith := includeRhymeWith o;
  excludeRhymeWith := excludeRhymeWith o;
  scrabbleScoreRange := scrabbleScoreRange o;
  excludeLetters := excludeLetters o; includeLetters := includeLetters o;
  mustContainAllLetters := mustContainAllLetters o;
  mustContainAnyLetters := mustContainAnyLetters o;
  excludeWordsWithRepeatingLetters := excludeWordsWithRepeatingLetters o;
  minConsonants := minConsonants o; minVowels := minVowels o;
  customFilter := customFilter o
|}.

Definition with_languages (v : option (list string)) (o : Options) : Options := {|
  lengthMin := lengthMin o; lengthMax := lengthMax o;
  fixLength := fixLength o; reverse := reverse o; asString := asString o;
  sort := sort o; caseOption := caseOption o;
  filterStartsWith := filterStartsWith o; filterEndsWith := filterEndsWith o;
  excludeSubstrings := excludeSubstrings o; blacklist := blacklist o;
  whitelist := whitelist o; languages := v;
  excludeAmbiguous := excludeAmbiguous o; pattern := pattern o;
  phoneticDistinct := phoneticDistinct o;
  includeMetadata := includeMetadata o; seed := seed o;
  weightedSelection := weightedSelection o; customShuffle := customShuffle o;
  batchSize := batchSize o; validateWords := validateWords o;
  uniqueCharacters := uniqueCharacters o;
  maxRepeatLetters := maxRepeatLetters o; allowNumbers := allowNumbers o;
  allowSpecialChars := allowSpecialChars o; minEntropy := minEntropy o;
  returnEntropy := returnEntropy o;
  customEntropyCalculator := customEntropyCalculator o;
  syllableCount := syllableCount o;
  excludePartsOfSpeech := excludePartsOfSpeech o;
  includePartsOfSpeech := includePartsOfSpeech o;
  limitSyllables := limitSyllables o;
  excludeWordOrigins := excludeWordOrigins o;
  includeWordOrigins := includeWordOrigins o;
  excludeProperNouns := excludeProperNouns o; excludeSlang := excludeSlang o;
  includeDefinitions := includeDefinitions o;
  includeExamples := includeExamples o; synonyms := synonyms o;
  excludeHomonyms := excludeHomonyms o; includeHomonyms := includeHomonyms o;
  excludeCompoundWords := excludeCompoundWords o;
  excludeAbbreviations := excludeAbbreviations o;
  onlyMonosyllabic := onlyMonosyllabic o;
  onlyPolysyllabic := onlyPolysyllabic o; limitVowels := limitVowels o;
  excludeSpecificVowels := excludeSpecificVowels o;
  includeRhymeWith := includeRhymeWith o;
  excludeRhymeWith := excludeRhymeWith o;
  scrabbleScoreRange := scrabbleScoreRange o;
  excludeLetters := excludeLetters o; includeLetters := includeLetters o;
  mustContainAllLetters := mustContainAllLetters o;
  mustContainAnyLetters := mustContainAnyLetters o;
  excludeWordsWithRepeatingLetters := excludeWordsWithRepeatingLetters o;
  minConsonants := minConsonants o; minVowels := minVowels o;
  customFilter := customFilter o
|}.

Definition with_whitelist (v : option (list string)) (o : Options) : Options := {|
  lengthMin := lengthMin o; lengthMax := lengthMax o;
  fixLength := fixLength o; reverse := reverse o; asString := asString o;
  sort := sort o; caseOption := caseOption o;
  filterStartsWith := filterStartsWith o; filterEndsWith := filterEndsWith o;
  excludeSubstrings := excludeSubstrings o; blacklist := blacklist o;
  whitelist := v; languages := languages o;
  excludeAmbiguous := excludeAmbiguous o; pattern := pattern o;
  phoneticDistinct := phoneticDistinct o;
  includeMetadata := includeMetadata o; seed := seed o;
  weightedSelection := weightedSelection o; customShuffle := customShuffle o;
  batchSize := batchSize o; validateWords := validateWords o;
  uniqueCharacters := uniqueCharacters o;
  maxRepeatLetters := maxRepeatLetters o; allowNumbers := allowNumbers o;
  allowSpecialChars := allowSpecialChars o; minEntropy := minEntropy o;
  returnEntropy := returnEntropy o;
  customEntropyCalculator := customEntropyCalculator o;
  syllableCount := syllableCount o;
  excludePartsOfSpeech := excludePartsOfSpeech o;
  includePartsOfSpeech := includePartsOfSpeech o;
  limitSyllables := limitSyllables o;
  excludeWordOrigins := excludeWordOrigins o;
  includeWordOrigins := includeWordOrigins o;
  excludeProperNouns := excludeProperNouns o; excludeSlang := excludeSlang o;
  includeDefinitions := includeDefinitions o;
  includeExamples := includeExamples o; synonyms := synonyms o;
  excludeHomonyms := excludeHomonyms o; includeHomonyms := includeHomonyms o;
  excludeCompoundWords := excludeCompoundWords o;
  excludeAbbreviations := excludeAbbreviations o;
  onlyMonosyllabic := onlyMonosyllabic o;
  onlyPolysyllabic := onlyPolysyllabic o; limitVowels := limitVowels o;
  excludeSpecificVowels := excludeSpecificVowels o;
  includeRhymeWith := includeRhymeWith o;
  excludeRhymeWith := excludeRhymeWith o;
  scrabbleScoreRange := scrabbleScoreRange o;
  excludeLetters := excludeLetters o; includeLetters := includeLetters o;
  mustContainAllLetters := mustContainAllLetters o;
  mustContainAnyLetters := mustContainAnyLetters o;
  excludeWordsWithRepeatingLetters := excludeWordsWithRepeatingLetters o;
  minConsonants := minConsonants o; minVowels := minVowels o;
  customFilter := customFilter o
|}.

Definition with_filterStartsWith (v : option (list string)) (o : Options) : Options := {|
  lengthMin := lengthMin o; lengthMax := lengthMax o;
  fixLength := fixLength o; reverse := reverse o; asString := asString o;
  sort := sort o; caseOption := caseOption o;
  filterStartsWith := v; filterEndsWith := filterEndsWith o;
  excludeSubstrings := excludeSubstrings o; blacklist := blacklist o;
  whitelist := whitelist o; languages := languages o;
  excludeAmbiguous := excludeAmbiguous o; pattern := pattern o;
  phoneticDistinct := phoneticDistinct o;
  includeMetadata := includeMetadata o; seed := seed o;
  weightedSelection := weightedSelection o; customShuffle := customShuffle o;
  batchSize := batchSize o; validateWords := validateWords o;
  uniqueCharacters := uniqueCharacters o;
  maxRepeatLetters := maxRepeatLetters o; allowNumbers := allowNumbers o;
  allowSpecialChars := allowSpecialChars o; minEntropy := minEntropy o;
  returnEntropy := returnEntropy o;
  customEntropyCalculator := customEntropyCalculator o;
  syllableCount := syllableCount o;
  excludePartsOfSpeech := excludePartsOfSpeech o;
  includePartsOfSpeech := includePartsOfSpeech o;
  limitSyllables := limitSyllables o;
  excludeWordOrigins := excludeWordOrigins o;
  includeWordOrigins := includeWordOrigins o;
  excludeProperNouns := excludeProperNouns o; excludeSlang := excludeSlang o;
  includeDefinitions := includeDefinitions o;
  includeExamples := includeExamples o; synonyms := synonyms o;
  excludeHomonyms := excludeHomonyms o; includeHomonyms := includeHomonyms o;
  excludeCompoundWords := excludeCompoundWords o;
  excludeAbbreviations := excludeAbbreviations o;
  onlyMonosyllabic := onlyMonosyllabic o;
  onlyPolysyllabic := onlyPolysyllabic o; limitVowels := limitVowels o;
  excludeSpecificVowels := excludeSpecificVowels o;
  includeRhymeWith := includeRhymeWith o;
  excludeRhymeWith := excludeRhymeWith o;
  scrabbleScoreRange := scrabbleScoreRange o;
  excludeLetters := excludeLetters o; includeLetters := includeLetters o;
  mustContainAllLetters := mustContainAllLetters o;
  mustContainAnyLetters := mustContainAnyLetters o;
  excludeWordsWithRepeatingLetters := excludeWordsWithRepeatingLetters o;
  minConsonants := minConsonants o; minVowels := minVowels o;
  customFilter := customFilter o
|}.

Definition with_blacklist (v : option (list string)) (o : Options) : Options := {|
  lengthMin := lengthMin o; lengthMax := lengthMax o;
  fixLength := fixLength o; reverse := reverse o; asString := asString o;
  sort := sort o; caseOption := caseOption o;
  filterStartsWith := filterStartsWith o; filterEndsWith := filterEndsWith o;
  excludeSubstrings := excludeSubstrings o; blacklist := v;
  whitelist := whitelist o; languages := languages o;
  excludeAmbiguous := excludeAmbiguous o; pattern := pattern o;
  phoneticDistinct := phoneticDistinct o;
  includeMetadata := includeMetadata o; seed := seed o;
  weightedSelection := weightedSelection o; customShuffle := customShuffle o;
  batchSize := batchSize o; validateWords := validateWords o;
  uniqueCharacters := uniqueCharacters o;
  maxRepeatLetters := maxRepeatLetters o; allowNumbers := allowNumbers o;
  allowSpecialChars := allowSpecialChars o; minEntropy := minEntropy o;
  returnEntropy := returnEntropy o;
  customEntropyCalculator := customEntropyCalculator o;
  syllableCount := syllableCount o;
  excludePartsOfSpeech := excludePartsOfSpeech o;
  includePartsOfSpeech := includePartsOfSpeech o;
  limitSyllables := limitSyllables o;
  excludeWordOrigins := excludeWordOrigins o;
  includeWordOrigins := includeWordOrigins o;
  excludeProperNouns := excludeProperNouns o; excludeSlang := excludeSlang o;
  includeDefinitions := includeDefinitions o;
  includeExamples := includeExamples o; synonyms := synonyms o;
  excludeHomonyms := excludeHomonyms o; includeHomonyms := includeHomonyms o;
  excludeCompoundWords := excludeCompoundWords o;
  excludeAbbreviations := excludeAbbreviations o;
  onlyMonosyllabic := onlyMonosyllabic o;
  onlyPolysyllabic := onlyPolysyllabic o; limitVowels := limitVowels o;
  excludeSpecificVowels := excludeSpecificVowels o;
  includeRhymeWith := includeRhymeWith o;
  excludeRhymeWith := excludeRhymeWith o;
  scrabbleScoreRange := scrabbleScoreRange o;
  excludeLetters := excludeLetters o; includeLetters := includeLetters o;
  mustContainAllLetters := mustContainAllLetters o;
  mustContainAnyLetters := mustContainAnyLetters o;
  excludeWordsWithRepeatingLetters := excludeWordsWithRepeatingLetters o;
  minConsonants := minConsonants o; minVowels := minVowels o;
  customFilter := customFilter o
|}.

(** ** Helpers of the Predicate Filter Stage *)

(** [x && Array.isArray(x) && x.length > 0] guarding a test on [x]. *)
Definition when_nonempty (x : option (list string)) (test : list string -> bool)
  : bool :=
  match x with
  | Some (p :: l) => test (p :: l)
  | _ => false
  end.

(** [x && Array.isArray(x) && x.length > 0] *)
Definition nonempty (x : option (list string)) : bool :=
  when_nonempty x (fun _ => true).

(** [x !== undefined && typeof x === 'number'] guarding a test on [x]. *)
Definition when_number (x : option Z) (test : Z -> bool) : bool :=
  match x with
  | Some n => test n
  | None => false
  end.

(** [x && typeof x === 'string'] guarding a test on [x]: the empty string
    is falsy. *)
Definition when_string (x : option string) (test : string -> bool) : bool :=
  match x with
  | Some s => truthy_string s && test s
  | None => false
  end.

(** [blacklist ? new Set(blacklist.map(word => word.toLowerCase())) : null] *)
Definition lowerSet (x : option (list string)) : option (gset string) :=
  (fun l => list_to_set (toLowerCase <$> l)) <$> x.

(** [/[l1I0O]/i]: a character matches when its upper-case form is the
    upper-case form of a member of the class. *)
Definition ambiguousChars (c : ascii) : bool :=
  match toUpperCaseChar c with
  | "L" | "1" | "I" | "0" | "O" => true
  | _ => false
  end%char.

Definition is_vowel (c : ascii) : bool :=
  match c with
  | "a" | "e" | "i" | "o" | "u" => true
  | _ => false
  end%char.

(** The loop of [maxRepeatLetters]; [true] when it reaches [return false]. *)
Fixpoint exceedsRepeat (maxRepeatLetters : Z) (letterCounts : gmap ascii Z)
    (word : list ascii) : bool :=
  match word with
  | [] => false
  | char :: rest =>
      let n := default 0 (letterCounts !! char) + 1 in
      if n >? maxRepeatLetters then true
      else exceedsRepeat maxRepeatLetters (<[char := n]> letterCounts) rest
  end.

(** The [scores] table of [calculateScrabbleScore], with [scores[char] || 0]. *)
Definition scores (c : ascii) : Z :=
  match c with
  | "a" => 1 | "b" => 3 | "c" => 3 | "d" => 2 | "e" => 1 | "f" => 4
  | "g" => 2 | "h" => 4 | "i" => 1 | "j" => 8 | "k" => 5 | "l" => 1
  | "m" => 3 | "n" => 1 | "o" => 1 | "p" => 3 | "q" => 10 | "r" => 1
  | "s" => 1 | "t" => 1 | "u" => 1 | "v" => 4 | "w" => 4 | "x" => 8
  | "y" => 4 | "z" => 10
  | _ => 0
  end%char.

Definition calculateScrabbleScore (word : string) : Z :=
  fold_left (fun acc char => acc + scores char) (chars (toLowerCase word)) 0.

Definition len (word : string) : Z := Z.of_nat (JsString.length word).

(** ** The Predicate Filter Stage

    The callback of [defaultWords.filter]: each [if] of the source that ends
    in [return false], in the source's order. [pattern.test] is the test of
    a regular expression without the [g] and [y] flags, a function of the
    word alone. *)
Definition keepWord (o : Options) (history : gset string)
    (whitelistSet blacklistSet : option (gset string)) (word : string) : bool :=
  let lowerWord := toLowerCase word in
  if from_option (fun s => negb (bool_decide (lowerWord ∈ s))) false whitelistSet
  then false else
  if from_option (fun s => bool_decide (lowerWord ∈ s)) false blacklistSet
  then false else
  if nonempty (languages o) then false else
  if when_number (fixLength o) (fun n => negb (len word =? n)) then false else
  if when_number (lengthMin o) (fun n => len word <? n) then false else
  if when_number (lengthMax o) (fun n => len word >? n) then false else
  if excludeAmbiguous o && test_class ambiguousChars word then false else
  if when_nonempty (filterStartsWith o) (fun l =>
       negb (existsb (fun prefix =>
               startsWith (toLowerCase word) (toLowerCase prefix)) l))
  then false else
  if when_nonempty (filterEndsWith o) (fun l =>
       negb (existsb (fun suffix =>
               endsWith (toLowerCase word) (toLowerCase suffix)) l))
  then false else
  if when_nonempty (excludeSubstrings o) (fun l =>
       existsb (fun sub => includes (toLowerCase word) (toLowerCase sub)) l)
  then false else
  if from_option (fun test => negb (test word)) false (pattern o) then false else
  if bool_decide (lowerWord ∈ history) then false else
  if uniqueCharacters o &&
     negb (distinct_chars (toLowerCase word) =? JsString.length word)%nat
  then false else
  if when_number (maxRepeatLetters o) (fun n =>
       (n >? 0) && exceedsRepeat n ∅ (chars (toLowerCase word)))
  then false else
  if negb (allowNumbers o) && test_class is_digit word then false else
  if negb (allowSpecialChars o) && test_class (fun c => negb (is_letter c)) word
  then false else
  if when_number (syllableCount o) (fun _ => true) then false else
  if nonempty (excludePartsOfSpeech o) then false else
  if nonempty (includePartsOfSpeech o) then false else
  if when_number (limitSyllables o) (fun _ => true) then false else
  if nonempty (excludeWordOrigins o) then false else
  if nonempty (includeWordOrigins o) then false else
  if excludeProperNouns o then false else
  if excludeSlang o then false else
  if nonempty (synonyms o) then false else
  if excludeHomonyms o then false else
  if includeHomonyms o then false else
  if excludeCompoundWords o then false else
  if excludeAbbreviations o then false else
  if onlyMonosyllabic o then false else
  if onlyPolysyllabic o then false else
  if when_nonempty (limitVowels o) (fun l =>
       negb (existsb (fun vowel =>
               includes (toLowerCase word) (toLowerCase vowel)) l))
  then false else
  if when_nonempty (excludeSpecificVowels o) (fun l =>
       existsb (fun vowel => includes (toLowerCase word) (toLowerCase vowel)) l)
  then false else
  if when_string (includeRhymeWith o) (fun target =>
       let rhyme := toLowerCase (slice_last2 target) in
       negb (endsWith (toLowerCase word) rhyme))
  then false else
  if when_string (excludeRhymeWith o) (fun target =>
       let rhyme := toLowerCase (slice_last2 target) in
       endsWith (toLowerCase word) rhyme)
  then false else
  if match scrabbleScoreRange o with
     | Some [minScore; maxScore] =>
         let scrabbleScore := calculateScrabbleScore word in
         (scrabbleScore <? minScore) || (scrabbleScore >? maxScore)
     | _ => false
     end
  then false else
  if when_nonempty (excludeLetters o) (fun l =>
       existsb (fun letter => includes (toLowerCase word) (toLowerCase letter)) l)
  then false else
  if when_nonempty (includeLetters o) (fun l =>
       negb (existsb (fun letter =>
               includes (toLowerCase word) (toLowerCase letter)) l))
  then false else
  if when_nonempty (mustContainAllLetters o) (fun l =>
       negb (forallb (fun letter =>
               includes (toLowerCase word) (toLowerCase letter)) l))
  then false else
  if when_nonempty (mustContainAnyLetters o) (fun l =>
       negb (existsb (fun letter =>
               includes (toLowerCase word) (toLowerCase letter)) l))
  then false else
  if excludeWordsWithRepeatingLetters o &&
     negb (distinct_chars (toLowerCase word)
           =? List.length (chars (toLowerCase word)))%nat
  then false else
  if when_number (minConsonants o) (fun n =>
       Z.of_nat (List.length
         (List.filter (fun c => negb (is_vowel c)) (chars (toLowerCase word)))) <? n)
  then false else
  if when_number (minVowels o) (fun n =>
       Z.of_nat (List.length
         (List.filter is_vowel (chars (toLowerCase word)))) <? n)
  then false else
  if from_option (fun test => negb (test word)) false (customFilter o)
  then false else
  true.

Definition predicateStage (o : Options) (history : gset string)
    (defaultWords : list string) : list string :=
  let blacklistSet := lowerSet (blacklist o) in
  let whitelistSet := lowerSet (whitelist o) in
  List.filter (keepWord o history whitelistSet blacklistSet) defaultWords.

(** [if (phoneticDistinct) { filteredWords = filteredWords.filter(...) }],
    with [phoneticMap = {}] at the start. *)
Definition phoneticStage (o : Options) (filteredWords : list string)
  : attempt (list string) :=
  if phoneticDistinct o then phoneticFilter ∅ filteredWords
  else Ok filteredWords.

(** ** The Weighting Stage *)

(** What reading a member of [weightedSelection] gives. The mapping is a
    plain object with integer weights, as in the README's
    [{ "apple": 2, "banana": 1 }]: a member is the number of an own entry,
    or what the object inherits from [Object.prototype] under that name (a
    function, and the prototype itself for [__proto__]), or [undefined]. *)
Inductive member : Type :=
| NumberValue (n : Z)
| ObjectValue
| UndefinedValue.

(** The names of the members of [Object.prototype]. *)
Definition objectPrototype : list string :=
  [ "constructor"; "__defineGetter__"; "__defineSetter__"; "hasOwnProperty";
    "__lookupGetter__"; "__lookupSetter__"; "isPrototypeOf";
    "propertyIsEnumerable"; "toString"; "valueOf"; "__proto__";
    "toLocaleString" ]%string.

(** [weightedSelection[key]] *)
Definition readMember (weightedSelection : gmap string Z) (key : string)
  : member :=
  match weightedSelection !! key with
  | Some n => NumberValue n
  | None =>
      if bool_decide (key ∈ objectPrototype) then ObjectValue
      else UndefinedValue
  end.

(** [weightedSelection[word.toLowerCase()] || 1]: [undefined] and the
    number [0] are falsy, a function or an object is truthy. *)
Definition weightOf (weightedSelection : gmap string Z) (word : string)
  : member :=
  match readMember weightedSelection (toLowerCase word) with
  | NumberValue n => if n =? 0 then NumberValue 1 else NumberValue n
  | ObjectValue => ObjectValue
  | UndefinedValue => NumberValue 1
  end.

(** [for (let i = 0; i < weight; i++) weightedWords.push(word)]: against a
    function or an object, which convert to [NaN], [i < weight] is false
    from the start. *)
Definition copies (weight : member) (word : string) : list string :=
  match weight with
  | NumberValue n => replicate (Z.to_nat n) word
  | ObjectValue | UndefinedValue => []
  end.

Definition weightingStage (o : Options) (filteredWords : list string)
  : list string :=
  match weightedSelection o with
  | Some ws =>
      fold_left (fun weightedWords word =>
                   weightedWords ++ copies (weightOf ws word) word)
                filteredWords []
  | None => filteredWords
  end.

(** ** The Ordering Stage *)

(** The state of [Math.random]: the draws still to come, each the numerator
    of a fraction of [2^53]. *)
Definition Rng : Type := nat -> N.

Definition two53 : N := 2 ^ 53.

(** [Math.random()]: a number [u / 2^53] in [[0, 1)], and the next state. *)
Definition Math_random (rng : Rng) : N * Rng :=
  ((rng O) mod two53, fun k => rng (S k))%N.

(** The double nearest to [p / 2^53], as the numerator of a fraction of
    [2^53]: a double keeps 53 significant bits, and of two doubles equally
    near the one with an even last bit is taken. *)
Definition roundToDouble (p : N) : N :=
  let s := (N.size p - 53)%N in
  let q := (p / 2 ^ s)%N in
  let rest := (p mod 2 ^ s)%N in
  let half := (2 ^ (s - 1))%N in
  if (s =? 0)%N then p
  else if (half <? rest)%N || ((rest =? half)%N && N.odd q)
       then ((q + 1) * 2 ^ s)%N
       else (q * 2 ^ s)%N.

(** [Math.floor(Math.random() * n)] for the draw [u / 2^53]: the product is
    a double, the nearest one to [u * n / 2^53], before [Math.floor] sees
    it. *)
Definition floor_times (u : N) (n : nat) : nat :=
  N.to_nat (roundToDouble (u * N.of_nat n) / two53).

(** [[array[i], array[j]] = [array[j], array[i]]], for two indices inside
    the array: the loop below draws no other ([fisherYatesRounds_range]). *)
Definition swap (array : list string) (i j : nat) : list string :=
  match array !! i, array !! j with
  | Some ai, Some aj => <[j := ai]> (<[i := aj]> array)
  | _, _ => array
  end.

(** [for (let i = ...; i > 0; i--) { ... }], entered with the value of [i]. *)
Fixpoint fisherYates (i : nat) (array : list string) (rng : Rng)
  : list string * Rng :=
  match i with
  | O => (array, rng)
  | S i' =>
      let '(u, rng') := Math_random rng in
      let j := floor_times u (i + 1) in
      fisherYates i' (swap array i j) rng'
  end.

Definition shuffle (o : Options) (array : list string) (rng : Rng)
  : list string * Rng :=
  match customShuffle o with
  | Some f => (f array, rng)
  | None => fisherYates (List.length array - 1) array rng
  end.

(** [array.sort(compare)]: the sort is stable, an insertion from the right
    that puts an element before the first one it does not come after. *)
Fixpoint insertSorted (compare : string -> string -> comparison) (x : string)
    (sorted : list string) : list string :=
  match sorted with
  | [] => [x]
  | y :: rest =>
      match compare x y with
      | Gt => y :: insertSorted compare x rest
      | _ => x :: y :: rest
      end
  end.

Definition sortWith (compare : string -> string -> comparison)
    (array : list string) : list string :=
  fold_right (insertSorted compare) [] array.

Definition ascending (a b : string) : comparison :=
  localeCompare (toLowerCase a) (toLowerCase b).

Definition descending (a b : string) : comparison :=
  localeCompare (toLowerCase b) (toLowerCase a).

Definition sortStage (o : Options) (filteredWords : list string) : list string :=
  match sort o with
  | Some s =>
      if String.eqb s "asc" then sortWith ascending filteredWords
      else if String.eqb s "desc" then sortWith descending filteredWords
      else filteredWords
  | None => filteredWords
  end.

(** ** The Selection and Post-Processing Stage *)

Definition maxAttempts : nat := 1000.

(** [for (let word of filteredWords) { ... }] with [selectedWords] and
    [attempts] as the state. *)
Fixpoint selectLoop (amountOfWords : Z) (filteredWords selectedWords : list string)
    (attempts : nat) : list string :=
  match filteredWords with
  | [] => selectedWords
  | word :: rest =>
      if Z.of_nat (List.length selectedWords) >=? amountOfWords then selectedWords
      else
        let selectedWords := selectedWords ++ [word] in
        let attempts := S attempts in
        if (maxAttempts <=? attempts)%nat then selectedWords
        else selectLoop amountOfWords rest selectedWords attempts
  end.

Definition capitalize (word : string) : string :=
  (toUpperCase (charAt0 word) +:+ slice1 word)%stdpp.

Definition caseStage (o : Options) (selectedWords : list string) : list string :=
  match caseOption o with
  | Some c =>
      if String.eqb c "upper" then toUpperCase <$> selectedWords
      else if String.eqb c "lower" then toLowerCase <$> selectedWords
      else if String.eqb c "capitalize" then capitalize <$> selectedWords
      else selectedWords
  | None => selectedWords
  end.

(** [selectedWords.flatMap(word => [])] when [synonyms] is a non-empty
    array. *)
Definition synonymsStage (o : Options) (selectedWords : list string)
  : list string :=
  if nonempty (synonyms o) then mbind (M := list) (fun _ => []) selectedWords
  else selectedWords.

(** [selectedWords.forEach(word => history.add(word.toLowerCase()))] *)
Definition updateHistory (history : gset string) (selectedWords : list string)
  : gset string :=
  fold_left (fun h word => {[ toLowerCase word ]} ∪ h) selectedWords history.

(** The entropy of a metadata record: [uniqueChars * Math.log2(26)], kept
    as its factor [uniqueChars], or the value of the custom calculator. *)
Inductive entropy : Type :=
| TimesLog2Of26 (uniqueChars : nat)
| Custom (value : Q).

Definition calculateEntropy (o : Options) (word : string) : entropy :=
  match customEntropyCalculator o with
  | Some f => Custom (f word)
  | None => TimesLog2Of26 (distinct_chars (toLowerCase word))
  end.

Record metadata : Type := {
  meta_word : string;
  meta_length : nat;
  meta_entropy : entropy
}.

(** What [getWords] returns. *)
Inductive result : Type :=
| Joined (s : string)
| WithMetadata (records : list metadata)
| Words (words : list string).

Definition shape (o : Options) (selectedWords : list string) : result :=
  if asString o then Joined (join ", " selectedWords)
  else if includeMetadata o then
    WithMetadata
      ((fun word => {| meta_word := word;
                       meta_length := JsString.length word;
                       meta_entropy := calculateEntropy o word |})
         <$> selectedWords)
  else Words selectedWords.

(** ** [getWords] *)

(** The [amountOfWords] argument: a number, or a value whose [typeof] is
    not ['number']. The numbers are the integers, the documented type of the
    argument; fractions, [NaN] and the infinities are not modelled. *)
Inductive argument : Type :=
| Number (n : Z)
| NotANumber.

(** How a call ends, with History and the random source as it leaves
    them. *)
Inductive outcome : Type :=
| Return (value : result) (history : gset string) (rng : Rng)
| Throw (e : exn) (history : gset string) (rng : Rng).

Definition positive_number_message : string :=
  "'amountOfWords' must be a positive number.".

(** The pipeline from the filter to [selectedWords] as it is when History
    is updated. *)
Definition selectWords (o : Options) (amountOfWords : Z)
    (defaultWords : list string) (history : gset string) (rng : Rng)
  : attempt (list string * Rng) :=
  let filteredWords := predicateStage o history defaultWords in
  filteredWords ← phoneticStage o filteredWords;
  let filteredWords := weightingStage o filteredWords in
  let '(filteredWords, rng) := shuffle o filteredWords rng in
  let filteredWords := sortStage o filteredWords in
  let selectedWords := selectLoop amountOfWords filteredWords [] O in
  let selectedWords := if reverse o then rev selectedWords else selectedWords in
  let selectedWords := caseStage o selectedWords in
  let selectedWords := synonymsStage o selectedWords in
  Ok (selectedWords, rng).

(** [getWords(options, amountOfWords, customWordsArray)] with an array for
    [customWordsArray], so that [defaultWords] is that array. *)
Definition getWords (options : Options) (amountOfWords : argument)
    (customWordsArray : list string) (history : gset string) (rng : Rng)
  : outcome :=
  match amountOfWords with
  | NotANumber => Throw (Error positive_number_message) history rng
  | Number n =>
      if n <=? 0 then Throw (Error positive_number_message) history rng
      else if n =? 0 then
        Return (if asString options then Joined "" else Words []) history rng
      else
        match selectWords options n customWordsArray history rng with
        | Raise e => Throw e history rng
        | Ok (selectedWords, rng') =>
            Return (shape options selectedWords)
                   (updateHistory history selectedWords) rng'
        end
  end.

(** ** Vocabulary of the properties *)

(** A number greater than zero. *)
Definition is_positive (amountOfWords : argument) : Prop :=
  match amountOfWords with
  | Number n => 0 < n
  | NotANumber => False
  end.

Definition returned (out : outcome) : option result :=
  match out with
  | Return value _ _ => Some value
  | Throw _ _ _ => None
  end.

Definition thrown (out : outcome) : option exn :=
  match out with
  | Return _ _ _ => None
  | Throw e _ _ => Some e
  end.

(** The selected words a returned value carries: the words of the array,
    the [word] fields of the records, or the words joined into the string. *)
Definition carries (value : result) (selectedWords : list string) : Prop :=
  match value with
  | Words out => out = selectedWords
  | WithMetadata records => meta_word <$> records = selectedWords
  | Joined s => s = join ", " selectedWords
  end.

(** The contract of a caller-supplied shuffle: it permutes the array it is
    given in place. *)
Definition shuffle_in_place (o : Options) : Prop :=
  forall f, customShuffle o = Some f -> forall l, Permutation l (f l).

(** One of the options that need linguistic data is set: a non-empty array,
    a number, or [true]. *)
Definition unsupportedOption (o : Options) : bool :=
  nonempty (languages o) || when_number (syllableCount o) (fun _ => true) ||
  nonempty (excludePartsOfSpeech o) || nonempty (includePartsOfSpeech o) ||
  when_number (limitSyllables o) (fun _ => true) ||
  nonempty (excludeWordOrigins o) || nonempty (includeWordOrigins o) ||
  excludeProperNouns o || excludeSlang o || nonempty (synonyms o) ||
  excludeHomonyms o || includeHomonyms o || excludeCompoundWords o ||
  excludeAbbreviations o || onlyMonosyllabic o || onlyPolysyllabic o.

(** What an empty selection is returned as. *)
Definition emptyResult (o : Options) : result :=
  if asString o then Joined ""
  else if includeMetadata o then WithMetadata []
  else Words [].

#[global] Instance exn_eq_dec : EqDecision exn.
Proof. solve_decision. Defined.

#[global] Instance attempt_eq_dec `{EqDecision A} : EqDecision (attempt A).
Proof. solve_decision. Defined.

(** Two words have the same phonetic code. *)
Definition sameCode (v w : string) : bool :=
  bool_decide (soundex v = soundex w).

(** The Phonetic Dedup Stage as the specification words it: a word is kept
    when no word before it has its code. [earlier] is the words already
    passed. *)
Fixpoint keepFirstPerCode (earlier words : list string) : list string :=
  match words with
  | [] => []
  | word :: rest =>
      (if existsb (sameCode word) earlier then [] else [word])
        ++ keepFirstPerCode (earlier ++ [word]) rest
  end.

(** [phoneticMap] holds exactly the codes of the words already passed. *)
Definition codes_of (phoneticMap : gset string) (earlier : list string) : Prop :=
  forall s, s ∈ phoneticMap <-> exists v, v ∈ earlier /\ soundex v = Ok s.

(** An entry of [soundexArr] is one character. *)
Definition one_char (s : string) : Prop := String.length s = 1%nat.

(** [a] may stand before [b] in an array sorted with [compare]. *)
Definition comes_first (compare : string -> string -> comparison)
    (a b : string) : Prop :=
  compare a b <> Gt.

(** Words that are equal without regard to case are equal. *)
Definition case_distinct (l : list string) : Prop :=
  forall x y, x ∈ l -> y ∈ l -> toLowerCase x = toLowerCase y -> x = y.

(** Two states of the random source: every draw is [0], and every draw is
    the largest one. *)
Definition lowDraws : Rng := fun _ => 0%N.
Definition highDraws : Rng := fun _ => (two53 - 1)%N.

(** A high draw, then low draws. *)
Definition highThenLow : Rng := fun k => match k with O => (two53 - 1)%N | S _ => 0%N end.

(** ** The word source

    The start of [getWords]: [defaultWords] is [customWordsArray] when that
    is an array, else the lines of [words/words.txt] when the file exists,
    else the array [words/words.js] exports. What [console.log] and
    [console.error] print is left out. *)

(** The white space [trim] removes, among the ASCII code units. *)
Definition is_space (c : ascii) : bool :=
  match code c with
  | 9 | 10 | 11 | 12 | 13 | 32 => true
  | _ => false
  end%N.

Fixpoint trimStart (s : string) : string :=
  match s with
  | EmptyString => EmptyString
  | String c s' => if is_space c then trimStart s' else s
  end.

(** [line.trim()] *)
Definition trim (s : string) : string :=
  String.rev (trimStart (String.rev (trimStart s))).

Definition is_quote (c : ascii) : bool :=
  match c with
  | "034" | "'" => true
  | _ => false
  end%char.

(** Without its last character when that is a quote. *)
Fixpoint dropLastQuote (s : string) : string :=
  match s with
  | EmptyString => EmptyString
  | String c EmptyString => if is_quote c then EmptyString else s
  | String c s' => String c (dropLastQuote s')
  end.

(** [line.replace(/^["']|["']$/g, '')]: the first match is a quote at the
    start, the next one a quote at the end of what follows. *)
Definition stripQuotes (s : string) : string :=
  match s with
  | EmptyString => EmptyString
  | String c s' => if is_quote c then dropLastQuote s' else dropLastQuote s
  end.

(** [data.split('\n')] *)
Fixpoint splitLines (data : string) : list string :=
  match data with
  | EmptyString => [EmptyString]
  | String c data' =>
      if Ascii.eqb c "010" then EmptyString :: splitLines data'
      else
        match splitLines data' with
        | line :: lines => String c line :: lines
        | [] => [String c EmptyString]
        end
  end.

(** [data.split('\n').map(...).filter(line => line.length > 0)] *)
Definition parseWordsTxt (data : string) : list string :=
  List.filter (fun line => (0 <? JsString.length line)%nat)
    ((fun line => stripQuotes (trim line)) <$> splitLines data).

(** What [require(wordsJsPath)] gives: an array of words, or a value that
    is not an array; such a value is taken to have no [filter] method. *)
Inductive exports : Type :=
| ExportsArray (words : list string)
| ExportsOther.

(** The [words] directory: the text of [words.txt] and the exports of
    [words.js], for the files that exist; a file that exists can be read,
    and requiring [words.js] does not throw. *)
Record Files : Type := {
  words_txt : option string;
  words_js : option exports
}.

(** The value of [defaultWords]. *)
Inductive wordList : Type :=
| WordsArray (words : list string)
| NotAnArray.

Definition not_an_array_message : string :=
  "words.js must export an array of words.".

Definition no_source_message : string :=
  "No words.txt or words.js found in the /words directory, and no customWordsArray provided.".

Definition not_a_function_message : string :=
  "defaultWords.filter is not a function".

(** The [try] block: [defaultWords] as the block leaves it, and the error
    it threw, if any. [customWordsArray] is [None] when the argument is not
    an array. *)
Definition loadWords (customWordsArray : option (list string)) (files : Files)
  : wordList * option exn :=
  match customWordsArray with
  | Some words => (WordsArray words, None)
  | None =>
      match words_txt files with
      | Some data => (WordsArray (parseWordsTxt data), None)
      | None =>
          match words_js files with
          | Some (ExportsArray words) => (WordsArray words, None)
          | Some ExportsOther =>
              (NotAnArray, Some (Error not_an_array_message))
          | None => (WordsArray [], Some (Error no_source_message))
          end
      end
  end.

(** How a call with a word source ends: [getWords] returns or throws, or
    [process.exit(1)] ends the process. *)
Inductive ending : Type :=
| Finished (out : outcome)
| Exited (status : Z).

(** A call with a word source: the error [customErrorHandler] was called
    with, if it was called, and how the call ended. *)
Record run : Type := {
  handled : option exn;
  ended : ending
}.

(** [getWords(options, amountOfWords, customWordsArray, customErrorHandler)]:
    the guard, the word source, then the pipeline. [customErrorHandler] is
    [true] when the argument is a function. *)
Definition getWordsWithSource (options : Options) (amountOfWords : argument)
    (customWordsArray : option (list string)) (customErrorHandler : bool)
    (files : Files) (history : gset string) (rng : Rng) : run :=
  let rejected :=
    {| handled := None;
       ended := Finished (Throw (Error positive_number_message) history rng) |} in
  let pipeline (caught : option exn) (defaultWords : wordList) :=
    {| handled := caught;
       ended :=
         match defaultWords with
         | WordsArray words =>
             Finished (getWords options amountOfWords words history rng)
         | NotAnArray =>
             Finished (Throw (TypeError not_a_function_message) history rng)
         end |} in
  match amountOfWords with
  | NotANumber => rejected
  | Number n =>
      if n <=? 0 then rejected
      else
        match loadWords customWordsArray files with
        | (defaultWords, None) => pipeline None defaultWords
        | (defaultWords, Some err) =>
            if customErrorHandler then pipeline (Some err) defaultWords
            else {| handled := None; ended := Exited 1 |}
        end
  end.

(** ** The collation of the locale

    [a.localeCompare(b)] compares by the collation of the locale the
    process runs in, which [index.js] does not fix. [getWordsIn collate] is
    [getWords] with [collate a b] for the sign of [a.localeCompare(b)];
    [getWords] itself is the case of a collation that orders by code
    unit. *)

Section Collation.

Variable collate : string -> string -> comparison.

Definition ascendingIn (a b : string) : comparison :=
  collate (toLowerCase a) (toLowerCase b).

Definition descendingIn (a b : string) : comparison :=
  collate (toLowerCase b) (toLowerCase a).

Definition sortStageIn (o : Options) (filteredWords : list string)
  : list string :=
  match sort o with
  | Some s =>
      if String.eqb s "asc" then sortWith ascendingIn filteredWords
      else if String.eqb s "desc" then sortWith descendingIn filteredWords
      else filteredWords
  | None => filteredWords
  end.

Definition selectWordsIn (o : Options) (amountOfWords : Z)
    (defaultWords : list string) (history : gset string) (rng : Rng)
  : attempt (list string * Rng) :=
  let filteredWords := predicateStage o history defaultWords in
  filteredWords ← phoneticStage o filteredWords;
  let filteredWords := weightingStage o filteredWords in
  let '(filteredWords, rng) := shuffle o filteredWords rng in
  let filteredWords := sortStageIn o filteredWords in
  let selectedWords := selectLoop amountOfWords filteredWords [] O in
  let selectedWords := if reverse o then rev selectedWords else selectedWords in
  let selectedWords := caseStage o selectedWords in
  let selectedWords := synonymsStage o selectedWords in
  Ok (selectedWords, rng).

Definition getWordsIn (options : Options) (amountOfWords : argument)
    (customWordsArray : list string) (history : gset string) (rng : Rng)
  : outcome :=
  match amountOfWords with
  | NotANumber => Throw (Error positive_number_message) history rng
  | Number n =>
      if n <=? 0 then Throw (Error positive_number_message) history rng
      else if n =? 0 then
        Return (if asString options then Joined "" else Words []) history rng
      else
        match selectWordsIn options n customWordsArray history rng with
        | Raise e => Throw e history rng
        | Ok (selectedWords, rng') =>
            Return (shape options selectedWords)
                   (updateHistory history selectedWords) rng'
        end
  end.

End Collation.

(** A consistent comparator, which ECMAScript requires [localeCompare] to
    be: exchanging the arguments exchanges the sign, and coming first is
    transitive. *)
Definition consistent (compare : string -> string -> comparison) : Prop :=
  (forall a b, compare b a = CompOpp (compare a b)) /\
  (forall a b c, compare a b <> Gt -> compare b c <> Gt -> compare a c <> Gt).

(** ** More vocabulary of the properties *)

(** How often [copies] repeats a word. *)
Definition times (weight : member) : nat :=
  match weight with
  | NumberValue n => Z.to_nat n
  | ObjectValue | UndefinedValue => O
  end.




(** The [caseOption] transform of one word. *)
Definition caseWord (o : Options) (word : string) : string :=
  match caseOption o with
  | Some c =>
      if String.eqb c "upper" then toUpperCase word
      else if String.eqb c "lower" then toLowerCase word
      else if String.eqb c "capitalize" then capitalize word
      else word
  | None => word
  end.

(** How often a character occurs in a word. *)
Definition occurrences (c : ascii) (word : list ascii) : nat :=
  List.length (List.filter (Ascii.eqb c) word).

(** A word of ASCII letters only. *)
Definition letters_only (word : string) : Prop :=
  forall c, In c (chars word) -> is_letter c = true.

(** A word as a line of [words.txt] that is read back as it is: not empty,
    without a line feed, and with neither white space nor a quote at
    either end. *)
Definition plain_word (w : string) : Prop :=
  w <> EmptyString /\
  ~ In "010"%char (chars w) /\
  (forall c, head (chars w) = Some c -> is_space c = false /\ is_quote c = false) /\
  (forall c, last (chars w) = Some c -> is_space c = false /\ is_quote c = false).

(** A character with a digit in the [codes] table, in either case. *)
Definition coded (c : ascii) : bool :=
  match codes (toLowerCaseChar c) with
  | Some code => truthy_string code
  | None => false
  end.

(** A string without its characters that have no digit in the table. *)
Fixpoint keepCoded (s : string) : string :=
  match s with
  | EmptyString => EmptyString
  | String c s' => if coded c then String c (keepCoded s') else keepCoded s'
  end.

(** One of the digits a phonetic code is made of. *)
Definition code_digit (c : ascii) : bool :=
  match c with
  | "0" | "1" | "2" | "3" | "4" | "5" | "6" => true
  | _ => false
  end%char.

(** An entry of [soundexArr] after the first: one digit. *)
Definition digit_string (s : string) : Prop :=
  exists d, s = String d EmptyString /\ code_digit d = true.

(** * Properties *)

Example soundex_apple : soundex "apple" = Ok "A140"%string.
Proof. reflexivity. Qed.

Example soundex_banana : soundex "banana" = Ok "B500"%string.
Proof. reflexivity. Qed.

Example soundex_crab : soundex "crab" = Ok "C610"%string.
Proof. reflexivity. Qed.

Example phoneticFilter_ex :
  phoneticFilter ∅ ["robert"; "rupert"; "apple"]%string = Ok ["robert"; "apple"]%string.
Proof. vm_compute. reflexivity. Qed.

(** ** The guard on [amountOfWords] *)

(** The guard rejects every argument that is not a positive number, zero
    among them, with the same error; the pipeline does not run and History
    is left as it was. *)
Lemma getWords_rejects_not_positive (o : Options) (a : argument)
    (ws : list string) (h : gset string) (r : Rng) :
  ~ is_positive a ->
  getWords o a ws h r = Throw (Error positive_number_message) h r.
Proof.
  destruct a as [n|]; simpl; intros Hn; [|reflexivity].
  destruct (Z.leb_spec n 0) as [_|Hpos]; [reflexivity|].
  exfalso. apply Hn. exact Hpos.
Qed.

(** C1 at the failing input: with [amountOfWords = 0] the guard throws, for
    all options, words, History and random source, so the call does not
    return the empty array or the empty string: the early return for zero
    that follows the guard in the source (line 119) is never reached. *)
Theorem getWords_zero_throws (o : Options) (ws : list string)
    (h : gset string) (r : Rng) :
  getWords o (Number 0) ws h r = Throw (Error positive_number_message) h r /\
  returned (getWords o (Number 0) ws h r)
  <> Some (if asString o then Joined "" else Words []).
Proof. split; [reflexivity|]. destruct (asString o); discriminate. Qed.

(** The early return for zero is unreachable: whenever [getWords] returns,
    the selection ran. *)
Lemma getWords_return_inv (o : Options) (a : argument) (ws : list string)
    (h : gset string) (r : Rng) (v : result) (h' : gset string) (r' : Rng) :
  getWords o a ws h r = Return v h' r' ->
  exists n sel,
    a = Number n /\ 0 < n /\
    selectWords o n ws h r = Ok (sel, r') /\
    v = shape o sel /\ h' = updateHistory h sel.
Proof.
  destruct a as [n|]; simpl; [|discriminate].
  destruct (Z.leb_spec n 0) as [|Hpos]; [discriminate|].
  destruct (Z.eqb_spec n 0) as [|_]; [lia|].
  destruct (selectWords o n ws h r) as [[sel r1]|e] eqn:Hsel; [|discriminate].
  intros [= <- <- <-]. exists n, sel. auto.
Qed.

Lemma getWords_positive (o : Options) (n : Z) (ws : list string)
    (h : gset string) (r : Rng) :
  0 < n ->
  getWords o (Number n) ws h r
  = match selectWords o n ws h r with
    | Raise e => Throw e h r
    | Ok (selectedWords, r') =>
        Return (shape o selectedWords) (updateHistory h selectedWords) r'
    end.
Proof.
  intros Hn. unfold getWords.
  destruct (Z.leb_spec n 0); [lia|]. destruct (Z.eqb_spec n 0); [lia|].
  reflexivity.
Qed.

Lemma selectWords_from_pool (o : Options) (n : Z) (ws pool : list string)
    (h : gset string) (r : Rng) :
  phoneticStage o (predicateStage o h ws) = Ok pool ->
  selectWords o n ws h r
  = let shuffled := shuffle o (weightingStage o pool) r in
    let taken := selectLoop n (sortStage o shuffled.1) [] O in
    Ok (synonymsStage o (caseStage o (if reverse o then rev taken else taken)),
        shuffled.2).
Proof.
  intros Hpool. unfold selectWords. rewrite Hpool. cbn [mbind attempt_bind].
  destruct (shuffle o (weightingStage o pool) r) as [shuffled r1]. reflexivity.
Qed.

(** ** The seed *)

(** [getWords] never reads [seed]. *)
Lemma getWords_ignores_seed (s1 s2 : option Z) (o : Options) (a : argument)
    (ws : list string) (h : gset string) (r : Rng) :
  getWords (with_seed s1 o) a ws h r = getWords (with_seed s2 o) a ws h r.
Proof. reflexivity. Qed.

(** C3 at a failing input: two consecutive calls with the same seed, the
    same words and the same options, the second on the random source as the
    first call left it, return the two words in different orders. *)
Theorem same_seed_different_orders :
  let o := with_seed (Some 42) defaults in
  let ws := ["apple"; "banana"]%string in
  exists r1 h1,
    getWords o (Number 2) ws ∅ highThenLow
    = Return (Words ["apple"; "banana"]%string) h1 r1 /\
    returned (getWords o (Number 2) ws ∅ r1)
    = Some (Words ["banana"; "apple"]%string).
Proof.
  eexists _, _. split.
  - vm_compute. reflexivity.
  - vm_compute. reflexivity.
Qed.

(** ** The phonetic code is partial *)


Lemma soundex_nonempty (c : ascii) (s : string) :
  exists code, soundex (String c s) = Ok code.
Proof.
  unfold soundex. cbn [toLowerCase map_string chars String.list_ascii_of_string].
  destruct (fold_left _ _ _) as [arr prev]. eexists. reflexivity.
Qed.


Lemma phoneticFilter_empty_word (m : gset string) (ws : list string) :
  ""%string ∈ ws ->
  phoneticFilter m ws = Raise (TypeError undefined_message).
Proof.
  revert m. induction ws as [|w ws IH]; intros m Hin.
  - inversion Hin.
  - destruct w as [|c s]; [reflexivity|].
    apply elem_of_cons in Hin as [Heq|Hrest]; [discriminate|].
    destruct (soundex_nonempty c s) as [code Hcode].
    cbn [phoneticFilter]. rewrite Hcode. cbn [mbind attempt_bind].
    destruct (bool_decide (code ∈ m)).
    + apply IH, Hrest.
    + rewrite (IH _ Hrest). reflexivity.
Qed.

(** The empty word passes every filter of the default options, unless
    History has it. *)
Lemma keepWord_defaults_empty (h : gset string) :
  ""%string ∉ h -> keepWord defaults h None None "" = true.
Proof.
  intros Hh. unfold keepWord. cbn.
  rewrite bool_decide_eq_false_2 by exact Hh. reflexivity.
Qed.

Lemma getWords_phonetic_throw (o : Options) (n : Z) (ws : list string)
    (h : gset string) (r : Rng) :
  0 < n ->
  phoneticDistinct o = true ->
  ""%string ∈ predicateStage o h ws ->
  getWords o (Number n) ws h r = Throw (TypeError undefined_message) h r.
Proof.
  intros Hn Hpd Hin. unfold getWords.
  destruct (Z.leb_spec n 0); [lia|]. destruct (Z.eqb_spec n 0); [lia|].
  unfold selectWords, phoneticStage. rewrite Hpd.
  rewrite (phoneticFilter_empty_word _ _ Hin). reflexivity.
Qed.

Lemma predicateStage_defaults_empty (ws : list string) (h : gset string) :
  ""%string ∈ ws -> ""%string ∉ h -> ""%string ∈ predicateStage defaults h ws.
Proof.
  intros Hin Hh. unfold predicateStage. apply list_elem_of_In, filter_In.
  split; [apply list_elem_of_In, Hin|].
  apply keepWord_defaults_empty, Hh.
Qed.

(** C10: for an input that contains the empty word and a positive amount,
    [getWords] throws the [TypeError] of the phonetic code instead of
    returning whenever [phoneticDistinct] is on and the empty word passes
    the filter; under the default options, where [phoneticDistinct] is on,
    the empty word passes the filter and the call throws. *)
Theorem getWords_empty_word_throws (o : Options) (n : Z) (ws : list string)
    (h : gset string) (r : Rng) :
  0 < n ->
  ""%string ∈ ws ->
  (phoneticDistinct o = true ->
   ""%string ∈ predicateStage o h ws ->
   getWords o (Number n) ws h r = Throw (TypeError undefined_message) h r) /\
  (""%string ∉ h ->
   ""%string ∈ predicateStage defaults h ws /\
   getWords defaults (Number n) ws h r = Throw (TypeError undefined_message) h r).
Proof.
  intros Hn Hin. split.
  - intros Hpd Hsurv. apply getWords_phonetic_throw; assumption.
  - intros Hh.
    assert (Hsurv := predicateStage_defaults_empty ws h Hin Hh).
    split; [exact Hsurv|].
    apply getWords_phonetic_throw; [assumption|reflexivity|exact Hsurv].
Qed.

Lemma getWords_empty_word_throws_witness :
  getWords defaults (Number 2) ["apple"; ""; "pear"]%string ∅ lowDraws
  = Throw (TypeError undefined_message) ∅ lowDraws.
Proof.
  assert (Hn : 0 < 2) by lia.
  assert (Hin : ""%string ∈ ["apple"; ""; "pear"]%string)
    by (apply list_elem_of_In; simpl; tauto).
  assert (Hh : ""%string ∉ (∅ : gset string)) by apply not_elem_of_empty.
  exact (proj2 (proj2 (getWords_empty_word_throws defaults 2 _ ∅ lowDraws Hn Hin) Hh)).
Defined.

(** ** The Weighting Stage *)

Lemma weighting_fold (ws : gmap string Z) (pool acc : list string) :
  fold_left (fun weightedWords word =>
               weightedWords ++ copies (weightOf ws word) word) pool acc
  = acc ++ flat_map (fun word => copies (weightOf ws word) word) pool.
Proof.
  revert acc. induction pool as [|v pool IH]; intros acc; simpl.
  - symmetry. apply app_nil_r.
  - rewrite IH, <- app_assoc. reflexivity.
Qed.

Lemma weightingStage_flat_map (o : Options) (ws : gmap string Z)
    (pool : list string) :
  weightedSelection o = Some ws ->
  weightingStage o pool
  = flat_map (fun word => copies (weightOf ws word) word) pool.
Proof. intros H. unfold weightingStage. rewrite H. apply weighting_fold. Qed.

Lemma count_occ_copies (weight : member) (v w : string) :
  count_occ string_dec (copies weight v) w
  = if string_dec v w then times weight else O.
Proof.
  destruct weight as [n| |]; cbn [copies times];
    [|destruct (string_dec v w); reflexivity..].
  induction (Z.to_nat n) as [|k IH]; simpl.
  - destruct (string_dec v w); reflexivity.
  - rewrite IH. destruct (string_dec v w); reflexivity.
Qed.

(** Every occurrence of a word in the pool becomes as many occurrences as
    its weight. *)
Lemma count_occ_weighting (ws : gmap string Z) (pool : list string) (w : string) :
  count_occ string_dec
    (flat_map (fun word => copies (weightOf ws word) word) pool) w
  = (times (weightOf ws w) * count_occ string_dec pool w)%nat.
Proof.
  induction pool as [|v pool IH]; simpl.
  - lia.
  - rewrite count_occ_app, IH, count_occ_copies.
    destruct (string_dec v w) as [->|Hne]; lia.
Qed.

Lemma elem_of_copies (weight : member) (v w : string) :
  w ∈ copies weight v -> w = v /\ exists n, weight = NumberValue n /\ 0 < n.
Proof.
  destruct weight as [n| |]; cbn [copies]; intros Hin;
    [|inversion Hin..].
  apply elem_of_replicate in Hin as [-> Hn].
  split; [reflexivity|]. exists n. split; [reflexivity|lia].
Qed.

(** A weight of 0 is replaced by 1, the weight of a word that the mapping
    does not have and [Object.prototype] does not name: in both cases the
    word occurs in the expanded pool as often as in the pool the stage was
    given. *)
Lemma weight_zero_or_absent (o : Options) (ws : gmap string Z)
    (pool : list string) (w : string) :
  weightedSelection o = Some ws ->
  ws !! toLowerCase w = Some 0 \/
  (ws !! toLowerCase w = None /\ toLowerCase w ∉ objectPrototype) ->
  weightOf ws w = NumberValue 1 /\
  count_occ string_dec (weightingStage o pool) w = count_occ string_dec pool w.
Proof.
  intros Ho Hw.
  assert (H1 : weightOf ws w = NumberValue 1).
  { unfold weightOf, readMember. destruct Hw as [-> | [-> Hnot]]; [reflexivity|].
    rewrite bool_decide_eq_false_2 by exact Hnot. reflexivity. }
  split; [exact H1|].
  rewrite (weightingStage_flat_map o ws pool Ho), count_occ_weighting, H1.
  simpl. lia.
Qed.

(** A word that the mapping does not have but [Object.prototype] names has
    the inherited member for its weight, and is not in the expanded pool. *)
Lemma inherited_weight_removes (o : Options) (ws : gmap string Z)
    (pool : list string) (w : string) :
  weightedSelection o = Some ws ->
  ws !! toLowerCase w = None ->
  toLowerCase w ∈ objectPrototype ->
  weightOf ws w = ObjectValue /\ w ∉ weightingStage o pool.
Proof.
  intros Ho Hnone Hin.
  assert (H1 : weightOf ws w = ObjectValue).
  { unfold weightOf, readMember. rewrite Hnone.
    rewrite bool_decide_eq_true_2 by exact Hin. reflexivity. }
  split; [exact H1|].
  rewrite (weightingStage_flat_map o ws pool Ho). intros Hw.
  apply list_elem_of_In, in_flat_map in Hw as (v & _ & Hw).
  apply list_elem_of_In, elem_of_copies in Hw as [-> (n & Hn & _)].
  congruence.
Qed.

(** C4 at the failing inputs. With [{ apple: 0 }] the word "apple" is not
    removed from the expanded pool: the weight 0 is read as 1, the pool
    stays as it was and [getWords] returns the word. With [{ pear: 2 }] the
    word "constructor", which the mapping does not have, does not appear
    once: the name is read from [Object.prototype], the word gets no copy
    and [getWords] does not return it. *)
Theorem weight_zero_does_not_remove :
  let zero := with_weightedSelection (Some {[ "apple"%string := 0 ]}) defaults in
  let absent := with_weightedSelection (Some {[ "pear"%string := 2 ]}) defaults in
  (weightingStage zero ["apple"; "banana"]%string = ["apple"; "banana"]%string /\
   count_occ string_dec (weightingStage zero ["apple"; "banana"]%string)
     "apple"%string <> O /\
   returned (getWords zero (Number 5) ["apple"]%string ∅ lowDraws)
   = Some (Words ["apple"%string])) /\
  (weightingStage absent ["constructor"; "pear"]%string = ["pear"; "pear"]%string /\
   count_occ string_dec (weightingStage absent ["constructor"; "pear"]%string)
     "constructor"%string <> 1%nat /\
   returned (getWords absent (Number 5) ["constructor"; "pear"]%string ∅ lowDraws)
   = Some (Words ["pear"; "pear"]%string)).
Proof. vm_compute. repeat split; discriminate. Qed.

(** ** History *)

Lemma updateHistory_union (h : gset string) (sel : list string) :
  updateHistory h sel = h ∪ list_to_set (toLowerCase <$> sel).
Proof.
  unfold updateHistory. revert h.
  induction sel as [|w sel IH]; intros h; simpl.
  - symmetry. apply (right_id_L ∅ (∪)).
  - rewrite IH, (comm_L (∪) {[ toLowerCase w ]} h), <- (assoc_L (∪)).
    reflexivity.
Qed.

Lemma shape_Words_inv (o : Options) (sel out : list string) :
  shape o sel = Words out -> out = sel.
Proof.
  unfold shape. destruct (asString o); [discriminate|].
  destruct (includeMetadata o); [discriminate|]. intros [= <-]. reflexivity.
Qed.

Lemma shape_WithMetadata_inv (o : Options) (sel : list string)
    (records : list metadata) :
  shape o sel = WithMetadata records -> meta_word <$> records = sel.
Proof.
  unfold shape. destruct (asString o); [discriminate|].
  destruct (includeMetadata o); [|discriminate]. intros [= <-].
  induction sel as [|w sel IH]; simpl; [reflexivity|]. f_equal. exact IH.
Qed.

Lemma shape_Joined_inv (o : Options) (sel : list string) (s : string) :
  shape o sel = Joined s -> s = join ", " sel.
Proof.
  unfold shape. destruct (asString o); [intros [= <-]; reflexivity|].
  destruct (includeMetadata o); discriminate.
Qed.

Lemma shape_carries (o : Options) (sel : list string) :
  carries (shape o sel) sel.
Proof.
  destruct (shape o sel) as [s|records|out] eqn:Hv; simpl.
  - apply (shape_Joined_inv o), Hv.
  - apply (shape_WithMetadata_inv o), Hv.
  - apply (shape_Words_inv o), Hv.
Qed.



(** ** The options that need linguistic data *)

(** One [if (...) return false] of the filter: either its condition is the
    one known to hold, or the condition is decided and the next [if] is
    looked at. *)
Ltac filter_step H :=
  match goal with
  | |- (if ?c then false else _) = false =>
      first [ rewrite H; reflexivity | destruct c; [reflexivity|] ]
  end.

Ltac filter_rejects H := unfold keepWord; cbv zeta; repeat filter_step H.

Lemma keepWord_unsupported (o : Options) (h : gset string)
    (wl bl : option (gset string)) (w : string) :
  unsupportedOption o = true -> keepWord o h wl bl w = false.
Proof.
  unfold unsupportedOption. rewrite !orb_true_iff.
  intros H. decompose [or] H; clear H;
    match goal with Hc : _ = true |- _ => filter_rejects Hc end.
Qed.

Lemma filter_all_false {A} (f : A -> bool) (l : list A) :
  (forall x, f x = false) -> List.filter f l = [].
Proof.
  intros Hf. induction l as [|x l IH]; simpl; [reflexivity|].
  rewrite Hf. exact IH.
Qed.

Lemma predicateStage_unsupported (o : Options) (h : gset string)
    (ws : list string) :
  unsupportedOption o = true -> predicateStage o h ws = [].
Proof.
  intros H. unfold predicateStage. apply filter_all_false.
  intros w. apply keepWord_unsupported, H.
Qed.

Lemma phoneticStage_nil (o : Options) : phoneticStage o [] = Ok [].
Proof. unfold phoneticStage. destruct (phoneticDistinct o); reflexivity. Qed.

Lemma weightingStage_nil (o : Options) : weightingStage o [] = [].
Proof. unfold weightingStage. destruct (weightedSelection o); reflexivity. Qed.

Lemma shuffle_nil (o : Options) (r : Rng) :
  shuffle_in_place o -> shuffle o [] r = ([], r).
Proof.
  intros Hs. unfold shuffle. destruct (customShuffle o) as [f|] eqn:Hf.
  - rewrite (Permutation_nil (Hs f Hf [])). reflexivity.
  - reflexivity.
Qed.

Lemma sortStage_nil (o : Options) : sortStage o [] = [].
Proof.
  unfold sortStage. destruct (sort o) as [s|]; [|reflexivity].
  destruct (String.eqb s "asc"); [reflexivity|].
  destruct (String.eqb s "desc"); reflexivity.
Qed.

Lemma caseStage_nil (o : Options) : caseStage o [] = [].
Proof.
  unfold caseStage. destruct (caseOption o) as [c|]; [|reflexivity].
  destruct (String.eqb c "upper"); [reflexivity|].
  destruct (String.eqb c "lower"); [reflexivity|].
  destruct (String.eqb c "capitalize"); reflexivity.
Qed.

Lemma synonymsStage_nil (o : Options) : synonymsStage o [] = [].
Proof. unfold synonymsStage. destruct (nonempty (synonyms o)); reflexivity. Qed.

Lemma shape_nil (o : Options) : shape o [] = emptyResult o.
Proof. reflexivity. Qed.

(** When no word passes the filter, the selection is empty. *)
Lemma selectWords_no_survivor (o : Options) (n : Z) (ws : list string)
    (h : gset string) (r : Rng) :
  shuffle_in_place o ->
  predicateStage o h ws = [] ->
  selectWords o n ws h r = Ok ([], r).
Proof.
  intros Hs Hnil. unfold selectWords.
  rewrite Hnil, phoneticStage_nil. cbn [mbind attempt_bind].
  rewrite weightingStage_nil, (shuffle_nil o r Hs), sortStage_nil.
  cbn [selectLoop rev]. replace (if reverse o then [] else []) with (@nil string)
    by (destruct (reverse o); reflexivity).
  rewrite caseStage_nil, synonymsStage_nil. reflexivity.
Qed.

(** C6: for a positive amount and any input, when one of the options that
    need linguistic data is set, [getWords] does not throw: it returns the
    empty result (the empty array, or the empty string under [asString])
    and leaves History and the random source as they were. A custom
    shuffle, if there is one, is taken to permute its array in place. *)
Theorem unsupported_option_empty_result (o : Options) (n : Z)
    (ws : list string) (h : gset string) (r : Rng) :
  0 < n ->
  unsupportedOption o = true ->
  shuffle_in_place o ->
  getWords o (Number n) ws h r = Return (emptyResult o) h r.
Proof.
  intros Hn Hu Hs. unfold getWords.
  destruct (Z.leb_spec n 0); [lia|]. destruct (Z.eqb_spec n 0); [lia|].
  rewrite (selectWords_no_survivor o n ws h r Hs (predicateStage_unsupported o h ws Hu)).
  reflexivity.
Qed.

Lemma unsupported_option_empty_result_witness :
  getWords (with_languages (Some ["en"%string]) defaults) (Number 3)
    ["apple"; "banana"]%string ∅ lowDraws
  = Return (Words []) ∅ lowDraws.
Proof.
  apply (unsupported_option_empty_result
           (with_languages (Some ["en"%string]) defaults) 3).
  - lia.
  - reflexivity.
  - intros f Hf. discriminate Hf.
Defined.

(** ** The ambiguous glyphs *)

(** The class matches without regard to case: [i], [o] and [L] are in it
    as much as [I], [O] and [l]. *)
Lemma ambiguousChars_any_case (c : ascii) :
  ambiguousChars c = true <->
  In c ["l"; "L"; "1"; "i"; "I"; "0"; "o"; "O"]%char.
Proof.
  destruct c as [[] [] [] [] [] [] [] []]; vm_compute; intuition congruence.
Qed.

(** With [excludeAmbiguous], a word with one of these characters does not
    pass the filter. *)
Lemma keepWord_excludeAmbiguous (o : Options) (h : gset string)
    (wl bl : option (gset string)) (w : string) (c : ascii) :
  excludeAmbiguous o = true ->
  In c (chars w) ->
  In c ["l"; "L"; "1"; "i"; "I"; "0"; "o"; "O"]%char ->
  keepWord o h wl bl w = false.
Proof.
  intros Ho Hc Hamb.
  assert (H : excludeAmbiguous o && test_class ambiguousChars w = true).
  { rewrite Ho. cbn [andb]. unfold test_class. apply existsb_exists.
    exists c. split; [exact Hc|]. apply ambiguousChars_any_case, Hamb. }
  filter_rejects H.
Qed.

(** C2, as the code has it: with [["Lion","Owl","fish"]],
    [{ excludeAmbiguous: true }] and amount 5 the result is the empty
    array, whatever the random source: "fish" has an [i], which the
    case-insensitive class matches, so all three words are excluded. *)
Theorem excludeAmbiguous_scenario (r : Rng) :
  getWords (with_excludeAmbiguous true defaults) (Number 5)
    ["Lion"; "Owl"; "fish"]%string ∅ r
  = Return (Words []) ∅ r.
Proof.
  set (o := with_excludeAmbiguous true defaults).
  assert (Hi : forall w, In "i"%char (chars w) \/ In "l"%char (chars w) ->
                 keepWord o ∅ (lowerSet (whitelist o)) (lowerSet (blacklist o)) w
                 = false).
  { intros w [Hin|Hin];
      [apply (keepWord_excludeAmbiguous o _ _ _ w "i"%char)
      |apply (keepWord_excludeAmbiguous o _ _ _ w "l"%char)];
      try reflexivity; try exact Hin; simpl; tauto. }
  assert (Hnone : predicateStage o ∅ ["Lion"; "Owl"; "fish"]%string = []).
  { unfold predicateStage. cbn [List.filter].
    rewrite !Hi by (simpl; tauto). reflexivity. }
  rewrite getWords_positive by lia.
  rewrite (selectWords_no_survivor o 5 _ ∅ r); [reflexivity| |exact Hnone].
  intros f Hf. discriminate Hf.
Qed.

(** C2, as the specification has it, fails: the scenario does not return
    [["fish"]], because "fish" does not pass the filter. *)
Lemma fish_is_ambiguous_too :
  returned (getWords (with_excludeAmbiguous true defaults) (Number 5)
              ["Lion"; "Owl"; "fish"]%string ∅ lowDraws)
  <> Some (Words ["fish"%string]) /\
  test_class ambiguousChars "fish" = true /\
  keepWord (with_excludeAmbiguous true defaults) ∅ None None "fish" = false.
Proof. repeat split. vm_compute. discriminate. Qed.

(** ** Lengths through the Ordering and Selection Stages *)

Lemma swap_length (array : list string) (i j : nat) :
  List.length (swap array i j) = List.length array.
Proof.
  unfold swap. destruct (array !! i); [|reflexivity].
  destruct (array !! j); [|reflexivity].
  rewrite !length_insert. reflexivity.
Qed.

Lemma fisherYates_length (i : nat) (array : list string) (r : Rng) :
  List.length (fisherYates i array r).1 = List.length array.
Proof.
  revert array r. induction i as [|i IH]; intros array r; [reflexivity|].
  cbn [fisherYates Math_random]. rewrite IH. apply swap_length.
Qed.

Lemma shuffle_length (o : Options) (array : list string) (r : Rng) :
  shuffle_in_place o ->
  List.length (shuffle o array r).1 = List.length array.
Proof.
  intros Hs. unfold shuffle. destruct (customShuffle o) as [f|] eqn:Hf.
  - symmetry. apply Permutation_length, (Hs f Hf).
  - apply fisherYates_length.
Qed.

Lemma insertSorted_perm (compare : string -> string -> comparison)
    (x : string) (l : list string) :
  Permutation (x :: l) (insertSorted compare x l).
Proof.
  induction l as [|y l IH]; simpl; [reflexivity|].
  destruct (compare x y); try reflexivity.
  rewrite perm_swap. apply perm_skip, IH.
Qed.

Lemma sortWith_perm (compare : string -> string -> comparison)
    (l : list string) :
  Permutation l (sortWith compare l).
Proof.
  unfold sortWith. induction l as [|x l IH]; simpl; [reflexivity|].
  rewrite <- insertSorted_perm. apply perm_skip, IH.
Qed.

Lemma sortStage_perm (o : Options) (l : list string) :
  Permutation l (sortStage o l).
Proof.
  unfold sortStage. destruct (sort o) as [s|]; [|reflexivity].
  destruct (String.eqb s "asc"); [apply sortWith_perm|].
  destruct (String.eqb s "desc"); [apply sortWith_perm|reflexivity].
Qed.

(** The loop takes words from the front until it has the amount, or until
    it has made [maxAttempts] attempts. *)
Lemma selectLoop_take (n : Z) (l sel : list string) :
  (List.length sel < maxAttempts)%nat ->
  selectLoop n l sel (List.length sel)
  = sel ++ take (Nat.min (Z.to_nat n) maxAttempts - List.length sel) l.
Proof.
  revert sel. induction l as [|w l IH]; intros sel Hlt.
  - cbn [selectLoop]. rewrite take_nil, app_nil_r. reflexivity.
  - cbn [selectLoop].
    destruct (Z.geb_spec (Z.of_nat (List.length sel)) n) as [Hge|Hlt'].
    + replace (Nat.min (Z.to_nat n) maxAttempts - List.length sel)%nat with O by lia.
      rewrite take_0, app_nil_r. reflexivity.
    + assert (Hlen : List.length (sel ++ [w]) = S (List.length sel))
        by (rewrite length_app; simpl; lia).
      destruct (Nat.leb_spec maxAttempts (S (List.length sel))) as [Hmax|Hmore].
      * replace (Nat.min (Z.to_nat n) maxAttempts - List.length sel)%nat with 1%nat by lia.
        reflexivity.
      * rewrite <- Hlen, IH by lia. rewrite Hlen, <- app_assoc. simpl.
        replace (Nat.min (Z.to_nat n) maxAttempts - List.length sel)%nat
          with (S (Nat.min (Z.to_nat n) maxAttempts - S (List.length sel))) by lia.
        reflexivity.
Qed.

Lemma selectLoop_length (n : Z) (l : list string) :
  0 < n ->
  Z.of_nat (List.length (selectLoop n l [] O)) <= Z.min n (Z.of_nat (List.length l)).
Proof.
  intros Hn. change O with (List.length (@nil string)) at 1.
  rewrite selectLoop_take by (unfold maxAttempts; simpl; lia).
  simpl. rewrite length_take. lia.
Qed.

Lemma caseStage_length (o : Options) (l : list string) :
  List.length (caseStage o l) = List.length l.
Proof.
  unfold caseStage. destruct (caseOption o) as [c|]; [|reflexivity].
  destruct (String.eqb c "upper"); [apply length_fmap|].
  destruct (String.eqb c "lower"); [apply length_fmap|].
  destruct (String.eqb c "capitalize"); [apply length_fmap|reflexivity].
Qed.

Lemma flatMap_to_nil (l : list string) :
  mbind (M := list) (fun _ : string => @nil string) l = [].
Proof.
  induction l as [|x l IH]; [reflexivity|].
  rewrite bind_cons, IH. reflexivity.
Qed.

Lemma synonymsStage_length (o : Options) (l : list string) :
  (List.length (synonymsStage o l) <= List.length l)%nat.
Proof.
  unfold synonymsStage. destruct (nonempty (synonyms o)); [|lia].
  rewrite flatMap_to_nil. simpl. lia.
Qed.

Lemma selectWords_inv (o : Options) (n : Z) (ws : list string)
    (h : gset string) (r : Rng) (sel : list string) (r' : Rng) :
  selectWords o n ws h r = Ok (sel, r') ->
  exists pool,
    phoneticStage o (predicateStage o h ws) = Ok pool /\
    let ordered := sortStage o (shuffle o (weightingStage o pool) r).1 in
    let taken := selectLoop n ordered [] O in
    sel = synonymsStage o
            (caseStage o (if reverse o then rev taken else taken)).
Proof.
  unfold selectWords.
  destruct (phoneticStage o (predicateStage o h ws)) as [pool|e]; [|discriminate].
  cbn [mbind attempt_bind].
  destruct (shuffle o (weightingStage o pool) r) as [shuffled r1] eqn:Hsh.
  intros [= <- <-]. exists pool. split; [reflexivity|].
  cbv zeta. rewrite Hsh. reflexivity.
Qed.

(** For a positive integer amount, the number of selected words is at most
    the amount and at most the size of the pool the Weighting Stage hands
    on, in which a word that passed the filters and the phonetic dedup
    stands as often as its weight; without [weightedSelection] that is the
    number of words that passed. A custom shuffle, if there is one, is taken
    to permute its array in place. *)
Lemma getWords_length_bound (o : Options) (n : Z) (ws : list string)
    (h : gset string) (r : Rng) (v : result) (h' : gset string) (r' : Rng) :
  shuffle_in_place o ->
  getWords o (Number n) ws h r = Return v h' r' ->
  exists pool sel : list string,
    phoneticStage o (predicateStage o h ws) = Ok pool /\
    selectWords o n ws h r = Ok (sel, r') /\ v = shape o sel /\
    Z.of_nat (List.length sel)
    <= Z.min n (Z.of_nat (List.length (weightingStage o pool))) /\
    (weightedSelection o = None ->
     Z.of_nat (List.length sel) <= Z.min n (Z.of_nat (List.length pool))).
Proof.
  intros Hs Hret.
  destruct (getWords_return_inv _ _ _ _ _ _ _ _ Hret)
    as (n' & sel & [= <-] & Hn & Hsel & Hv & _).
  destruct (selectWords_inv _ _ _ _ _ _ _ Hsel) as (pool & Hpool & Hdef).
  cbv zeta in Hdef.
  exists pool, sel. split; [exact Hpool|]. split; [exact Hsel|].
  split; [exact Hv|].
  assert (Hbound : Z.of_nat (List.length sel)
                   <= Z.min n (Z.of_nat (List.length (weightingStage o pool)))).
  { pose proof (synonymsStage_length o
      (caseStage o
         (if reverse o
          then rev (selectLoop n (sortStage o (shuffle o (weightingStage o pool) r).1) [] O)
          else selectLoop n (sortStage o (shuffle o (weightingStage o pool) r).1) [] O)))
      as Hsyn.
    rewrite <- Hdef, caseStage_length in Hsyn.
    pose proof (selectLoop_length n
      (sortStage o (shuffle o (weightingStage o pool) r).1) Hn) as Htake.
    rewrite <- (Permutation_length (sortStage_perm o _)) in Htake.
    rewrite (shuffle_length o _ r Hs) in Htake.
    destruct (reverse o); [rewrite length_rev in Hsyn|]; lia. }
  split; [exact Hbound|].
  intros Hnone. unfold weightingStage in Hbound. rewrite Hnone in Hbound.
  exact Hbound.
Qed.

(** C5 at the failing input: with [{ apple: 3 }], the input [["apple"]] and
    an amount of three, one word passes the filters and the phonetic dedup,
    and [getWords] returns three words, the same word three times, although
    [phoneticDistinct] is on: the Weighting Stage repeats the word after
    the dedup and the selection loop takes every copy. *)
Theorem length_bound_by_survivors_fails :
  let o := with_weightedSelection (Some {[ "apple"%string := 3 ]}) defaults in
  let out := ["apple"; "apple"; "apple"]%string in
  returned (getWords o (Number 3) ["apple"]%string ∅ lowDraws) = Some (Words out) /\
  phoneticDistinct o = true /\
  phoneticStage o (predicateStage o ∅ ["apple"]%string) = Ok ["apple"]%string /\
  ~ (Z.of_nat (List.length out)
     <= Z.min 3 (Z.of_nat (List.length (remove_dups ["apple"%string])))) /\
  ~ NoDup out /\ ~ NoDup (soundex <$> out).
Proof.
  intros o out. split; [vm_compute; reflexivity|].
  split; [reflexivity|].
  split; [vm_compute; reflexivity|].
  split; [vm_compute; intros H; apply H; reflexivity|].
  split; intros Hnd; apply NoDup_cons in Hnd as [Hnot _]; apply Hnot; left.
Qed.

(** ** The Phonetic Dedup Stage *)

Lemma codes_of_empty : codes_of ∅ [].
Proof.
  intros s. split.
  - intros Hin. exfalso. exact (not_elem_of_empty s Hin).
  - intros (v & Hv & _). inversion Hv.
Qed.

Lemma codes_of_snoc (m : gset string) (earlier : list string)
    (w s : string) :
  codes_of m earlier -> soundex w = Ok s ->
  codes_of ({[ s ]} ∪ m) (earlier ++ [w]).
Proof.
  intros Hinv Hw t. rewrite elem_of_union, elem_of_singleton, (Hinv t). split.
  - intros [-> | (v & Hv & Hcode)].
    + exists w. split; [apply elem_of_app; right; apply list_elem_of_singleton; reflexivity|exact Hw].
    + exists v. split; [apply elem_of_app; left; exact Hv|exact Hcode].
  - intros (v & Hv & Hcode). apply elem_of_app in Hv as [Hv|Hv].
    + right. exists v. auto.
    + apply list_elem_of_singleton in Hv. subst v. left. congruence.
Qed.

Lemma codes_of_seen (m : gset string) (earlier : list string) (w s : string) :
  codes_of m earlier -> soundex w = Ok s -> s ∈ m ->
  codes_of m (earlier ++ [w]).
Proof.
  intros Hinv Hw Hs t. rewrite (Hinv t). split.
  - intros (v & Hv & Hcode). exists v. split; [apply elem_of_app; left; exact Hv|exact Hcode].
  - intros (v & Hv & Hcode). apply elem_of_app in Hv as [Hv|Hv].
    + exists v. auto.
    + apply list_elem_of_singleton in Hv. subst v.
      assert (t = s) by congruence. subst t. apply (Hinv s), Hs.
Qed.

Lemma existsb_sameCode (m : gset string) (earlier : list string) (w s : string) :
  codes_of m earlier -> soundex w = Ok s ->
  existsb (sameCode w) earlier = bool_decide (s ∈ m).
Proof.
  intros Hinv Hw. destruct (bool_decide (s ∈ m)) eqn:Hdec.
  - apply bool_decide_eq_true in Hdec. apply (Hinv s) in Hdec as (v & Hv & Hcode).
    apply existsb_exists. exists v. split; [apply list_elem_of_In, Hv|].
    unfold sameCode. apply bool_decide_eq_true. congruence.
  - apply bool_decide_eq_false in Hdec.
    destruct (existsb (sameCode w) earlier) eqn:Hex; [|reflexivity].
    exfalso. apply Hdec. apply existsb_exists in Hex as (v & Hv & Hsame).
    unfold sameCode in Hsame. apply bool_decide_eq_true in Hsame.
    apply (Hinv s). exists v. split; [apply list_elem_of_In, Hv|congruence].
Qed.

(** The filter of the source keeps what the specification's wording keeps. *)
Lemma phoneticFilter_keepFirstPerCode (ws : list string) :
  forall (m : gset string) (earlier out : list string),
    codes_of m earlier ->
    phoneticFilter m ws = Ok out ->
    out = keepFirstPerCode earlier ws.
Proof.
  induction ws as [|w ws IH]; intros m earlier out Hinv Hout.
  - cbn in Hout. injection Hout as <-. reflexivity.
  - cbn [phoneticFilter] in Hout. cbn [keepFirstPerCode].
    destruct (soundex w) as [s|e] eqn:Hw; [|discriminate].
    cbn [mbind attempt_bind] in Hout.
    rewrite (existsb_sameCode m earlier w s Hinv Hw).
    destruct (bool_decide (s ∈ m)) eqn:Hdec.
    + apply bool_decide_eq_true in Hdec. cbn [app].
      apply (IH m); [apply (codes_of_seen m earlier w s); assumption|exact Hout].
    + destruct (phoneticFilter ({[ s ]} ∪ m) ws) as [kept|e] eqn:Hkept;
        [|discriminate].
      cbn [mbind attempt_bind] in Hout. injection Hout as <-.
      cbn [app]. f_equal.
      apply (IH ({[ s ]} ∪ m)); [apply codes_of_snoc; assumption|exact Hkept].
Qed.

(** The codes of the words kept are new to [phoneticMap] and pairwise
    distinct. *)
Lemma phoneticFilter_distinct (ws : list string) :
  forall (m : gset string) (out : list string),
    phoneticFilter m ws = Ok out ->
    (forall w, w ∈ out -> exists s, soundex w = Ok s /\ s ∉ m) /\
    NoDup (soundex <$> out).
Proof.
  induction ws as [|w ws IH]; intros m out Hout.
  - cbn in Hout. injection Hout as <-. split; [|constructor].
    intros w Hw. inversion Hw.
  - cbn [phoneticFilter] in Hout.
    destruct (soundex w) as [s|e] eqn:Hw; [|discriminate].
    cbn [mbind attempt_bind] in Hout.
    destruct (bool_decide (s ∈ m)) eqn:Hdec.
    + apply (IH m), Hout.
    + apply bool_decide_eq_false in Hdec.
      destruct (phoneticFilter ({[ s ]} ∪ m) ws) as [kept|e] eqn:Hkept;
        [|discriminate].
      cbn [mbind attempt_bind] in Hout. injection Hout as <-.
      destruct (IH _ _ Hkept) as [Hnew Hnodup]. split.
      * intros v Hv. apply elem_of_cons in Hv as [->|Hv].
        -- exists s. auto.
        -- destruct (Hnew v Hv) as (t & Ht & Hnot). exists t. split; [exact Ht|].
           intros Hin. apply Hnot, elem_of_union_r, Hin.
      * cbn [fmap list_fmap]. apply NoDup_cons. split; [|exact Hnodup].
        intros Hin. apply list_elem_of_fmap in Hin as (v & Hcode & Hv).
        destruct (Hnew v Hv) as (t & Ht & Hnot).
        apply Hnot, elem_of_union_l, elem_of_singleton. congruence.
Qed.

(** *** The code has four characters *)

Lemma codes_one_char (c : ascii) (code : string) :
  codes c = Some code -> truthy_string code = true -> one_char code.
Proof.
  destruct c as [[] [] [] [] [] [] [] []]; cbn; intros [= <-]; cbn;
    first [discriminate | reflexivity].
Qed.

Lemma soundex_step_one_char (st : list string * string) (c : ascii) :
  Forall one_char st.1 -> Forall one_char (soundex_step st c).1.
Proof.
  destruct st as [arr prev]. cbn [fst]. intros Harr. unfold soundex_step.
  destruct (codes c) as [code|] eqn:Hc; [|exact Harr].
  destruct (truthy_string code) eqn:Ht; [|exact Harr].
  destruct (negb (String.eqb code prev)); [|exact Harr].
  cbn. apply Forall_app. split; [exact Harr|].
  apply Forall_cons. split; [apply (codes_one_char c); assumption|constructor].
Qed.

Lemma soundex_fold_one_char (a : list ascii) (st : list string * string) :
  Forall one_char st.1 -> Forall one_char (fold_left soundex_step a st).1.
Proof.
  revert st. induction a as [|c a IH]; intros st Hst; [exact Hst|].
  cbn [fold_left]. apply IH, soundex_step_one_char, Hst.
Qed.

(** The padding loop ends with at least four entries. *)
Lemma pad_spec (fuel : nat) (arr : list string) :
  (4 - List.length arr <= fuel)%nat ->
  Forall one_char arr ->
  (4 <= List.length (pad fuel arr))%nat /\ Forall one_char (pad fuel arr).
Proof.
  revert arr. induction fuel as [|fuel IH]; intros arr Hfuel Harr.
  - cbn. split; [lia|exact Harr].
  - cbn [pad]. destruct (Nat.ltb_spec (List.length arr) 4) as [Hlt|Hge].
    + apply IH.
      * rewrite length_app. simpl. lia.
      * apply Forall_app. split; [exact Harr|].
        apply Forall_cons. split; [reflexivity|constructor].
    + split; [lia|exact Harr].
Qed.

Lemma length_append (s1 s2 : string) :
  String.length (String.append s1 s2) = (String.length s1 + String.length s2)%nat.
Proof.
  induction s1 as [|c s1 IH]; [reflexivity|].
  change (S (String.length (String.append s1 s2))
          = S (String.length s1 + String.length s2)).
  rewrite IH. reflexivity.
Qed.

Lemma join_one_char (l : list string) :
  Forall one_char l -> String.length (join "" l) = List.length l.
Proof.
  unfold join. induction l as [|x l IH]; intros Hl; [reflexivity|].
  apply Forall_cons in Hl as [Hx Hl]. specialize (IH Hl).
  unfold one_char in Hx. destruct l as [|y l].
  - cbn. exact Hx.
  - cbn [String.concat] in IH |- *. rewrite !length_append.
    cbn [String.length List.length] in IH |- *. lia.
Qed.

Lemma soundex_four_chars (w code : string) :
  soundex w = Ok code -> String.length code = 4%nat.
Proof.
  unfold soundex. destruct (chars (toLowerCase w)) as [|f a]; [discriminate|].
  pose proof (soundex_fold_one_char a
                ([String (toUpperCaseChar f) EmptyString], ""%string)) as Hfold.
  destruct (fold_left soundex_step a _) as [arr prev].
  cbn [fst] in Hfold. intros [= <-].
  destruct (pad_spec (4 - List.length arr) arr) as [Hlen Hone]; [lia| |].
  { apply Hfold. apply Forall_cons. split; [reflexivity|constructor]. }
  rewrite join_one_char.
  - rewrite length_take. lia.
  - apply Forall_take, Hone.
Qed.

(** *** What the specification's wording keeps *)

Lemma existsb_sameCode_false (w : string) (earlier : list string) :
  existsb (sameCode w) earlier = false <->
  forall v, v ∈ earlier -> soundex v <> soundex w.
Proof.
  split.
  - intros Hex v Hv Heq.
    assert (Htrue : existsb (sameCode w) earlier = true).
    { apply existsb_exists. exists v. split; [apply list_elem_of_In, Hv|].
      apply bool_decide_eq_true. congruence. }
    congruence.
  - intros Hall. destruct (existsb (sameCode w) earlier) eqn:Hex; [|reflexivity].
    apply existsb_exists in Hex as (v & Hv & Hsame).
    apply bool_decide_eq_true in Hsame.
    exfalso. apply (Hall v); [apply list_elem_of_In, Hv|congruence].
Qed.

(** A word is kept exactly at a position where no word before it, in
    [earlier] or in the list, has its code. *)
Lemma keepFirstPerCode_elem (ws : list string) :
  forall (earlier : list string) (w : string),
    w ∈ keepFirstPerCode earlier ws <->
    exists pre post,
      ws = pre ++ w :: post /\
      forall v, v ∈ earlier ++ pre -> soundex v <> soundex w.
Proof.
  induction ws as [|x ws IH]; intros earlier w.
  - cbn. split.
    + intros Hin. inversion Hin.
    + intros (pre & post & Heq & _). destruct pre; discriminate.
  - cbn [keepFirstPerCode]. rewrite elem_of_app, IH. split.
    + intros [Hfirst | (pre & post & -> & Hall)].
      * destruct (existsb (sameCode x) earlier) eqn:Hex; [inversion Hfirst|].
        apply list_elem_of_singleton in Hfirst. subst w.
        exists [], ws. split; [reflexivity|].
        rewrite app_nil_r. apply existsb_sameCode_false, Hex.
      * exists (x :: pre), post. split; [reflexivity|].
        intros v Hv. apply Hall. rewrite <- app_assoc. exact Hv.
    + intros (pre & post & Heq & Hall). destruct pre as [|y pre].
      * injection Heq as -> ->. left. rewrite app_nil_r in Hall.
        apply existsb_sameCode_false in Hall. rewrite Hall.
        apply list_elem_of_singleton. reflexivity.
      * injection Heq as -> ->. right. exists pre, post. split; [reflexivity|].
        intros v Hv. apply Hall. rewrite <- app_assoc in Hv. exact Hv.
Qed.

Lemma keepFirstPerCode_sublist (ws earlier : list string) :
  sublist (keepFirstPerCode earlier ws) ws.
Proof.
  revert earlier. induction ws as [|x ws IH]; intros earlier; [constructor|].
  cbn [keepFirstPerCode]. destruct (existsb (sameCode x) earlier); cbn [app].
  - apply sublist_cons, IH.
  - apply sublist_skip, IH.
Qed.

(** C8: with [phoneticDistinct] on, when the Phonetic Dedup Stage returns,
    the words it keeps have pairwise different phonetic codes, each code
    has four characters, the words are in the order of the input, and a
    word is kept exactly where no word before it in the input has its
    code: the first word of each code is the one kept. *)
Theorem phoneticStage_keeps_first_per_code (o : Options) (ws out : list string) :
  phoneticDistinct o = true ->
  phoneticStage o ws = Ok out ->
  NoDup (soundex <$> out) /\
  (forall w, w ∈ out ->
     exists code, soundex w = Ok code /\ String.length code = 4%nat) /\
  sublist out ws /\
  (forall w, w ∈ out <->
     exists pre post,
       ws = pre ++ w :: post /\
       forall v, v ∈ pre -> soundex v <> soundex w) /\
  out = keepFirstPerCode [] ws.
Proof.
  unfold phoneticStage. intros -> Hout.
  destruct (phoneticFilter_distinct ws ∅ out Hout) as [Hcodes Hnodup].
  pose proof (phoneticFilter_keepFirstPerCode ws ∅ [] out codes_of_empty Hout)
    as Hspec.
  split; [exact Hnodup|]. split; [|split; [|split]].
  - intros w Hw. destruct (Hcodes w Hw) as (code & Hcode & _).
    exists code. split; [exact Hcode|]. apply (soundex_four_chars w), Hcode.
  - rewrite Hspec. apply keepFirstPerCode_sublist.
  - intros w. rewrite Hspec. apply (keepFirstPerCode_elem ws [] w).
  - exact Hspec.
Qed.

Lemma phoneticStage_keeps_first_per_code_witness :
  let ws := ["robert"; "apple"; "rupert"; "appeal"; "rabbit"]%string in
  let out := ["robert"; "apple"; "rabbit"]%string in
  phoneticStage defaults ws = Ok out /\
  NoDup (soundex <$> out) /\
  (forall w, w ∈ out ->
     exists code, soundex w = Ok code /\ String.length code = 4%nat) /\
  sublist out ws /\
  (forall w, w ∈ out <->
     exists pre post,
       ws = pre ++ w :: post /\
       forall v, v ∈ pre -> soundex v <> soundex w) /\
  out = keepFirstPerCode [] ws.
Proof.
  intros ws out.
  assert (Hout : phoneticStage defaults ws = Ok out) by (vm_compute; reflexivity).
  split; [exact Hout|].
  apply (phoneticStage_keeps_first_per_code defaults ws out); [reflexivity|exact Hout].
Defined.

(** ** The default shuffle permutes *)

Lemma insert_delete_perm (l : list string) (i : nat) (x y : string) :
  l !! i = Some x -> Permutation (<[i := y]> l) (y :: delete i l).
Proof.
  revert i. induction l as [|z l IH]; intros i Hi; [discriminate|].
  destruct i as [|i]; cbn in Hi |- *; [reflexivity|].
  rewrite (IH i Hi). apply perm_swap.
Qed.

Lemma swap_perm (array : list string) (i j : nat) :
  Permutation array (swap array i j).
Proof.
  unfold swap. destruct (array !! i) as [ai|] eqn:Hi; [|reflexivity].
  destruct (array !! j) as [aj|] eqn:Hj; [|reflexivity].
  assert (Hj' : <[i := aj]> array !! j = Some aj).
  { destruct (decide (i = j)) as [->|Hne].
    - apply list_lookup_insert_eq. apply lookup_lt_Some in Hi. exact Hi.
    - rewrite list_lookup_insert_ne by exact Hne. exact Hj. }
  rewrite (insert_delete_perm _ j aj ai Hj').
  rewrite (delete_Permutation array i ai Hi) at 1.
  apply perm_skip.
  apply (Permutation_cons_inv (a := aj)).
  rewrite <- (delete_Permutation _ j aj Hj').
  symmetry. apply (insert_delete_perm array i ai aj Hi).
Qed.

Lemma fisherYates_perm (i : nat) (array : list string) (r : Rng) :
  Permutation array (fisherYates i array r).1.
Proof.
  revert array r. induction i as [|i IH]; intros array r; [reflexivity|].
  cbn [fisherYates Math_random]. rewrite <- IH. apply swap_perm.
Qed.

Lemma shuffle_perm (o : Options) (array : list string) (r : Rng) :
  shuffle_in_place o -> Permutation array (shuffle o array r).1.
Proof.
  intros Hs. unfold shuffle. destruct (customShuffle o) as [f|] eqn:Hf.
  - apply (Hs f Hf).
  - apply fisherYates_perm.
Qed.

(** ** The sorted scenario *)

(** What the filters and the dedup leave of the scenario's input. *)
Lemma asc_scenario_pool :
  let o := with_sort (Some "asc"%string) (with_lengthMin (Some 4) defaults) in
  phoneticStage o
    (predicateStage o ∅ ["apple"; "ant"; "banana"; "bee"; "crab"]%string)
  = Ok ["apple"; "banana"; "crab"]%string.
Proof. vm_compute. reflexivity. Qed.

(** The ascending sort brings every order of the three words to the same
    one. *)
Lemma asc_scenario_order (l : list string) :
  Permutation ["apple"; "banana"; "crab"]%string l ->
  sortWith ascending l = ["apple"; "banana"; "crab"]%string.
Proof.
  intros Hperm. apply permutations_Permutation in Hperm.
  assert (Hall : permutations ["apple"; "banana"; "crab"]%string
                 = [ ["apple"; "banana"; "crab"]; ["banana"; "apple"; "crab"];
                     ["banana"; "crab"; "apple"]; ["apple"; "crab"; "banana"];
                     ["crab"; "apple"; "banana"]; ["crab"; "banana"; "apple"] ]%string)
    by (vm_compute; reflexivity).
  rewrite Hall in Hperm.
  repeat (apply elem_of_cons in Hperm as [-> | Hperm]; [vm_compute; reflexivity|]).
  inversion Hperm.
Qed.

(** C9: with [["apple","ant","banana","bee","crab"]],
    [{ lengthMin: 4, sort: "asc" }] and amount 3, [getWords] returns
    [["apple","banana","crab"]] whatever the random source draws: the
    length filter keeps apple, banana and crab, and the sort fixes their
    order after the shuffle. *)
Theorem sorted_scenario (r : Rng) :
  let o := with_sort (Some "asc"%string) (with_lengthMin (Some 4) defaults) in
  exists r' : Rng,
    getWords o (Number 3) ["apple"; "ant"; "banana"; "bee"; "crab"]%string ∅ r
    = Return (Words ["apple"; "banana"; "crab"]%string)
        (updateHistory ∅ ["apple"; "banana"; "crab"]%string) r'.
Proof.
  intros o.
  rewrite getWords_positive by lia.
  rewrite (selectWords_from_pool o 3 _ _ ∅ r asc_scenario_pool).
  change (weightingStage o ["apple"; "banana"; "crab"]%string)
    with ["apple"; "banana"; "crab"]%string.
  pose proof (shuffle_perm o ["apple"; "banana"; "crab"]%string r) as Hperm.
  destruct (shuffle o ["apple"; "banana"; "crab"]%string r) as [shuffled r1].
  cbn [fst snd] in Hperm |- *. exists r1.
  assert (Hsorted : sortStage o shuffled = ["apple"; "banana"; "crab"]%string).
  { apply asc_scenario_order, Hperm. intros f Hf. discriminate Hf. }
  cbv zeta. rewrite Hsorted. reflexivity.
Qed.

(** ** The sort overrides the shuffle *)

Section SortWith.

Variable compare : string -> string -> comparison.

Hypothesis compare_total :
  forall a b, compare a b = Gt -> comes_first compare b a.
Hypothesis compare_trans : Transitive (comes_first compare).

Lemma insertSorted_sorted (x : string) (l : list string) :
  StronglySorted (comes_first compare) l ->
  StronglySorted (comes_first compare) (insertSorted compare x l).
Proof.
  induction l as [|y l IH]; intros Hl; cbn [insertSorted].
  - repeat constructor.
  - apply StronglySorted_cons in Hl as [Hy Hl].
    assert (Hx : comes_first compare x y ->
                 StronglySorted (comes_first compare) (x :: y :: l)).
    { intros Hxy. apply StronglySorted_cons. split.
      - apply Forall_cons. split; [exact Hxy|].
        eapply Forall_impl; [exact Hy|]. intros z Hyz.
        exact (compare_trans x y z Hxy Hyz).
      - apply StronglySorted_cons. split; assumption. }
    destruct (compare x y) eqn:Hc.
    + apply Hx. unfold comes_first. congruence.
    + apply Hx. unfold comes_first. congruence.
    + apply StronglySorted_cons. split; [|apply IH, Hl].
      rewrite <- (insertSorted_perm compare x l).
      apply Forall_cons. split; [apply compare_total, Hc|exact Hy].
Qed.

Lemma sortWith_sorted (l : list string) :
  StronglySorted (comes_first compare) (sortWith compare l).
Proof.
  unfold sortWith. induction l as [|x l IH]; cbn [fold_right].
  - constructor.
  - apply insertSorted_sorted, IH.
Qed.

(** Two orders of the same words are sorted to the same array when no
    two different words tie. *)
Lemma sortWith_perm_unique (l1 l2 : list string) :
  Permutation l1 l2 ->
  (forall x y, x ∈ l1 -> y ∈ l1 ->
     comes_first compare x y -> comes_first compare y x -> x = y) ->
  sortWith compare l1 = sortWith compare l2.
Proof.
  intros Hperm Hanti.
  apply (StronglySorted_unique_strong (comes_first compare)).
  - intros x y Hx Hy. apply Hanti.
    + rewrite (sortWith_perm compare l1). exact Hx.
    + rewrite Hperm, (sortWith_perm compare l2). exact Hy.
  - apply sortWith_sorted.
  - apply sortWith_sorted.
  - rewrite <- (sortWith_perm compare l1), <- (sortWith_perm compare l2).
    exact Hperm.
Qed.

End SortWith.

Lemma comes_first_leb (s1 s2 : string) :
  String.compare s1 s2 <> Gt <-> String.le s1 s2.
Proof.
  unfold String.le, String.leb.
  destruct (String.compare s1 s2); cbn; intuition congruence.
Qed.

Lemma localeCompare_total (s1 s2 : string) :
  localeCompare s1 s2 = Gt -> localeCompare s2 s1 <> Gt.
Proof.
  unfold localeCompare. intros H. rewrite String.compare_antisym, H.
  discriminate.
Qed.

Lemma localeCompare_trans (s1 s2 s3 : string) :
  localeCompare s1 s2 <> Gt -> localeCompare s2 s3 <> Gt ->
  localeCompare s1 s3 <> Gt.
Proof.
  unfold localeCompare. rewrite !comes_first_leb. intros H12 H23.
  exact (transitivity H12 H23).
Qed.

Lemma localeCompare_antisym (s1 s2 : string) :
  localeCompare s1 s2 <> Gt -> localeCompare s2 s1 <> Gt -> s1 = s2.
Proof.
  unfold localeCompare. rewrite !comes_first_leb. intros H12 H21.
  exact (anti_symm String.le s1 s2 H12 H21).
Qed.

Lemma ascending_total (a b : string) :
  ascending a b = Gt -> comes_first ascending b a.
Proof. apply localeCompare_total. Qed.

Lemma ascending_trans : Transitive (comes_first ascending).
Proof. intros a b c. apply localeCompare_trans. Qed.

Lemma descending_total (a b : string) :
  descending a b = Gt -> comes_first descending b a.
Proof. apply localeCompare_total. Qed.

Lemma descending_trans : Transitive (comes_first descending).
Proof. intros a b c Hab Hbc. exact (localeCompare_trans _ _ _ Hbc Hab). Qed.

(** When the words are equal only if they are equal without regard to
    case, the sort gives every order of them the same result. *)
Lemma sortStage_overrides_order (o : Options) (l1 l2 : list string) :
  sort o = Some "asc"%string \/ sort o = Some "desc"%string ->
  Permutation l1 l2 ->
  case_distinct l1 ->
  sortStage o l1 = sortStage o l2.
Proof.
  intros Hsort Hperm Hdistinct. unfold sortStage.
  destruct Hsort as [-> | ->]; cbn.
  - apply (sortWith_perm_unique ascending ascending_total ascending_trans);
      [exact Hperm|].
    intros x y Hx Hy Hxy Hyx. apply (Hdistinct x y Hx Hy).
    exact (localeCompare_antisym _ _ Hxy Hyx).
  - apply (sortWith_perm_unique descending descending_total descending_trans);
      [exact Hperm|].
    intros x y Hx Hy Hxy Hyx. apply (Hdistinct x y Hx Hy).
    exact (localeCompare_antisym _ _ Hyx Hxy).
Qed.

(** The phonetic code is a function of the lowercase form. *)
Lemma toLowerCase_idemp (w : string) : toLowerCase (toLowerCase w) = toLowerCase w.
Proof.
  unfold toLowerCase. induction w as [|c w IH]; cbn [map_string]; [reflexivity|].
  rewrite IH. f_equal.
  destruct c as [[] [] [] [] [] [] [] []]; reflexivity.
Qed.

Lemma soundex_toLowerCase (w : string) : soundex (toLowerCase w) = soundex w.
Proof. unfold soundex. rewrite toLowerCase_idemp. reflexivity. Qed.

Lemma NoDup_fmap_inj_on {A B} (f : A -> B) (l : list A) :
  NoDup (f <$> l) ->
  forall x y, x ∈ l -> y ∈ l -> f x = f y -> x = y.
Proof.
  induction l as [|z l IH]; intros Hnd x y Hx Hy Hf; [inversion Hx|].
  cbn [fmap list_fmap] in Hnd. apply NoDup_cons in Hnd as [Hz Hnd].
  apply elem_of_cons in Hx as [->|Hx]; apply elem_of_cons in Hy as [->|Hy].
  - reflexivity.
  - exfalso. apply Hz. rewrite Hf. apply list_elem_of_fmap. exists y. auto.
  - exfalso. apply Hz. rewrite <- Hf. apply list_elem_of_fmap. exists x. auto.
  - apply IH; assumption.
Qed.

(** After the phonetic dedup no two different words are equal without
    regard to case. *)
Lemma phoneticStage_case_distinct (o : Options) (ws pool : list string) :
  phoneticDistinct o = true ->
  phoneticStage o ws = Ok pool ->
  case_distinct pool.
Proof.
  unfold phoneticStage. intros -> Hpool x y Hx Hy Hlower.
  destruct (phoneticFilter_distinct ws ∅ pool Hpool) as [_ Hnodup].
  apply (NoDup_fmap_inj_on soundex pool Hnodup x y Hx Hy).
  rewrite <- (soundex_toLowerCase x), <- (soundex_toLowerCase y), Hlower.
  reflexivity.
Qed.

Lemma weightingStage_elem (o : Options) (pool : list string) (w : string) :
  w ∈ weightingStage o pool -> w ∈ pool.
Proof.
  unfold weightingStage. destruct (weightedSelection o) as [ws|]; [|auto].
  rewrite weighting_fold. cbn [app]. intros Hin.
  apply list_elem_of_In, in_flat_map in Hin as (v & Hv & Hin).
  apply list_elem_of_In, elem_of_copies in Hin as [-> _].
  apply list_elem_of_In, Hv.
Qed.

(** With [phoneticDistinct] on and a sort requested, what [getWords]
    returns does not depend on the random source: the sort overrides the
    order the shuffle left. *)
Lemma sort_overrides_shuffle (o : Options) (n : Z) (ws : list string)
    (h : gset string) (r1 r2 : Rng) :
  phoneticDistinct o = true ->
  shuffle_in_place o ->
  sort o = Some "asc"%string \/ sort o = Some "desc"%string ->
  returned (getWords o (Number n) ws h r1)
  = returned (getWords o (Number n) ws h r2) /\
  thrown (getWords o (Number n) ws h r1)
  = thrown (getWords o (Number n) ws h r2).
Proof.
  intros Hpd Hs Hsort.
  destruct (Z.leb_spec n 0) as [Hle|Hpos].
  - unfold getWords. destruct (Z.leb_spec n 0); [|lia]. split; reflexivity.
  - rewrite !getWords_positive by exact Hpos.
    destruct (phoneticStage o (predicateStage o h ws)) as [pool|e] eqn:Hpool.
    + rewrite !(selectWords_from_pool o n ws pool h _ Hpool). cbv zeta.
      pose proof (phoneticStage_case_distinct o _ pool Hpd Hpool) as Hdistinct.
      pose proof (shuffle_perm o (weightingStage o pool) r1 Hs) as Hp1.
      pose proof (shuffle_perm o (weightingStage o pool) r2 Hs) as Hp2.
      rewrite (sortStage_overrides_order o
                 (shuffle o (weightingStage o pool) r1).1
                 (shuffle o (weightingStage o pool) r2).1 Hsort).
      * split; reflexivity.
      * rewrite <- Hp1. exact Hp2.
      * intros x y Hx Hy. apply Hdistinct; apply (weightingStage_elem o).
        -- rewrite Hp1. exact Hx.
        -- rewrite Hp1. exact Hy.
    + unfold selectWords. rewrite Hpool. split; reflexivity.
Qed.

(** With [phoneticDistinct] off, two words that are equal without regard
    to case tie in the sort and keep the order the shuffle gave them. *)
Example sort_keeps_shuffled_ties :
  let o := with_sort (Some "asc"%string) (with_phoneticDistinct false defaults) in
  returned (getWords o (Number 2) ["Apple"; "apple"]%string ∅ highDraws)
  = Some (Words ["Apple"; "apple"]%string) /\
  returned (getWords o (Number 2) ["Apple"; "apple"]%string ∅ lowDraws)
  = Some (Words ["apple"; "Apple"]%string).
Proof. split; vm_compute; reflexivity. Qed.

(** * Further properties of the pipeline *)

(** ** The case transform *)

Lemma toLowerCaseChar_upper (c : ascii) :
  toLowerCaseChar (toUpperCaseChar c) = toLowerCaseChar c.
Proof. destruct c as [[] [] [] [] [] [] [] []]; reflexivity. Qed.

Lemma toLowerCase_toUpperCase (w : string) :
  toLowerCase (toUpperCase w) = toLowerCase w.
Proof.
  unfold toLowerCase, toUpperCase.
  induction w as [|c w IH]; cbn [map_string]; [reflexivity|].
  rewrite IH, toLowerCaseChar_upper. reflexivity.
Qed.

Lemma toLowerCase_capitalize (w : string) :
  toLowerCase (capitalize w) = toLowerCase w.
Proof.
  destruct w as [|c w]; [reflexivity|].
  change (capitalize (String c w)) with (String (toUpperCaseChar c) w).
  unfold toLowerCase. cbn [map_string]. rewrite toLowerCaseChar_upper.
  reflexivity.
Qed.

Lemma caseStage_caseWord (o : Options) (l : list string) :
  caseStage o l = caseWord o <$> l.
Proof.
  unfold caseStage, caseWord. destruct (caseOption o) as [c|].
  - destruct (String.eqb c "upper"); [reflexivity|].
    destruct (String.eqb c "lower"); [reflexivity|].
    destruct (String.eqb c "capitalize"); [reflexivity|].
    symmetry. apply list_fmap_id.
  - symmetry. apply list_fmap_id.
Qed.

Lemma toLowerCase_caseWord (o : Options) (w : string) :
  toLowerCase (caseWord o w) = toLowerCase w.
Proof.
  unfold caseWord. destruct (caseOption o) as [c|]; [|reflexivity].
  destruct (String.eqb c "upper"); [apply toLowerCase_toUpperCase|].
  destruct (String.eqb c "lower"); [apply toLowerCase_idemp|].
  destruct (String.eqb c "capitalize"); [apply toLowerCase_capitalize|].
  reflexivity.
Qed.

Lemma length_map_string (f : ascii -> ascii) (w : string) :
  String.length (map_string f w) = String.length w.
Proof.
  induction w as [|c w IH]; cbn [map_string String.length]; [reflexivity|].
  rewrite IH. reflexivity.
Qed.

Lemma length_caseWord (o : Options) (w : string) :
  JsString.length (caseWord o w) = JsString.length w.
Proof.
  unfold JsString.length, caseWord. destruct (caseOption o) as [c|]; [|reflexivity].
  destruct (String.eqb c "upper"); [apply length_map_string|].
  destruct (String.eqb c "lower"); [apply length_map_string|].
  destruct (String.eqb c "capitalize"); [|reflexivity].
  destruct w as [|a w]; reflexivity.
Qed.

Lemma soundex_caseWord (o : Options) (w : string) :
  soundex (caseWord o w) = soundex w.
Proof.
  rewrite <- (soundex_toLowerCase (caseWord o w)), toLowerCase_caseWord.
  apply soundex_toLowerCase.
Qed.

(** ** Where a selected word comes from *)

Lemma phoneticFilter_elem (ws : list string) :
  forall (m : gset string) (out : list string) (w : string),
    phoneticFilter m ws = Ok out -> w ∈ out -> w ∈ ws.
Proof.
  induction ws as [|x ws IH]; intros m out w Hout Hw.
  - cbn in Hout. injection Hout as <-. exact Hw.
  - cbn [phoneticFilter] in Hout.
    destruct (soundex x) as [s|e]; [|discriminate].
    cbn [mbind attempt_bind] in Hout.
    destruct (bool_decide (s ∈ m)).
    + apply elem_of_cons. right. exact (IH m out w Hout Hw).
    + destruct (phoneticFilter ({[ s ]} ∪ m) ws) as [kept|e] eqn:Hkept;
        [|discriminate].
      cbn [mbind attempt_bind] in Hout. injection Hout as <-.
      apply elem_of_cons in Hw as [->|Hw]; [apply elem_of_cons; left; reflexivity|].
      apply elem_of_cons. right. exact (IH _ kept w Hkept Hw).
Qed.

Lemma phoneticStage_elem (o : Options) (ws pool : list string) (w : string) :
  phoneticStage o ws = Ok pool -> w ∈ pool -> w ∈ ws.
Proof.
  unfold phoneticStage. destruct (phoneticDistinct o).
  - apply phoneticFilter_elem.
  - intros [= <-]. auto.
Qed.

Lemma selectLoop_start (n : Z) (l : list string) :
  selectLoop n l [] O = take (Nat.min (Z.to_nat n) maxAttempts) l.
Proof.
  change O with (List.length (@nil string)) at 1.
  rewrite selectLoop_take by (unfold maxAttempts; simpl; lia).
  cbn [app List.length]. rewrite Nat.sub_0_r. reflexivity.
Qed.

Lemma synonymsStage_elem (o : Options) (l : list string) (w : string) :
  w ∈ synonymsStage o l -> w ∈ l.
Proof.
  unfold synonymsStage. destruct (nonempty (synonyms o)); [|auto].
  rewrite flatMap_to_nil. intros H. inversion H.
Qed.

(** Every selected word is the case transform of an input word that passed
    the filter. *)
Lemma selectWords_origin (o : Options) (n : Z) (ws : list string)
    (h : gset string) (r : Rng) (sel : list string) (r' : Rng) (w : string) :
  shuffle_in_place o ->
  selectWords o n ws h r = Ok (sel, r') ->
  w ∈ sel ->
  exists w0,
    w = caseWord o w0 /\ w0 ∈ ws /\
    keepWord o h (lowerSet (whitelist o)) (lowerSet (blacklist o)) w0 = true.
Proof.
  intros Hs Hsel Hw.
  destruct (selectWords_inv _ _ _ _ _ _ _ Hsel) as (pool & Hpool & Hdef).
  cbv zeta in Hdef. subst sel.
  apply synonymsStage_elem in Hw. rewrite caseStage_caseWord in Hw.
  apply list_elem_of_fmap in Hw as (w0 & -> & Hw0).
  exists w0. split; [reflexivity|].
  assert (Htaken : w0 ∈ selectLoop n
            (sortStage o (shuffle o (weightingStage o pool) r).1) [] O).
  { destruct (reverse o); [|exact Hw0].
    apply list_elem_of_In, in_rev, list_elem_of_In. exact Hw0. }
  rewrite selectLoop_start in Htaken.
  pose proof (elem_of_sublist _ _ _ Htaken (sublist_take _ _)) as Hsorted.
  rewrite <- (sortStage_perm o), <- (shuffle_perm o _ r Hs) in Hsorted.
  apply weightingStage_elem, (phoneticStage_elem o _ pool w0 Hpool) in Hsorted.
  unfold predicateStage in Hsorted.
  apply list_elem_of_In, filter_In in Hsorted as [Hin Hkeep].
  split; [apply list_elem_of_In, Hin|exact Hkeep].
Qed.

(** ** What passing the filter means *)

(** Every [if (...) return false] of the filter was passed: its condition
    is false. *)
Ltac filter_passed H :=
  unfold keepWord in H; cbv zeta in H;
  repeat match type of H with
         | (if ?c then false else _) = true =>
             let E := fresh "Hcond" in
             destruct c eqn:E; [discriminate H|]
         end.

Lemma keepWord_history (o : Options) (h : gset string)
    (wl bl : option (gset string)) (w : string) :
  keepWord o h wl bl w = true -> toLowerCase w ∉ h.
Proof.
  intros H. filter_passed H.
  match goal with
  | Hc : bool_decide (_ ∈ h) = false |- _ => apply bool_decide_eq_false in Hc; exact Hc
  end.
Qed.

Lemma keepWord_lists (o : Options) (h : gset string)
    (wl bl : option (gset string)) (w : string) :
  keepWord o h wl bl w = true ->
  (forall s, wl = Some s -> toLowerCase w ∈ s) /\
  (forall s, bl = Some s -> toLowerCase w ∉ s).
Proof.
  intros H. filter_passed H. split; intros s ->; cbn in *.
  - match goal with
    | Hc : negb (bool_decide (_ ∈ s)) = false |- _ =>
        apply negb_false_iff, bool_decide_eq_true in Hc; exact Hc
    end.
  - match goal with
    | Hc : bool_decide (_ ∈ s) = false |- _ =>
        apply bool_decide_eq_false in Hc; exact Hc
    end.
Qed.

Lemma keepWord_lengths (o : Options) (h : gset string)
    (wl bl : option (gset string)) (w : string) :
  keepWord o h wl bl w = true ->
  (forall m, fixLength o = Some m -> len w = m) /\
  (forall m, lengthMin o = Some m -> m <= len w) /\
  (forall m, lengthMax o = Some m -> len w <= m).
Proof.
  intros H. filter_passed H. repeat split; intros m Hm;
    rewrite Hm in *; cbn [when_number] in *; lia.
Qed.

Lemma keepWord_letters (o : Options) (h : gset string)
    (wl bl : option (gset string)) (w : string) :
  keepWord o h wl bl w = true ->
  allowSpecialChars o = false ->
  letters_only w.
Proof.
  intros H Hallow. filter_passed H. rewrite Hallow in *. cbn [negb andb] in *.
  match goal with
  | Hc : test_class (fun c => negb (is_letter c)) w = false |- _ =>
      unfold test_class in Hc; intros c Hin;
      destruct (is_letter c) eqn:Hl; [reflexivity|];
      assert (Hex : existsb (fun c => negb (is_letter c)) (chars w) = true)
        by (apply existsb_exists; exists c; rewrite Hl; auto);
      congruence
  end.
Qed.

Lemma keepWord_scrabble (o : Options) (h : gset string)
    (wl bl : option (gset string)) (w : string) (minScore maxScore : Z) :
  keepWord o h wl bl w = true ->
  scrabbleScoreRange o = Some [minScore; maxScore] ->
  minScore <= calculateScrabbleScore w <= maxScore.
Proof.
  intros H Hrange. filter_passed H. rewrite Hrange in *. lia.
Qed.

Lemma keepWord_supported (o : Options) (h : gset string)
    (wl bl : option (gset string)) (w : string) :
  keepWord o h wl bl w = true -> unsupportedOption o = false.
Proof.
  intros H. destruct (unsupportedOption o) eqn:Hu; [|reflexivity].
  rewrite (keepWord_unsupported o h wl bl w Hu) in H. discriminate.
Qed.

(** ** When [getWords] throws *)







(** ** The words [getWords] emits *)

Lemma getWords_selected (o : Options) (a : argument) (ws : list string)
    (h : gset string) (r : Rng) (v : result) (h' : gset string) (r' : Rng) :
  getWords o a ws h r = Return v h' r' ->
  exists n sel,
    a = Number n /\ 0 < n /\ selectWords o n ws h r = Ok (sel, r') /\
    carries v sel /\ h' = h ∪ list_to_set (toLowerCase <$> sel).
Proof.
  intros Hret.
  destruct (getWords_return_inv _ _ _ _ _ _ _ _ Hret)
    as (n & sel & -> & Hn & Hsel & -> & ->).
  exists n, sel. repeat split; try assumption.
  - apply shape_carries.
  - apply updateHistory_union.
Qed.

(** [getWords] fabricates no word: every word it emits is the [caseOption]
    transform of a word of the input that passes the filter, and is that
    word itself when there is no [caseOption]. *)
Theorem getWords_emits_input_words (o : Options) (a : argument)
    (ws : list string) (h : gset string) (r : Rng)
    (v : result) (h' : gset string) (r' : Rng) :
  shuffle_in_place o ->
  getWords o a ws h r = Return v h' r' ->
  exists sel,
    carries v sel /\
    forall w, w ∈ sel ->
      exists w0,
        w0 ∈ ws /\ w = caseWord o w0 /\
        toLowerCase w = toLowerCase w0 /\
        keepWord o h (lowerSet (whitelist o)) (lowerSet (blacklist o)) w0 = true /\
        (caseOption o = None -> w ∈ ws).
Proof.
  intros Hs Hret.
  destruct (getWords_selected _ _ _ _ _ _ _ _ Hret)
    as (n & sel & _ & _ & Hsel & Hv & _).
  exists sel. split; [exact Hv|]. intros w Hw.
  destruct (selectWords_origin o n ws h r sel r' w Hs Hsel Hw)
    as (w0 & -> & Hin & Hkeep).
  exists w0. repeat split; try assumption.
  - apply toLowerCase_caseWord.
  - intros Hnone. unfold caseWord. rewrite Hnone. exact Hin.
Qed.

Lemma getWords_emits_input_words_witness :
  exists sel,
    carries (Words ["Pear"; "Apple"]%string) sel /\
    forall w, w ∈ sel ->
      exists w0,
        w0 ∈ ["apple"; "pear"; "kiwi7"]%string /\
        w = caseWord (with_caseOption (Some "capitalize"%string) defaults) w0 /\
        toLowerCase w = toLowerCase w0 /\
        keepWord (with_caseOption (Some "capitalize"%string) defaults) ∅
          None None w0 = true /\
        (caseOption (with_caseOption (Some "capitalize"%string) defaults) = None ->
         w ∈ ["apple"; "pear"; "kiwi7"]%string).
Proof.
  apply (getWords_emits_input_words
           (with_caseOption (Some "capitalize"%string) defaults) (Number 5)
           ["apple"; "pear"; "kiwi7"]%string ∅ lowDraws
           (Words ["Pear"; "Apple"]%string)
           (updateHistory ∅ ["Pear"; "Apple"]%string)
           (fun k => lowDraws (S k))).
  - intros f Hf. discriminate Hf.
  - vm_compute. reflexivity.
Defined.

(** No word [getWords] emits was in History at the start of the call,
    whatever its case. *)
Theorem getWords_skips_history (o : Options) (a : argument)
    (ws : list string) (h : gset string) (r : Rng)
    (v : result) (h' : gset string) (r' : Rng) :
  shuffle_in_place o ->
  getWords o a ws h r = Return v h' r' ->
  exists sel, carries v sel /\ forall w, w ∈ sel -> toLowerCase w ∉ h.
Proof.
  intros Hs Hret.
  destruct (getWords_selected _ _ _ _ _ _ _ _ Hret)
    as (n & sel & _ & _ & Hsel & Hv & _).
  exists sel. split; [exact Hv|]. intros w Hw.
  destruct (selectWords_origin o n ws h r sel r' w Hs Hsel Hw)
    as (w0 & -> & _ & Hkeep).
  rewrite toLowerCase_caseWord. exact (keepWord_history _ _ _ _ _ Hkeep).
Qed.

Lemma getWords_skips_history_witness :
  exists sel,
    carries (Words ["pear"%string]) sel /\
    forall w, w ∈ sel -> toLowerCase w ∉ ({[ "apple"%string ]} : gset string).
Proof.
  apply (getWords_skips_history defaults (Number 5)
           ["Apple"; "pear"]%string {[ "apple"%string ]} lowDraws
           (Words ["pear"%string])
           (updateHistory {[ "apple"%string ]} ["pear"%string]) lowDraws).
  - intros f Hf. discriminate Hf.
  - vm_compute. reflexivity.
Defined.



(** ** The filters, on the emitted words *)

(** With a [whitelist], every emitted word is on it; with a [blacklist], no
    emitted word is on it; both without regard to case, also after the
    [caseOption] transform. *)
Theorem getWords_respects_lists (o : Options) (a : argument)
    (ws : list string) (h : gset string) (r : Rng)
    (v : result) (h' : gset string) (r' : Rng) :
  shuffle_in_place o ->
  getWords o a ws h r = Return v h' r' ->
  exists sel,
    carries v sel /\
    forall w, w ∈ sel ->
      (forall l, whitelist o = Some l ->
         exists x, x ∈ l /\ toLowerCase w = toLowerCase x) /\
      (forall l x, blacklist o = Some l -> x ∈ l ->
         toLowerCase w <> toLowerCase x).
Proof.
  intros Hs Hret.
  destruct (getWords_selected _ _ _ _ _ _ _ _ Hret)
    as (n & sel & _ & _ & Hsel & Hv & _).
  exists sel. split; [exact Hv|]. intros w Hw.
  destruct (selectWords_origin o n ws h r sel r' w Hs Hsel Hw)
    as (w0 & -> & _ & Hkeep).
  rewrite toLowerCase_caseWord.
  destruct (keepWord_lists _ _ _ _ _ Hkeep) as [Hwl Hbl]. split.
  - intros l Hl.
    assert (Hin : toLowerCase w0
                  ∈ (list_to_set (toLowerCase <$> l) : gset string))
      by (apply Hwl; unfold lowerSet; rewrite Hl; reflexivity).
    apply elem_of_list_to_set, list_elem_of_fmap in Hin as (x & Hx & Hin).
    exists x. auto.
  - intros l x Hl Hx Heq.
    apply (Hbl (list_to_set (toLowerCase <$> l))).
    + unfold lowerSet. rewrite Hl. reflexivity.
    + apply elem_of_list_to_set, list_elem_of_fmap. exists x. auto.
Qed.

Lemma getWords_respects_lists_witness :
  let o := with_blacklist (Some ["APPLE"%string]) defaults in
  exists sel,
    carries (Words ["pear"%string]) sel /\
    forall w, w ∈ sel ->
      (forall l, whitelist o = Some l ->
         exists x, x ∈ l /\ toLowerCase w = toLowerCase x) /\
      (forall l x, blacklist o = Some l -> x ∈ l ->
         toLowerCase w <> toLowerCase x).
Proof.
  intros o.
  apply (getWords_respects_lists o (Number 5) ["apple"; "pear"]%string ∅ lowDraws
           (Words ["pear"%string]) (updateHistory ∅ ["pear"%string]) lowDraws).
  - intros f Hf. discriminate Hf.
  - vm_compute. reflexivity.
Defined.

(** Every emitted word has a length within [lengthMin] and [lengthMax], and
    the length [fixLength], for those of the three that are set. *)
Theorem getWords_respects_lengths (o : Options) (a : argument)
    (ws : list string) (h : gset string) (r : Rng)
    (v : result) (h' : gset string) (r' : Rng) :
  shuffle_in_place o ->
  getWords o a ws h r = Return v h' r' ->
  exists sel,
    carries v sel /\
    forall w, w ∈ sel ->
      (forall m, fixLength o = Some m -> len w = m) /\
      (forall m, lengthMin o = Some m -> m <= len w) /\
      (forall m, lengthMax o = Some m -> len w <= m).
Proof.
  intros Hs Hret.
  destruct (getWords_selected _ _ _ _ _ _ _ _ Hret)
    as (n & sel & _ & _ & Hsel & Hv & _).
  exists sel. split; [exact Hv|]. intros w Hw.
  destruct (selectWords_origin o n ws h r sel r' w Hs Hsel Hw)
    as (w0 & -> & _ & Hkeep).
  unfold len. rewrite length_caseWord.
  exact (keepWord_lengths _ _ _ _ _ Hkeep).
Qed.

Lemma getWords_respects_lengths_witness :
  let o := with_lengthMin (Some 4) defaults in
  exists sel,
    carries (Words ["pear"; "apple"]%string) sel /\
    forall w, w ∈ sel ->
      (forall m, fixLength o = Some m -> len w = m) /\
      (forall m, lengthMin o = Some m -> m <= len w) /\
      (forall m, lengthMax o = Some m -> len w <= m).
Proof.
  intros o.
  apply (getWords_respects_lengths o (Number 5) ["apple"; "fig"; "pear"]%string
           ∅ lowDraws (Words ["pear"; "apple"]%string)
           (updateHistory ∅ ["pear"; "apple"]%string)
           (fun k => lowDraws (S k))).
  - intros f Hf. discriminate Hf.
  - vm_compute. reflexivity.
Defined.

Lemma chars_map_string (f : ascii -> ascii) (w : string) :
  chars (map_string f w) = List.map f (chars w).
Proof.
  unfold chars. induction w as [|c w IH]; cbn; [reflexivity|].
  rewrite IH. reflexivity.
Qed.

Lemma is_letter_case (c : ascii) :
  is_letter (toUpperCaseChar c) = is_letter c /\
  is_letter (toLowerCaseChar c) = is_letter c.
Proof. destruct c as [[] [] [] [] [] [] [] []]; split; reflexivity. Qed.

Lemma is_letter_not_digit (c : ascii) : is_letter c = true -> is_digit c = false.
Proof.
  destruct c as [[] [] [] [] [] [] [] []]; vm_compute; intros H;
    first [reflexivity | discriminate H].
Qed.

Lemma letters_only_map (f : ascii -> ascii) (w : string) :
  (forall c, is_letter (f c) = is_letter c) ->
  letters_only w -> letters_only (map_string f w).
Proof.
  intros Hf Hw c Hin. rewrite chars_map_string in Hin.
  apply in_map_iff in Hin as (c0 & <- & Hin0). rewrite Hf. apply Hw, Hin0.
Qed.

Lemma letters_only_caseWord (o : Options) (w : string) :
  letters_only w -> letters_only (caseWord o w).
Proof.
  intros Hw. unfold caseWord. destruct (caseOption o) as [c|]; [|exact Hw].
  destruct (String.eqb c "upper");
    [apply letters_only_map; [apply is_letter_case|exact Hw]|].
  destruct (String.eqb c "lower");
    [apply letters_only_map; [apply is_letter_case|exact Hw]|].
  destruct (String.eqb c "capitalize"); [|exact Hw].
  destruct w as [|a w]; [exact Hw|].
  change (capitalize (String a w)) with (String (toUpperCaseChar a) w).
  intros x [<-|Hin].
  - rewrite (proj1 (is_letter_case a)). apply Hw. left. reflexivity.
  - apply Hw. right. exact Hin.
Qed.

(** Unless [allowSpecialChars] is on, every emitted word is made of ASCII
    letters only; it has no digit, whatever [allowNumbers] says. *)
Theorem getWords_letters_only (o : Options) (a : argument)
    (ws : list string) (h : gset string) (r : Rng)
    (v : result) (h' : gset string) (r' : Rng) :
  shuffle_in_place o ->
  allowSpecialChars o = false ->
  getWords o a ws h r = Return v h' r' ->
  exists sel,
    carries v sel /\
    forall w c, w ∈ sel -> In c (chars w) ->
      is_letter c = true /\ is_digit c = false.
Proof.
  intros Hs Hallow Hret.
  destruct (getWords_selected _ _ _ _ _ _ _ _ Hret)
    as (n & sel & _ & _ & Hsel & Hv & _).
  exists sel. split; [exact Hv|]. intros w c Hw Hc.
  destruct (selectWords_origin o n ws h r sel r' w Hs Hsel Hw)
    as (w0 & -> & _ & Hkeep).
  assert (Hl : is_letter c = true).
  { apply (letters_only_caseWord o w0); [|exact Hc].
    exact (keepWord_letters _ _ _ _ _ Hkeep Hallow). }
  split; [exact Hl|]. apply is_letter_not_digit, Hl.
Qed.

Lemma getWords_letters_only_witness :
  let o := with_allowNumbers true defaults in
  exists sel,
    carries (Words ["pear"%string]) sel /\
    forall w c, w ∈ sel -> In c (chars w) ->
      is_letter c = true /\ is_digit c = false.
Proof.
  intros o.
  apply (getWords_letters_only o (Number 5) ["kiwi7"; "pear"; "a-b"]%string
           ∅ lowDraws (Words ["pear"%string])
           (updateHistory ∅ ["pear"%string]) lowDraws).
  - intros f Hf. discriminate Hf.
  - reflexivity.
  - vm_compute. reflexivity.
Defined.

(** ** How many words are emitted *)

(** Without [pattern] and without [synonyms], [getWords] selects exactly as
    many words as the smallest of the amount, the 1000 attempts of the
    selection loop, and the size of the pool the Weighting Stage hands on,
    and returns them in the shape the options ask for. ([pattern] is left
    out because a regular expression with the [g] or [y] flag remembers
    where its last match ended.) *)
Theorem getWords_count (o : Options) (n : Z) (ws : list string)
    (h : gset string) (r : Rng) (v : result) (h' : gset string) (r' : Rng) :
  shuffle_in_place o ->
  pattern o = None ->
  nonempty (synonyms o) = false ->
  getWords o (Number n) ws h r = Return v h' r' ->
  exists pool sel,
    phoneticStage o (predicateStage o h ws) = Ok pool /\
    selectWords o n ws h r = Ok (sel, r') /\
    v = shape o sel /\
    List.length sel
    = Nat.min (Z.to_nat n)
        (Nat.min 1000 (List.length (weightingStage o pool))).
Proof.
  intros Hs _ Hsyn Hret.
  destruct (getWords_return_inv _ _ _ _ _ _ _ _ Hret)
    as (n' & sel & [= <-] & _ & Hsel & Hv & _).
  destruct (selectWords_inv _ _ _ _ _ _ _ Hsel) as (pool & Hpool & Hdef).
  cbv zeta in Hdef. exists pool, sel.
  split; [exact Hpool|]. split; [exact Hsel|]. split; [exact Hv|].
  subst sel. unfold synonymsStage. rewrite Hsyn, caseStage_length.
  assert (Htaken : List.length (selectLoop n
            (sortStage o (shuffle o (weightingStage o pool) r).1) [] O)
          = Nat.min (Z.to_nat n)
              (Nat.min 1000 (List.length (weightingStage o pool)))).
  { rewrite selectLoop_start, length_take.
    rewrite <- (Permutation_length (sortStage_perm o _)).
    rewrite (shuffle_length o _ r Hs). unfold maxAttempts. lia. }
  destruct (reverse o); [rewrite length_rev|]; exact Htaken.
Qed.

Lemma getWords_count_witness :
  let o := with_weightedSelection (Some {[ "pear"%string := 2 ]}) defaults in
  let ws := ["constructor"; "pear"; "fig"]%string in
  exists pool sel,
    phoneticStage o (predicateStage o ∅ ws) = Ok pool /\
    selectWords o 2 ws ∅ highDraws = Ok (sel, fun k => highDraws (2 + k)%nat) /\
    Words ["pear"; "pear"]%string = shape o sel /\
    List.length sel
    = Nat.min (Z.to_nat 2)
        (Nat.min 1000 (List.length (weightingStage o pool))).
Proof.
  intros o ws.
  apply (getWords_count o 2 ws ∅ highDraws
           (Words ["pear"; "pear"]%string)
           (updateHistory ∅ ["pear"; "pear"]%string)
           (fun k => highDraws (2 + k)%nat)).
  - intros f Hf. discriminate Hf.
  - reflexivity.
  - reflexivity.
  - vm_compute. reflexivity.
Defined.

(** ** The order of the emitted words *)

Lemma StronglySorted_rev (R : string -> string -> Prop) (l : list string) :
  StronglySorted R l -> StronglySorted (flip R) (rev l).
Proof.
  induction l as [|x l IH]; intros Hl; [constructor|].
  apply StronglySorted_cons in Hl as [Hx Hl]. cbn [rev].
  apply StronglySorted_app. split; [|split].
  - intros y z Hy Hz. apply list_elem_of_singleton in Hz. subst z.
    unfold flip. rewrite Forall_forall in Hx. apply Hx.
    apply list_elem_of_In, in_rev, list_elem_of_In. exact Hy.
  - apply IH, Hl.
  - repeat constructor.
Qed.

Lemma StronglySorted_take (R : string -> string -> Prop) (k : nat)
    (l : list string) :
  StronglySorted R l -> StronglySorted R (take k l).
Proof.
  intros Hl. rewrite <- (take_drop k l) in Hl.
  exact (StronglySorted_app_1_l R _ _ Hl).
Qed.

(** [getWords] is [getWordsIn] for the collation by code unit. *)
Lemma getWords_by_code_unit (o : Options) (a : argument) (ws : list string)
    (h : gset string) (r : Rng) :
  getWordsIn localeCompare o a ws h r = getWords o a ws h r.
Proof. reflexivity. Qed.

Lemma localeCompare_consistent : consistent localeCompare.
Proof.
  split.
  - intros a b. apply String.compare_antisym.
  - apply localeCompare_trans.
Qed.

Section Sorted.

Variable collate : string -> string -> comparison.
Hypothesis collate_consistent : consistent collate.

Lemma ascendingIn_total (a b : string) :
  ascendingIn collate a b = Gt -> comes_first (ascendingIn collate) b a.
Proof.
  unfold comes_first, ascendingIn. intros Hgt.
  rewrite (proj1 collate_consistent), Hgt. discriminate.
Qed.

Lemma ascendingIn_trans : Transitive (comes_first (ascendingIn collate)).
Proof. intros a b c. apply (proj2 collate_consistent). Qed.

Lemma descendingIn_total (a b : string) :
  descendingIn collate a b = Gt -> comes_first (descendingIn collate) b a.
Proof.
  unfold comes_first, descendingIn. intros Hgt.
  rewrite (proj1 collate_consistent), Hgt. discriminate.
Qed.

Lemma descendingIn_trans : Transitive (comes_first (descendingIn collate)).
Proof.
  intros a b c Hab Hbc. exact (proj2 collate_consistent _ _ _ Hbc Hab).
Qed.

(** Two words of which each may stand before the other tie. *)
Lemma ascendingIn_tie (a b : string) :
  comes_first (ascendingIn collate) a b ->
  comes_first (ascendingIn collate) b a ->
  ascendingIn collate a b = Eq.
Proof.
  unfold comes_first, ascendingIn. intros Hab Hba.
  rewrite (proj1 collate_consistent) in Hba.
  destruct (collate (toLowerCase a) (toLowerCase b));
    [reflexivity | exfalso; apply Hba; reflexivity | contradiction].
Qed.

Lemma sortStageIn_sorted (o : Options) (l : list string) :
  (sort o = Some "asc"%string ->
   StronglySorted (comes_first (ascendingIn collate)) (sortStageIn collate o l)) /\
  (sort o = Some "desc"%string ->
   StronglySorted (comes_first (descendingIn collate)) (sortStageIn collate o l)).
Proof.
  unfold sortStageIn. split; intros ->; cbn.
  - apply (sortWith_sorted _ ascendingIn_total ascendingIn_trans).
  - apply (sortWith_sorted _ descendingIn_total descendingIn_trans).
Qed.

Lemma sortWith_descendingIn_rev (l1 l2 : list string) :
  Permutation l1 l2 ->
  (forall a b, a ∈ l1 -> b ∈ l1 -> ascendingIn collate a b = Eq -> a = b) ->
  sortWith (descendingIn collate) l2 = rev (sortWith (ascendingIn collate) l1).
Proof.
  intros Hperm Hties.
  apply (StronglySorted_unique_strong (comes_first (descendingIn collate))).
  - intros x y Hx Hy Hxy Hyx. apply Hties.
    + rewrite Hperm, (sortWith_perm (descendingIn collate) l2). exact Hx.
    + rewrite (sortWith_perm (ascendingIn collate) l1).
      apply list_elem_of_In, in_rev, list_elem_of_In. exact Hy.
    + apply ascendingIn_tie; assumption.
  - apply (sortWith_sorted _ descendingIn_total descendingIn_trans).
  - apply (StronglySorted_rev (comes_first (ascendingIn collate))).
    apply (sortWith_sorted _ ascendingIn_total ascendingIn_trans).
  - rewrite <- (sortWith_perm (descendingIn collate) l2), <- Permutation_rev.
    rewrite <- Hperm. apply sortWith_perm.
Qed.

End Sorted.

Lemma ascendingIn_caseWord (collate : string -> string -> comparison)
    (o : Options) (a b : string) :
  ascendingIn collate (caseWord o a) (caseWord o b) = ascendingIn collate a b.
Proof. unfold ascendingIn. rewrite !toLowerCase_caseWord. reflexivity. Qed.

(** The post-processing of a sorted selection keeps it sorted. *)
Lemma postProcess_sorted (o : Options) (R : string -> string -> Prop)
    (taken : list string) :
  (forall a b, R a b -> R (caseWord o a) (caseWord o b)) ->
  StronglySorted R taken ->
  StronglySorted R (synonymsStage o (caseStage o taken)).
Proof.
  intros HR Hsorted. unfold synonymsStage.
  destruct (nonempty (synonyms o)).
  - rewrite flatMap_to_nil. constructor.
  - rewrite caseStage_caseWord.
    exact (StronglySorted_fmap (caseWord o) R R taken HR Hsorted).
Qed.

Lemma getWordsIn_return_inv (collate : string -> string -> comparison)
    (o : Options) (a : argument) (ws : list string)
    (h : gset string) (r : Rng) (v : result) (h' : gset string) (r' : Rng) :
  getWordsIn collate o a ws h r = Return v h' r' ->
  exists n sel,
    a = Number n /\ 0 < n /\
    selectWordsIn collate o n ws h r = Ok (sel, r') /\
    v = shape o sel /\ h' = updateHistory h sel.
Proof.
  destruct a as [n|]; simpl; [|discriminate].
  destruct (Z.leb_spec n 0) as [|Hpos]; [discriminate|].
  destruct (Z.eqb_spec n 0) as [|_]; [lia|].
  destruct (selectWordsIn collate o n ws h r) as [[sel r1]|e] eqn:Hsel;
    [|discriminate].
  intros [= <- <- <-]. exists n, sel. auto.
Qed.

Lemma selectWordsIn_inv (collate : string -> string -> comparison)
    (o : Options) (n : Z) (ws : list string)
    (h : gset string) (r : Rng) (sel : list string) (r' : Rng) :
  selectWordsIn collate o n ws h r = Ok (sel, r') ->
  exists pool,
    phoneticStage o (predicateStage o h ws) = Ok pool /\
    let ordered := sortStageIn collate o (shuffle o (weightingStage o pool) r).1 in
    let taken := selectLoop n ordered [] O in
    sel = synonymsStage o
            (caseStage o (if reverse o then rev taken else taken)).
Proof.
  unfold selectWordsIn.
  destruct (phoneticStage o (predicateStage o h ws)) as [pool|e]; [|discriminate].
  cbn [mbind attempt_bind].
  destruct (shuffle o (weightingStage o pool) r) as [shuffled r1] eqn:Hsh.
  intros [= <- <-]. exists pool. split; [reflexivity|].
  cbv zeta. rewrite Hsh. reflexivity.
Qed.

Lemma insertSorted_ext (c1 c2 : string -> string -> comparison) (x : string)
    (l : list string) :
  (forall y, y ∈ l -> c1 x y = c2 x y) ->
  insertSorted c1 x l = insertSorted c2 x l.
Proof.
  induction l as [|y l IH]; intros Hext; [reflexivity|].
  cbn [insertSorted]. rewrite <- (Hext y) by left.
  destruct (c1 x y); try reflexivity.
  f_equal. apply IH. intros z Hz. apply Hext. right. exact Hz.
Qed.

Lemma sortWith_ext (c1 c2 : string -> string -> comparison) (l : list string) :
  (forall x y, x ∈ l -> y ∈ l -> c1 x y = c2 x y) ->
  sortWith c1 l = sortWith c2 l.
Proof.
  unfold sortWith. induction l as [|x l IH]; intros Hext; [reflexivity|].
  cbn [fold_right]. rewrite IH by (intros; apply Hext; right; assumption).
  apply insertSorted_ext. intros y Hy.
  change (y ∈ sortWith c2 l) in Hy. rewrite <- (sortWith_perm c2 l) in Hy.
  apply Hext; [left|right; exact Hy].
Qed.

(** Where the collation of the locale ranks the words that pass the filter
    as their code units do, [getWords] is what the source computes. *)
Lemma getWordsIn_agrees (collate : string -> string -> comparison)
    (o : Options) (a : argument) (ws : list string) (h : gset string) (r : Rng) :
  shuffle_in_place o ->
  (forall x y, x ∈ predicateStage o h ws -> y ∈ predicateStage o h ws ->
     ascendingIn collate x y = ascending x y) ->
  getWordsIn collate o a ws h r = getWords o a ws h r.
Proof.
  intros Hs Hagree. unfold getWordsIn, getWords.
  destruct a as [n|]; [|reflexivity].
  destruct (n <=? 0); [reflexivity|]. destruct (n =? 0); [reflexivity|].
  assert (Hsel : selectWordsIn collate o n ws h r = selectWords o n ws h r);
    [|rewrite Hsel; reflexivity].
  unfold selectWordsIn, selectWords.
  destruct (phoneticStage o (predicateStage o h ws)) as [pool|e] eqn:Hpool;
    [|reflexivity].
  cbn [mbind attempt_bind].
  pose proof (shuffle_perm o (weightingStage o pool) r Hs) as Hperm.
  destruct (shuffle o (weightingStage o pool) r) as [shuffled r1].
  cbn [fst] in Hperm.
  assert (Hin : forall x, x ∈ shuffled -> x ∈ predicateStage o h ws).
  { intros x Hx. rewrite <- Hperm in Hx.
    apply (phoneticStage_elem o _ pool x Hpool), (weightingStage_elem o), Hx. }
  assert (Hsort : sortStageIn collate o shuffled = sortStage o shuffled);
    [|rewrite Hsort; reflexivity].
  unfold sortStageIn, sortStage. destruct (sort o) as [s|]; [|reflexivity].
  destruct (String.eqb s "asc").
  - apply sortWith_ext. intros x y Hx Hy. apply Hagree; apply Hin; assumption.
  - destruct (String.eqb s "desc"); [|reflexivity].
    apply sortWith_ext. intros x y Hx Hy.
    change (ascendingIn collate y x = ascending y x).
    apply Hagree; apply Hin; assumption.
Qed.

(** With [sort: "asc"] the words [getWords] selects, and returns in the
    shape the options ask for, are in ascending order of their lowercase
    forms, and in descending order when [reverse] is set as well; with
    [sort: "desc"] it is the other way round. The order is that of the
    collation [localeCompare] uses, whichever it is, as long as it is a
    consistent comparator. This holds whatever the shuffle does and after
    the [caseOption] transform. *)
Theorem getWords_sorted (collate : string -> string -> comparison)
    (o : Options) (a : argument) (ws : list string)
    (h : gset string) (r : Rng) (v : result) (h' : gset string) (r' : Rng) :
  consistent collate ->
  getWordsIn collate o a ws h r = Return v h' r' ->
  exists n sel,
    a = Number n /\
    selectWordsIn collate o n ws h r = Ok (sel, r') /\
    v = shape o sel /\
    (sort o = Some "asc"%string /\ reverse o = false \/
     sort o = Some "desc"%string /\ reverse o = true ->
     StronglySorted (comes_first (ascendingIn collate)) sel) /\
    (sort o = Some "desc"%string /\ reverse o = false \/
     sort o = Some "asc"%string /\ reverse o = true ->
     StronglySorted (comes_first (descendingIn collate)) sel).
Proof.
  intros Hc Hret.
  destruct (getWordsIn_return_inv _ _ _ _ _ _ _ _ _ Hret)
    as (n & sel & -> & _ & Hsel & Hv & _).
  destruct (selectWordsIn_inv _ _ _ _ _ _ _ _ Hsel) as (pool & _ & Hdef).
  cbv zeta in Hdef. exists n, sel.
  split; [reflexivity|]. split; [exact Hsel|]. split; [exact Hv|].
  set (ordered := sortStageIn collate o (shuffle o (weightingStage o pool) r).1) in *.
  destruct (sortStageIn_sorted collate Hc o (shuffle o (weightingStage o pool) r).1)
    as [Hasc Hdesc]. fold ordered in Hasc, Hdesc.
  rewrite selectLoop_start in Hdef.
  assert (Hup : forall x y, comes_first (ascendingIn collate) x y ->
                  comes_first (ascendingIn collate) (caseWord o x) (caseWord o y)).
  { intros x y. unfold comes_first. rewrite ascendingIn_caseWord. auto. }
  assert (Hdown : forall x y, comes_first (descendingIn collate) x y ->
                    comes_first (descendingIn collate) (caseWord o x) (caseWord o y)).
  { intros x y. unfold comes_first, descendingIn.
    change (collate (toLowerCase (caseWord o y)) (toLowerCase (caseWord o x)))
      with (ascendingIn collate (caseWord o y) (caseWord o x)).
    rewrite ascendingIn_caseWord. auto. }
  subst sel. split.
  - intros [[Hsort ->] | [Hsort ->]].
    + apply (postProcess_sorted o _ _ Hup), StronglySorted_take, Hasc, Hsort.
    + apply (postProcess_sorted o _ _ Hup).
      apply (StronglySorted_rev (comes_first (descendingIn collate))).
      apply StronglySorted_take, Hdesc, Hsort.
  - intros [[Hsort ->] | [Hsort ->]].
    + apply (postProcess_sorted o _ _ Hdown), StronglySorted_take, Hdesc, Hsort.
    + apply (postProcess_sorted o _ _ Hdown).
      apply (StronglySorted_rev (comes_first (ascendingIn collate))).
      apply StronglySorted_take, Hasc, Hsort.
Qed.

Lemma getWords_sorted_witness :
  let o := with_asString true (with_sort (Some "asc"%string) defaults) in
  let ws := ["pear"; "Fig"; "apple"]%string in
  exists n sel,
    Number 5 = Number n /\
    selectWordsIn localeCompare o n ws ∅ lowDraws
    = Ok (sel, fun k => lowDraws (2 + k)%nat) /\
    Joined "apple, Fig, pear" = shape o sel /\
    (sort o = Some "asc"%string /\ reverse o = false \/
     sort o = Some "desc"%string /\ reverse o = true ->
     StronglySorted (comes_first (ascendingIn localeCompare)) sel) /\
    (sort o = Some "desc"%string /\ reverse o = false \/
     sort o = Some "asc"%string /\ reverse o = true ->
     StronglySorted (comes_first (descendingIn localeCompare)) sel).
Proof.
  intros o ws.
  apply (getWords_sorted localeCompare o (Number 5) ws ∅ lowDraws
           (Joined "apple, Fig, pear")
           (updateHistory ∅ ["apple"; "Fig"; "pear"]%string)
           (fun k => lowDraws (2 + k)%nat)).
  - exact localeCompare_consistent.
  - vm_compute. reflexivity.
Defined.

(** When no two different words of the pool tie in the collation, compared
    in lowercase, sorting the pool with [sort: "desc"] gives the reverse of
    sorting it with [sort: "asc"], in whatever orders the shuffle left the
    pool; the collation is any consistent comparator. *)
Theorem sort_desc_reverses_asc (collate : string -> string -> comparison)
    (o : Options) (shuffled1 shuffled2 : list string) :
  consistent collate ->
  Permutation shuffled1 shuffled2 ->
  (forall a b, a ∈ shuffled1 -> b ∈ shuffled1 ->
     ascendingIn collate a b = Eq -> a = b) ->
  sortStageIn collate (with_sort (Some "desc"%string) o) shuffled2
  = rev (sortStageIn collate (with_sort (Some "asc"%string) o) shuffled1).
Proof.
  intros Hc Hperm Hties. unfold sortStageIn. cbn.
  apply sortWith_descendingIn_rev; assumption.
Qed.

Lemma sort_desc_reverses_asc_witness :
  sortStageIn localeCompare (with_sort (Some "desc"%string) defaults)
    ["fig"; "apple"; "pear"]%string
  = rev (sortStageIn localeCompare (with_sort (Some "asc"%string) defaults)
           ["apple"; "pear"; "fig"]%string).
Proof.
  apply (sort_desc_reverses_asc localeCompare defaults
           ["apple"; "pear"; "fig"]%string ["fig"; "apple"; "pear"]%string).
  - exact localeCompare_consistent.
  - apply (perm_trans (l' := ["apple"; "fig"; "pear"]%string)).
    + apply perm_skip, perm_swap.
    + apply perm_swap.
  - intros a b Ha Hb Htie.
    assert (Hab : toLowerCase a = toLowerCase b).
    { apply localeCompare_antisym; unfold localeCompare;
        [change (ascendingIn localeCompare a b <> Gt)
        |rewrite String.compare_antisym;
         change (CompOpp (ascendingIn localeCompare a b) <> Gt)];
        rewrite Htie; discriminate. }
    repeat (apply elem_of_cons in Ha as [-> | Ha]);
      [| | |inversion Ha];
      repeat (apply elem_of_cons in Hb as [-> | Hb]);
      first [reflexivity | discriminate Hab | inversion Hb].
Defined.

(** ** The emitted words sound different *)

Lemma fmap_soundex_caseWord (o : Options) (l : list string) :
  soundex <$> (caseWord o <$> l) = soundex <$> l.
Proof.
  induction l as [|x l IH]; cbn [fmap list_fmap]; [reflexivity|].
  rewrite soundex_caseWord. f_equal. exact IH.
Qed.

(** With [phoneticDistinct] and without [weightedSelection], no two of the
    words [getWords] selects, and returns in the shape the options ask for,
    have the same phonetic code, so no word is selected twice; this holds
    after the [caseOption] transform too. *)
Theorem getWords_phonetically_distinct (o : Options) (a : argument)
    (ws : list string) (h : gset string) (r : Rng)
    (v : result) (h' : gset string) (r' : Rng) :
  shuffle_in_place o ->
  phoneticDistinct o = true ->
  weightedSelection o = None ->
  getWords o a ws h r = Return v h' r' ->
  exists n sel,
    a = Number n /\
    selectWords o n ws h r = Ok (sel, r') /\
    v = shape o sel /\
    NoDup (soundex <$> sel) /\ NoDup sel.
Proof.
  intros Hs Hpd Hw Hret.
  destruct (getWords_return_inv _ _ _ _ _ _ _ _ Hret)
    as (n & sel & -> & _ & Hsel & Hv & _).
  destruct (selectWords_inv _ _ _ _ _ _ _ Hsel) as (pool & Hpool & Hdef).
  cbv zeta in Hdef. exists n, sel.
  split; [reflexivity|]. split; [exact Hsel|]. split; [exact Hv|].
  assert (Hcodes : NoDup (soundex <$> sel)).
  { subst sel. unfold synonymsStage.
    destruct (nonempty (synonyms o)); [rewrite flatMap_to_nil; constructor|].
    rewrite caseStage_caseWord, fmap_soundex_caseWord.
    assert (Hpoolnd : NoDup (soundex <$> pool)).
    { unfold phoneticStage in Hpool. rewrite Hpd in Hpool.
      exact (proj2 (phoneticFilter_distinct _ _ _ Hpool)). }
    assert (Htaken : NoDup (soundex <$> selectLoop n
              (sortStage o (shuffle o (weightingStage o pool) r).1) [] O)).
    { rewrite selectLoop_start, fmap_take.
      apply (sublist_NoDup _ (soundex <$>
               sortStage o (shuffle o (weightingStage o pool) r).1)).
      - rewrite <- (sortStage_perm o), <- (shuffle_perm o _ r Hs).
        unfold weightingStage. rewrite Hw. exact Hpoolnd.
      - apply sublist_take. }
    destruct (reverse o); [|exact Htaken].
    rewrite <- Permutation_rev. exact Htaken. }
  split; [exact Hcodes|]. exact (NoDup_fmap_1 soundex sel Hcodes).
Qed.

Lemma getWords_phonetically_distinct_witness :
  let o := with_asString true defaults in
  let ws := ["robert"; "rupert"; "apple"]%string in
  exists n sel,
    Number 5 = Number n /\
    selectWords o n ws ∅ highDraws = Ok (sel, fun k => highDraws (S k)) /\
    Joined "robert, apple" = shape o sel /\
    NoDup (soundex <$> sel) /\ NoDup sel.
Proof.
  intros o ws.
  apply (getWords_phonetically_distinct o (Number 5) ws ∅ highDraws
           (Joined "robert, apple")
           (updateHistory ∅ ["robert"; "apple"]%string)
           (fun k => highDraws (S k))).
  - intros f Hf. discriminate Hf.
  - reflexivity.
  - reflexivity.
  - vm_compute. reflexivity.
Defined.

(** ** The [reverse] option *)

Lemma updateHistory_perm (h : gset string) (l1 l2 : list string) :
  Permutation l1 l2 -> updateHistory h l1 = updateHistory h l2.
Proof.
  intros Hperm. rewrite !updateHistory_union. apply set_eq. intros x.
  rewrite !elem_of_union, !elem_of_list_to_set, Hperm. reflexivity.
Qed.

Lemma postProcess_rev (o : Options) (taken : list string) :
  synonymsStage o (caseStage o (rev taken))
  = rev (synonymsStage o (caseStage o taken)).
Proof.
  unfold synonymsStage. destruct (nonempty (synonyms o)).
  - rewrite !flatMap_to_nil. reflexivity.
  - rewrite !caseStage_caseWord. apply map_rev.
Qed.

(** The selection of a call with [reverse: true] is the reverse of the
    selection of the same call with [reverse: false]. *)
Lemma selectWords_reverse (o : Options) (n : Z) (ws : list string)
    (h : gset string) (r : Rng) :
  selectWords (with_reverse true o) n ws h r
  = match selectWords (with_reverse false o) n ws h r with
    | Ok (sel, r') => Ok (rev sel, r')
    | Raise e => Raise e
    end.
Proof.
  change (selectWords (with_reverse true o) n ws h r)
    with (filteredWords ← phoneticStage o (predicateStage o h ws);
          let '(shuffled, rng) := shuffle o (weightingStage o filteredWords) r in
          Ok (synonymsStage o
                (caseStage o (rev (selectLoop n (sortStage o shuffled) [] O))),
              rng)).
  change (selectWords (with_reverse false o) n ws h r)
    with (filteredWords ← phoneticStage o (predicateStage o h ws);
          let '(shuffled, rng) := shuffle o (weightingStage o filteredWords) r in
          Ok (synonymsStage o
                (caseStage o (selectLoop n (sortStage o shuffled) [] O)),
              rng)).
  destruct (phoneticStage o (predicateStage o h ws)) as [pool|e];
    cbn [mbind attempt_bind]; [|reflexivity].
  destruct (shuffle o (weightingStage o pool) r) as [shuffled r1].
  rewrite postProcess_rev. reflexivity.
Qed.

(** [reverse: true] returns the words of the same call with
    [reverse: false] in reverse order: the words taken are the same, History
    and the random source end up the same. *)
Theorem reverse_option_reverses (o : Options) (a : argument)
    (ws : list string) (h : gset string) (r : Rng)
    (out : list string) (h' : gset string) (r' : Rng) :
  asString o = false ->
  includeMetadata o = false ->
  getWords (with_reverse false o) a ws h r = Return (Words out) h' r' ->
  getWords (with_reverse true o) a ws h r = Return (Words (rev out)) h' r'.
Proof.
  intros Has Hmeta Hret.
  destruct (getWords_return_inv _ _ _ _ _ _ _ _ Hret)
    as (n & sel & -> & Hn & Hsel & Hv & ->).
  assert (Hout : out = sel).
  { unfold shape in Hv. cbn in Hv. rewrite Has, Hmeta in Hv.
    injection Hv as ->. reflexivity. }
  subst out. rewrite getWords_positive by exact Hn.
  rewrite selectWords_reverse, Hsel.
  unfold shape. cbn. rewrite Has, Hmeta.
  rewrite (updateHistory_perm h (rev sel) sel) by (symmetry; apply Permutation_rev).
  reflexivity.
Qed.

Lemma reverse_option_reverses_witness :
  getWords (with_reverse true defaults) (Number 2)
    ["apple"; "pear"; "fig"]%string ∅ highDraws
  = Return (Words (rev ["apple"; "pear"]%string))
      (updateHistory ∅ ["apple"; "pear"]%string)
      (fun k => highDraws (2 + k)%nat).
Proof.
  apply (reverse_option_reverses defaults (Number 2)
           ["apple"; "pear"; "fig"]%string ∅ highDraws).
  - reflexivity.
  - reflexivity.
  - vm_compute. reflexivity.
Defined.

(** ** The Scrabble score *)

Lemma score_fold (l : list ascii) (acc : Z) :
  fold_left (fun acc char => acc + scores char) l acc
  = acc + fold_left (fun acc char => acc + scores char) l 0.
Proof.
  revert acc. induction l as [|c l IH]; intros acc; cbn [fold_left]; [lia|].
  rewrite (IH (acc + scores c)), (IH (0 + scores c)). lia.
Qed.

Lemma scores_bounds (c : ascii) : 0 <= scores c <= 10.
Proof. destruct c as [[] [] [] [] [] [] [] []]; vm_compute; split; discriminate. Qed.

Lemma score_cons (c : ascii) (w : string) :
  calculateScrabbleScore (String c w)
  = scores (toLowerCaseChar c) + calculateScrabbleScore w.
Proof.
  unfold calculateScrabbleScore, toLowerCase, chars.
  cbn [map_string String.list_ascii_of_string fold_left].
  rewrite score_fold. lia.
Qed.

Lemma score_bounds (w : string) :
  0 <= calculateScrabbleScore w <= 10 * len w.
Proof.
  unfold len, JsString.length. induction w as [|c w IH]; [vm_compute; split; discriminate|].
  rewrite score_cons. cbn [String.length].
  pose proof (scores_bounds (toLowerCaseChar c)). lia.
Qed.

Lemma append_cons (c : ascii) (a b : string) :
  String.append (String c a) b = String c (String.append a b).
Proof. reflexivity. Qed.

(** The score of a word is at least 0 and at most 10 points a character;
    it adds up over concatenation, and it does not depend on case. *)
Theorem calculateScrabbleScore_properties (a b : string) :
  0 <= calculateScrabbleScore a <= 10 * len a /\
  calculateScrabbleScore (String.append a b)
  = calculateScrabbleScore a + calculateScrabbleScore b /\
  calculateScrabbleScore (toUpperCase a) = calculateScrabbleScore a /\
  calculateScrabbleScore (toLowerCase a) = calculateScrabbleScore a.
Proof.
  split; [apply score_bounds|]. split; [|split].
  - induction a as [|c a IH]; [reflexivity|].
    rewrite append_cons, !score_cons, IH. lia.
  - unfold calculateScrabbleScore. rewrite toLowerCase_toUpperCase. reflexivity.
  - unfold calculateScrabbleScore. rewrite toLowerCase_idemp. reflexivity.
Qed.

Lemma score_caseWord (o : Options) (w : string) :
  calculateScrabbleScore (caseWord o w) = calculateScrabbleScore w.
Proof. unfold calculateScrabbleScore. rewrite toLowerCase_caseWord. reflexivity. Qed.

(** With a [scrabbleScoreRange] of two numbers, the score of every emitted
    word lies within the range, bounds included; when the first bound is
    above the second, no word is emitted. *)
Theorem getWords_respects_scrabbleScoreRange (o : Options) (a : argument)
    (ws : list string) (h : gset string) (r : Rng)
    (v : result) (h' : gset string) (r' : Rng) (minScore maxScore : Z) :
  shuffle_in_place o ->
  scrabbleScoreRange o = Some [minScore; maxScore] ->
  getWords o a ws h r = Return v h' r' ->
  exists sel,
    carries v sel /\
    (forall w, w ∈ sel -> minScore <= calculateScrabbleScore w <= maxScore) /\
    (maxScore < minScore -> sel = []).
Proof.
  intros Hs Hrange Hret.
  destruct (getWords_selected _ _ _ _ _ _ _ _ Hret)
    as (n & sel & _ & _ & Hsel & Hv & _).
  exists sel. split; [exact Hv|].
  assert (Hall : forall w, w ∈ sel ->
                   minScore <= calculateScrabbleScore w <= maxScore).
  { intros w Hw.
    destruct (selectWords_origin o n ws h r sel r' w Hs Hsel Hw)
      as (w0 & -> & _ & Hkeep).
    rewrite score_caseWord. exact (keepWord_scrabble _ _ _ _ _ _ _ Hkeep Hrange). }
  split; [exact Hall|].
  intros Hinv. destruct sel as [|w sel]; [reflexivity|].
  assert (Hw : w ∈ w :: sel) by (apply elem_of_cons; left; reflexivity).
  specialize (Hall w Hw). lia.
Qed.

Lemma getWords_respects_scrabbleScoreRange_witness :
  let o := with_scrabbleScoreRange (Some [1; 8]) defaults in
  exists sel,
    carries (Words ["ace"%string]) sel /\
    (forall w, w ∈ sel -> 1 <= calculateScrabbleScore w <= 8) /\
    (8 < 1 -> sel = []).
Proof.
  intros o.
  apply (getWords_respects_scrabbleScoreRange o (Number 5)
           ["ace"; "quiz"]%string ∅ lowDraws
           (Words ["ace"%string]) (updateHistory ∅ ["ace"%string]) lowDraws).
  - intros f Hf. discriminate Hf.
  - reflexivity.
  - vm_compute. reflexivity.
Defined.

(** ** The default shuffle *)










(** ** The Phonetic Dedup Stage is idempotent *)

Lemma phoneticFilter_fixed (out : list string) :
  forall m : gset string,
    NoDup (soundex <$> out) ->
    (forall w, w ∈ out -> exists s, soundex w = Ok s /\ s ∉ m) ->
    phoneticFilter m out = Ok out.
Proof.
  induction out as [|w out IH]; intros m Hnd Hnew; [reflexivity|].
  cbn [fmap list_fmap] in Hnd. apply NoDup_cons in Hnd as [Hw Hnd].
  destruct (Hnew w) as (s & Hs & Hnot); [apply elem_of_cons; left; reflexivity|].
  cbn [phoneticFilter]. rewrite Hs. cbn [mbind attempt_bind].
  rewrite bool_decide_eq_false_2 by exact Hnot.
  rewrite (IH ({[ s ]} ∪ m) Hnd); [reflexivity|].
  intros x Hx. destruct (Hnew x) as (t & Ht & Htm);
    [apply elem_of_cons; right; exact Hx|].
  exists t. split; [exact Ht|].
  intros Hin. apply elem_of_union in Hin as [Hin|Hin]; [|exact (Htm Hin)].
  apply elem_of_singleton in Hin. subst t.
  apply Hw. rewrite Hs, <- Ht. apply list_elem_of_fmap. exists x. auto.
Qed.

(** Running the Phonetic Dedup Stage on what it returned returns the same
    words: nothing more is dropped and it does not throw. *)
Theorem phoneticStage_idempotent (o : Options) (ws out : list string) :
  phoneticStage o ws = Ok out -> phoneticStage o out = Ok out.
Proof.
  unfold phoneticStage. destruct (phoneticDistinct o); [|reflexivity].
  intros Hout. destruct (phoneticFilter_distinct ws ∅ out Hout) as [Hnew Hnd].
  apply phoneticFilter_fixed; assumption.
Qed.

Lemma phoneticStage_idempotent_witness :
  phoneticStage defaults ["robert"; "apple"]%string
  = Ok ["robert"; "apple"]%string.
Proof.
  apply (phoneticStage_idempotent defaults ["robert"; "rupert"; "apple"]%string).
  vm_compute. reflexivity.
Defined.

(** ** Repeated letters *)

Lemma occurrences_cons (c d : ascii) (cs : list ascii) :
  occurrences c (d :: cs)
  = ((if Ascii.eqb c d then 1 else 0) + occurrences c cs)%nat.
Proof. unfold occurrences. cbn [List.filter]. destruct (Ascii.eqb c d); reflexivity. Qed.

(** The loop of [maxRepeatLetters] reaches its [return false] exactly when
    some character, counted with what [letterCounts] holds, occurs more
    often than the bound. *)
Lemma exceedsRepeat_spec (n : Z) (cs : list ascii) :
  forall m : gmap ascii Z,
    (forall d, default 0 (m !! d) <= n) ->
    exceedsRepeat n m cs = true <->
    exists c, n < default 0 (m !! c) + Z.of_nat (occurrences c cs).
Proof.
  induction cs as [|d cs IH]; intros m Hm.
  - cbn. split; [discriminate|]. intros (c & Hc). specialize (Hm c). lia.
  - cbn [exceedsRepeat].
    destruct (Z.gtb_spec (default 0 (m !! d) + 1) n) as [Hgt|Hle].
    + split; [|reflexivity]. intros _. exists d.
      rewrite occurrences_cons, Ascii.eqb_refl. lia.
    + rewrite (IH (<[d := default 0 (m !! d) + 1]> m)).
      * split; intros (c & Hc); exists c; revert Hc;
          rewrite occurrences_cons;
          (destruct (Ascii.eqb_spec c d) as [->|Hne];
           [rewrite lookup_insert_eq|rewrite lookup_insert_ne by congruence];
           cbn [from_option id]; lia).
      * intros c. destruct (decide (d = c)) as [->|Hne].
        -- rewrite lookup_insert_eq. cbn [from_option id]. lia.
        -- rewrite lookup_insert_ne by exact Hne. apply Hm.
Qed.

Lemma keepWord_maxRepeatLetters (o : Options) (h : gset string)
    (wl bl : option (gset string)) (w : string) (n : Z) :
  keepWord o h wl bl w = true ->
  maxRepeatLetters o = Some n -> 0 < n ->
  forall c, Z.of_nat (occurrences c (chars (toLowerCase w))) <= n.
Proof.
  intros H Hmax Hn. filter_passed H. rewrite Hmax in *. cbn [when_number] in *.
  match goal with
  | Hc : (n >? 0) && exceedsRepeat n ∅ _ = false |- _ =>
      rename Hc into Hloop
  end.
  replace (n >? 0) with true in Hloop by (symmetry; apply Z.gtb_lt; lia).
  cbn [andb] in Hloop. intros c.
  destruct (Z.le_gt_cases (Z.of_nat (occurrences c (chars (toLowerCase w)))) n)
    as [Hle|Hgt]; [exact Hle|].
  assert (Htrue : exceedsRepeat n ∅ (chars (toLowerCase w)) = true).
  { apply exceedsRepeat_spec.
    - intros d. rewrite lookup_empty. cbn. lia.
    - exists c. rewrite lookup_empty. cbn [from_option id]. lia. }
  congruence.
Qed.

(** With a positive [maxRepeatLetters], no character occurs in an emitted
    word more often than that, upper and lower case counted together. *)
Theorem getWords_respects_maxRepeatLetters (o : Options) (a : argument)
    (ws : list string) (h : gset string) (r : Rng)
    (v : result) (h' : gset string) (r' : Rng) (n : Z) :
  shuffle_in_place o ->
  maxRepeatLetters o = Some n -> 0 < n ->
  getWords o a ws h r = Return v h' r' ->
  exists sel,
    carries v sel /\
    forall w c, w ∈ sel ->
      Z.of_nat (occurrences c (chars (toLowerCase w))) <= n.
Proof.
  intros Hs Hmax Hn Hret.
  destruct (getWords_selected _ _ _ _ _ _ _ _ Hret)
    as (n' & sel & _ & _ & Hsel & Hv & _).
  exists sel. split; [exact Hv|]. intros w c Hw.
  destruct (selectWords_origin o n' ws h r sel r' w Hs Hsel Hw)
    as (w0 & -> & _ & Hkeep).
  rewrite toLowerCase_caseWord.
  exact (keepWord_maxRepeatLetters _ _ _ _ _ _ Hkeep Hmax Hn c).
Qed.

Lemma getWords_respects_maxRepeatLetters_witness :
  let o := with_maxRepeatLetters (Some 1) defaults in
  exists sel,
    carries (Words ["pear"%string]) sel /\
    forall w c, w ∈ sel ->
      Z.of_nat (occurrences c (chars (toLowerCase w))) <= 1.
Proof.
  intros o.
  apply (getWords_respects_maxRepeatLetters o (Number 5)
           ["Apple"; "pear"]%string ∅ lowDraws
           (Words ["pear"%string]) (updateHistory ∅ ["pear"%string]) lowDraws).
  - intros f Hf. discriminate Hf.
  - reflexivity.
  - lia.
  - vm_compute. reflexivity.
Defined.

(** * Properties of the word source *)

(** ** What [words.txt] is read as *)

Lemma chars_rev_app (s1 s2 : string) :
  chars (String.rev_app s1 s2) = rev (chars s1) ++ chars s2.
Proof.
  revert s2. induction s1 as [|c s1 IH]; intros s2; [reflexivity|].
  cbn [String.rev_app]. rewrite IH.
  change (chars (String c s2)) with (c :: chars s2).
  change (chars (String c s1)) with (c :: chars s1).
  cbn [rev]. rewrite <- app_assoc. reflexivity.
Qed.

Lemma chars_rev (s : string) : chars (String.rev s) = rev (chars s).
Proof. unfold String.rev. rewrite chars_rev_app. apply app_nil_r. Qed.

Lemma chars_inj (s1 s2 : string) : chars s1 = chars s2 -> s1 = s2.
Proof.
  unfold chars. intros H.
  rewrite <- (String.string_of_list_ascii_of_string s1),
          <- (String.string_of_list_ascii_of_string s2), H.
  reflexivity.
Qed.

Lemma string_rev_involutive (s : string) : String.rev (String.rev s) = s.
Proof. apply chars_inj. rewrite !chars_rev. apply rev_involutive. Qed.









(** ** No word source *)

(** When there is no custom array and neither file exists: an amount that
    is not a positive number is still rejected by the guard, and the
    process goes on; for a positive amount the process ends with status 1
    when there is no error handler; with a handler, the handler gets the
    error and the call returns the empty result on the empty word list,
    leaving History and the random source as they were. *)
Theorem getWords_without_source (o : Options) (a : argument)
    (customErrorHandler : bool) (h : gset string) (r : Rng) :
  let files := {| words_txt := None; words_js := None |} in
  let call := getWordsWithSource o a None customErrorHandler files h r in
  (~ is_positive a ->
   call = {| handled := None;
             ended := Finished (Throw (Error positive_number_message) h r) |}) /\
  (is_positive a -> customErrorHandler = false ->
   call = {| handled := None; ended := Exited 1 |}) /\
  (is_positive a -> customErrorHandler = true -> shuffle_in_place o ->
   call = {| handled := Some (Error no_source_message);
             ended := Finished (Return (emptyResult o) h r) |}).
Proof.
  intros files call. subst call files. unfold getWordsWithSource.
  destruct a as [n|]; cbn [is_positive].
  - destruct (Z.leb_spec n 0) as [Hle|Hpos].
    + split; [reflexivity|]. split; intros Hn; lia.
    + split; [intros Hn; lia|]. cbn [loadWords words_txt words_js]. split.
      * intros _ ->. reflexivity.
      * intros _ -> Hs. cbv beta iota zeta.
        rewrite getWords_positive by exact Hpos.
        rewrite (selectWords_no_survivor o n [] h r Hs eq_refl).
        reflexivity.
  - split; [reflexivity|]. split; intros [].
Qed.

Lemma getWords_without_source_witness :
  getWordsWithSource defaults (Number 3) None true
    {| words_txt := None; words_js := None |} ∅ lowDraws
  = {| handled := Some (Error no_source_message);
       ended := Finished (Return (Words []) ∅ lowDraws) |}.
Proof.
  apply (getWords_without_source defaults (Number 3) true ∅ lowDraws).
  - simpl. lia.
  - reflexivity.
  - intros f Hf. discriminate Hf.
Defined.

(** ** Writing [words.txt] and reading it back *)

Lemma splitLines_line (w : string) :
  ~ In "010"%char (chars w) -> splitLines w = [w].
Proof.
  induction w as [|c w IH]; intros Hnl; [reflexivity|].
  cbn [splitLines]. destruct (Ascii.eqb_spec c "010") as [->|Hne].
  - exfalso. apply Hnl. left. reflexivity.
  - rewrite IH; [reflexivity|]. intros Hin. apply Hnl. right. exact Hin.
Qed.

Lemma splitLines_append (w rest : string) :
  ~ In "010"%char (chars w) ->
  splitLines (String.append w (String "010" rest)) = w :: splitLines rest.
Proof.
  induction w as [|c w IH]; intros Hnl.
  - change (String.append "" (String "010" rest)) with (String "010" rest).
    reflexivity.
  - rewrite append_cons. cbn [splitLines].
    destruct (Ascii.eqb_spec c "010") as [->|Hne].
    + exfalso. apply Hnl. left. reflexivity.
    + rewrite IH; [reflexivity|]. intros Hin. apply Hnl. right. exact Hin.
Qed.

Lemma splitLines_join (ws : list string) :
  ws <> [] ->
  Forall (fun w => ~ In "010"%char (chars w)) ws ->
  splitLines (join (String "010" "") ws) = ws.
Proof.
  unfold join. induction ws as [|w ws IH]; intros Hne Hall; [congruence|].
  apply Forall_cons in Hall as [Hw Hall]. destruct ws as [|x ws].
  - cbn [String.concat]. apply splitLines_line, Hw.
  - change (String.concat (String "010" "") (w :: x :: ws))
      with (String.append w
              (String "010" (String.concat (String "010" "") (x :: ws)))).
    rewrite (splitLines_append w _ Hw), IH; [reflexivity|discriminate|exact Hall].
Qed.

Lemma trimStart_id (s : string) :
  (forall c, head (chars s) = Some c -> is_space c = false) ->
  trimStart s = s.
Proof.
  destruct s as [|c s]; intros Hhead; [reflexivity|].
  cbn [trimStart]. rewrite (Hhead c eq_refl). reflexivity.
Qed.

Lemma head_rev (l : list ascii) : head (rev l) = last l.
Proof.
  induction l as [|c l IH] using rev_ind; [reflexivity|].
  rewrite rev_app_distr, last_snoc. reflexivity.
Qed.

Lemma trim_id (s : string) :
  (forall c, head (chars s) = Some c -> is_space c = false) ->
  (forall c, last (chars s) = Some c -> is_space c = false) ->
  trim s = s.
Proof.
  intros Hhead Hlast. unfold trim. rewrite (trimStart_id s Hhead).
  rewrite trimStart_id; [apply string_rev_involutive|].
  intros c. rewrite chars_rev, head_rev. apply Hlast.
Qed.

Lemma dropLastQuote_id (s : string) :
  (forall c, last (chars s) = Some c -> is_quote c = false) ->
  dropLastQuote s = s.
Proof.
  induction s as [|c s IH]; intros Hlast; [reflexivity|].
  cbn [dropLastQuote]. destruct s as [|d s].
  - rewrite (Hlast c eq_refl). reflexivity.
  - f_equal. apply IH. intros x Hx. apply Hlast.
    change (chars (String c (String d s))) with (c :: chars (String d s)).
    change (chars (String d s)) with (d :: chars s) in Hx |- *.
    rewrite last_cons_cons. exact Hx.
Qed.

Lemma stripQuotes_id (s : string) :
  (forall c, head (chars s) = Some c -> is_quote c = false) ->
  (forall c, last (chars s) = Some c -> is_quote c = false) ->
  stripQuotes s = s.
Proof.
  intros Hhead Hlast. destruct s as [|c s]; [reflexivity|].
  cbn [stripQuotes]. rewrite (Hhead c eq_refl).
  apply dropLastQuote_id, Hlast.
Qed.

Lemma plain_word_read_back (w : string) :
  plain_word w ->
  stripQuotes (trim w) = w /\ (0 <? JsString.length w)%nat = true.
Proof.
  intros (Hne & _ & Hhead & Hlast). split.
  - rewrite trim_id.
    + apply stripQuotes_id; intros c Hc; [apply (Hhead c Hc)|apply (Hlast c Hc)].
    + intros c Hc. apply (Hhead c Hc).
    + intros c Hc. apply (Hlast c Hc).
  - destruct w; [congruence|reflexivity].
Qed.

(** A [words.txt] written with one word a line is read back as the same
    words, in the same order, when the words are not empty and have
    neither a line feed inside nor white space or a quote at either end. *)
Theorem parseWordsTxt_round_trip (ws : list string) :
  Forall plain_word ws ->
  parseWordsTxt (join (String "010" "") ws) = ws.
Proof.
  intros Hall. destruct ws as [|w0 ws0] eqn:Hws; [reflexivity|].
  rewrite <- Hws in *. unfold parseWordsTxt.
  rewrite splitLines_join.
  - clear Hws. induction Hall as [|w ws Hw Hall IH]; [reflexivity|].
    cbn [fmap list_fmap List.filter].
    destruct (plain_word_read_back w Hw) as [-> ->]. f_equal. exact IH.
  - rewrite Hws. discriminate.
  - eapply Forall_impl; [exact Hall|]. intros w (_ & Hnl & _). exact Hnl.
Qed.

Lemma parseWordsTxt_round_trip_witness :
  parseWordsTxt (join (String "010" "") ["apple"; "it's"; "x y"]%string)
  = ["apple"; "it's"; "x y"]%string.
Proof.
  apply (parseWordsTxt_round_trip ["apple"; "it's"; "x y"]%string).
  repeat constructor; try discriminate;
    try (simpl; intuition discriminate);
    injection H as <-; reflexivity.
Defined.

(** * Further properties of the stages *)

(** ** Weights *)

Lemma selectWords_from_weighted (o : Options) (n : Z) (ws : list string)
    (h : gset string) (r : Rng) (sel : list string) (r' : Rng) (w : string) :
  shuffle_in_place o ->
  selectWords o n ws h r = Ok (sel, r') ->
  w ∈ sel ->
  exists pool w0,
    phoneticStage o (predicateStage o h ws) = Ok pool /\
    w = caseWord o w0 /\ w0 ∈ weightingStage o pool.
Proof.
  intros Hs Hsel Hw.
  destruct (selectWords_inv _ _ _ _ _ _ _ Hsel) as (pool & Hpool & Hdef).
  cbv zeta in Hdef. subst sel.
  apply synonymsStage_elem in Hw. rewrite caseStage_caseWord in Hw.
  apply list_elem_of_fmap in Hw as (w0 & -> & Hw0).
  exists pool, w0. split; [exact Hpool|]. split; [reflexivity|].
  assert (Htaken : w0 ∈ selectLoop n
            (sortStage o (shuffle o (weightingStage o pool) r).1) [] O).
  { destruct (reverse o); [|exact Hw0].
    apply list_elem_of_In, in_rev, list_elem_of_In. exact Hw0. }
  rewrite selectLoop_start in Htaken.
  pose proof (elem_of_sublist _ _ _ Htaken (sublist_take _ _)) as Hsorted.
  rewrite <- (sortStage_perm o), <- (shuffle_perm o _ r Hs) in Hsorted.
  exact Hsorted.
Qed.

Lemma weightingStage_elem_weight (o : Options) (ws : gmap string Z)
    (pool : list string) (w : string) :
  weightedSelection o = Some ws ->
  w ∈ weightingStage o pool -> exists n, weightOf ws w = NumberValue n /\ 0 < n.
Proof.
  intros Ho Hin. rewrite (weightingStage_flat_map o ws pool Ho) in Hin.
  apply list_elem_of_In, in_flat_map in Hin as (v & _ & Hin).
  apply list_elem_of_In, elem_of_copies in Hin as [-> Hn]. exact Hn.
Qed.

(** In the expanded pool a word with a positive weight stands that many
    times for each time it stood in the pool, and a word with a negative
    weight does not stand at all. *)
Theorem weightingStage_counts (o : Options) (ws : gmap string Z)
    (pool : list string) (w : string) (k : Z) :
  weightedSelection o = Some ws ->
  ws !! toLowerCase w = Some k ->
  (0 < k ->
   count_occ string_dec (weightingStage o pool) w
   = (Z.to_nat k * count_occ string_dec pool w)%nat) /\
  (k < 0 -> w ∉ weightingStage o pool).
Proof.
  intros Ho Hk.
  assert (Hweight : k <> 0 -> weightOf ws w = NumberValue k).
  { intros Hne. unfold weightOf, readMember. rewrite Hk.
    destruct (Z.eqb_spec k 0); [contradiction|reflexivity]. }
  split.
  - intros Hpos.
    rewrite (weightingStage_flat_map o ws pool Ho), count_occ_weighting.
    rewrite Hweight by lia. reflexivity.
  - intros Hneg Hin.
    destruct (weightingStage_elem_weight o ws pool w Ho Hin) as (n & Hw & Hn).
    rewrite Hweight in Hw by lia. injection Hw as <-. lia.
Qed.

Lemma weightingStage_counts_witness :
  let ws : gmap string Z := {[ "apple"%string := 2 ]} in
  let o := with_weightedSelection (Some ws) defaults in
  (0 < 2 ->
   count_occ string_dec (weightingStage o ["Apple"; "pear"]%string) "Apple"%string
   = (Z.to_nat 2 * count_occ string_dec ["Apple"; "pear"]%string "Apple"%string)%nat) /\
  (2 < 0 -> "Apple"%string ∉ weightingStage o ["Apple"; "pear"]%string).
Proof.
  intros ws o.
  apply (weightingStage_counts o ws ["Apple"; "pear"]%string "Apple"%string 2).
  - reflexivity.
  - vm_compute. reflexivity.
Defined.

(** No emitted word has a negative weight in [weightedSelection]: such a
    word is dropped by the Weighting Stage, whatever its case. *)
Theorem getWords_drops_negative_weights (o : Options) (a : argument)
    (ws : list string) (h : gset string) (r : Rng)
    (v : result) (h' : gset string) (r' : Rng) (weights : gmap string Z) :
  shuffle_in_place o ->
  weightedSelection o = Some weights ->
  getWords o a ws h r = Return v h' r' ->
  exists sel,
    carries v sel /\
    forall w k, w ∈ sel -> weights !! toLowerCase w = Some k -> 0 <= k.
Proof.
  intros Hs Ho Hret.
  destruct (getWords_selected _ _ _ _ _ _ _ _ Hret)
    as (n & sel & _ & _ & Hsel & Hv & _).
  exists sel. split; [exact Hv|]. intros w k Hw Hk.
  destruct (selectWords_from_weighted o n ws h r sel r' w Hs Hsel Hw)
    as (pool & w0 & _ & -> & Hin).
  rewrite toLowerCase_caseWord in Hk.
  destruct (weightingStage_elem_weight o weights pool w0 Ho Hin)
    as (m & Hm & Hpos).
  unfold weightOf, readMember in Hm. rewrite Hk in Hm.
  destruct (Z.eqb_spec k 0); [lia|]. injection Hm as <-. lia.
Qed.

Lemma getWords_drops_negative_weights_witness :
  let weights : gmap string Z := {[ "apple"%string := -1 ]} in
  let o := with_weightedSelection (Some weights) defaults in
  exists sel,
    carries (Words ["pear"%string]) sel /\
    forall w k, w ∈ sel -> weights !! toLowerCase w = Some k -> 0 <= k.
Proof.
  intros weights o.
  apply (getWords_drops_negative_weights o (Number 5) ["apple"; "pear"]%string
           ∅ lowDraws (Words ["pear"%string])
           (updateHistory ∅ ["pear"%string]) lowDraws weights).
  - intros f Hf. discriminate Hf.
  - reflexivity.
  - vm_compute. reflexivity.
Defined.

(** ** Prefixes, suffixes and substrings *)

Lemma keepWord_affixes (o : Options) (h : gset string)
    (wl bl : option (gset string)) (w : string) :
  keepWord o h wl bl w = true ->
  (forall l, filterStartsWith o = Some l -> l <> [] ->
     exists p, p ∈ l /\ startsWith (toLowerCase w) (toLowerCase p) = true) /\
  (forall l, filterEndsWith o = Some l -> l <> [] ->
     exists p, p ∈ l /\ endsWith (toLowerCase w) (toLowerCase p) = true) /\
  (forall l p, excludeSubstrings o = Some l -> p ∈ l ->
     includes (toLowerCase w) (toLowerCase p) = false).
Proof.
  intros H. filter_passed H. split; [|split].
  - intros l Hl Hne. rewrite Hl in *. destruct l as [|p l]; [congruence|].
    cbn [when_nonempty] in *.
    match goal with
    | Hc : negb (existsb (fun prefix => startsWith _ _) (p :: l)) = false |- _ =>
        apply negb_false_iff, existsb_exists in Hc as (q & Hq & Hstart);
        exists q; split; [apply list_elem_of_In, Hq|exact Hstart]
    end.
  - intros l Hl Hne. rewrite Hl in *. destruct l as [|p l]; [congruence|].
    cbn [when_nonempty] in *.
    match goal with
    | Hc : negb (existsb (fun suffix => endsWith _ _) (p :: l)) = false |- _ =>
        apply negb_false_iff, existsb_exists in Hc as (q & Hq & Hend);
        exists q; split; [apply list_elem_of_In, Hq|exact Hend]
    end.
  - intros l p Hl Hp. rewrite Hl in *. destruct l as [|q l]; [inversion Hp|].
    cbn [when_nonempty] in *.
    match goal with
    | Hc : existsb (fun sub => includes _ _) (q :: l) = false |- _ =>
        destruct (includes (toLowerCase w) (toLowerCase p)) eqn:Hinc;
          [|reflexivity];
        assert (Hex : existsb (fun sub =>
                   includes (toLowerCase w) (toLowerCase sub)) (q :: l) = true)
          by (apply existsb_exists; exists p;
              split; [apply list_elem_of_In, Hp|exact Hinc]);
        congruence
    end.
Qed.

(** With a non-empty [filterStartsWith] every emitted word starts with one
    of the prefixes, with a non-empty [filterEndsWith] it ends with one of
    the suffixes, and it contains none of the [excludeSubstrings]; all
    three without regard to case. *)
Theorem getWords_respects_affixes (o : Options) (a : argument)
    (ws : list string) (h : gset string) (r : Rng)
    (v : result) (h' : gset string) (r' : Rng) :
  shuffle_in_place o ->
  getWords o a ws h r = Return v h' r' ->
  exists sel,
    carries v sel /\
    forall w, w ∈ sel ->
      (forall l, filterStartsWith o = Some l -> l <> [] ->
         exists p, p ∈ l /\ startsWith (toLowerCase w) (toLowerCase p) = true) /\
      (forall l, filterEndsWith o = Some l -> l <> [] ->
         exists p, p ∈ l /\ endsWith (toLowerCase w) (toLowerCase p) = true) /\
      (forall l p, excludeSubstrings o = Some l -> p ∈ l ->
         includes (toLowerCase w) (toLowerCase p) = false).
Proof.
  intros Hs Hret.
  destruct (getWords_selected _ _ _ _ _ _ _ _ Hret)
    as (n & sel & _ & _ & Hsel & Hv & _).
  exists sel. split; [exact Hv|]. intros w Hw.
  destruct (selectWords_origin o n ws h r sel r' w Hs Hsel Hw)
    as (w0 & -> & _ & Hkeep).
  rewrite toLowerCase_caseWord. exact (keepWord_affixes _ _ _ _ _ Hkeep).
Qed.

Lemma getWords_respects_affixes_witness :
  let o := with_filterStartsWith (Some ["AP"%string]) defaults in
  exists sel,
    carries (Words ["apple"%string]) sel /\
    forall w, w ∈ sel ->
      (forall l, filterStartsWith o = Some l -> l <> [] ->
         exists p, p ∈ l /\ startsWith (toLowerCase w) (toLowerCase p) = true) /\
      (forall l, filterEndsWith o = Some l -> l <> [] ->
         exists p, p ∈ l /\ endsWith (toLowerCase w) (toLowerCase p) = true) /\
      (forall l p, excludeSubstrings o = Some l -> p ∈ l ->
         includes (toLowerCase w) (toLowerCase p) = false).
Proof.
  intros o.
  apply (getWords_respects_affixes o (Number 5) ["apple"; "pear"]%string
           ∅ lowDraws (Words ["apple"%string])
           (updateHistory ∅ ["apple"%string]) lowDraws).
  - intros f Hf. discriminate Hf.
  - vm_compute. reflexivity.
Defined.

(** ** The empty whitelist *)

(** A [whitelist] that is the empty array lets no word pass: for a positive
    amount [getWords] returns the empty result and leaves History as it
    was. *)
Theorem empty_whitelist_rejects_all (o : Options) (n : Z) (ws : list string)
    (h : gset string) (r : Rng) :
  0 < n ->
  whitelist o = Some [] ->
  shuffle_in_place o ->
  getWords o (Number n) ws h r = Return (emptyResult o) h r.
Proof.
  intros Hn Hwl Hs. rewrite getWords_positive by exact Hn.
  rewrite (selectWords_no_survivor o n ws h r Hs); [reflexivity|].
  unfold predicateStage. apply filter_all_false. intros w.
  rewrite Hwl. cbn [lowerSet fmap option_fmap option_map list_fmap list_to_set foldr].
  assert (Hc : from_option
                 (fun s : gset string => negb (bool_decide (toLowerCase w ∈ s)))
                 false (Some ∅) = true).
  { cbn [from_option]. rewrite bool_decide_eq_false_2; [reflexivity|].
    apply not_elem_of_empty. }
  filter_rejects Hc.
Qed.

Lemma empty_whitelist_rejects_all_witness :
  getWords (with_whitelist (Some []) defaults) (Number 3)
    ["apple"; "pear"]%string ∅ lowDraws
  = Return (Words []) ∅ lowDraws.
Proof.
  apply (empty_whitelist_rejects_all (with_whitelist (Some []) defaults) 3).
  - lia.
  - reflexivity.
  - intros f Hf. discriminate Hf.
Defined.

(** ** Words without a repeated character *)

Lemma length_remove_dups_le (l : list ascii) :
  (List.length (remove_dups l) <= List.length l)%nat.
Proof.
  induction l as [|x l IH]; cbn [remove_dups List.length]; [lia|].
  destruct (decide_rel elem_of x l); cbn [List.length]; lia.
Qed.

Lemma length_remove_dups_NoDup (l : list ascii) :
  List.length (remove_dups l) = List.length l <-> NoDup l.
Proof.
  induction l as [|x l IH]; [split; [constructor|reflexivity]|].
  cbn [remove_dups List.length].
  pose proof (length_remove_dups_le l) as Hle.
  destruct (decide_rel elem_of x l) as [Hin|Hnot]; cbn [List.length].
  - split; [lia|]. intros Hnd. apply NoDup_cons in Hnd as [Hx _]. contradiction.
  - rewrite NoDup_cons. split.
    + intros Hlen. split; [exact Hnot|]. apply IH. lia.
    + intros [_ Hnd]. apply IH in Hnd. lia.
Qed.

Lemma length_chars (s : string) : List.length (chars s) = String.length s.
Proof.
  unfold chars. induction s as [|c s IH]; cbn; [reflexivity|].
  rewrite IH. reflexivity.
Qed.

Lemma occurrences_zero (c : ascii) (l : list ascii) :
  occurrences c l = O <-> c ∉ l.
Proof.
  induction l as [|d l IH]; [split; [intros _ H; inversion H|reflexivity]|].
  rewrite occurrences_cons, not_elem_of_cons.
  destruct (Ascii.eqb_spec c d) as [->|Hne].
  - split; [lia|]. intros [Hd _]. congruence.
  - cbn [Nat.add]. rewrite IH. split; [auto|]. intros [_ H]. exact H.
Qed.

Lemma occurrences_NoDup (l : list ascii) :
  (forall c, (occurrences c l <= 1)%nat) <-> NoDup l.
Proof.
  induction l as [|d l IH]; [split; [constructor|intros _ c; cbn; lia]|].
  rewrite NoDup_cons, <- IH, <- occurrences_zero. split.
  - intros Hall. split.
    + specialize (Hall d). rewrite occurrences_cons, Ascii.eqb_refl in Hall. lia.
    + intros c. specialize (Hall c). rewrite occurrences_cons in Hall. lia.
  - intros [Hd Hall] c. rewrite occurrences_cons.
    destruct (Ascii.eqb_spec c d) as [->|Hne]; [lia|]. cbn [Nat.add]. apply Hall.
Qed.

Lemma exceedsRepeat_once (l : list ascii) :
  exceedsRepeat 1 ∅ l = false <-> NoDup l.
Proof.
  rewrite <- occurrences_NoDup.
  assert (Hspec := exceedsRepeat_spec 1 l ∅).
  assert (Hm : forall d : ascii, default 0 ((∅ : gmap ascii Z) !! d) <= 1)
    by (intros d; rewrite lookup_empty; cbn; lia).
  specialize (Hspec Hm). split.
  - intros Hfalse c.
    destruct (Nat.le_gt_cases (occurrences c l) 1) as [Hle|Hgt]; [exact Hle|].
    assert (Htrue : exceedsRepeat 1 ∅ l = true).
    { apply Hspec. exists c. rewrite lookup_empty. cbn [from_option id]. lia. }
    congruence.
  - intros Hall. destruct (exceedsRepeat 1 ∅ l) eqn:Hex; [|reflexivity].
    destruct (proj1 Hspec eq_refl) as (c & Hc).
    rewrite lookup_empty in Hc. cbn [from_option id] in Hc.
    specialize (Hall c). lia.
Qed.

Lemma repeated_letter_tests (word : string) :
  ((distinct_chars (toLowerCase word) =? JsString.length word)%nat = true
   <-> NoDup (chars (toLowerCase word))) /\
  ((distinct_chars (toLowerCase word)
    =? List.length (chars (toLowerCase word)))%nat = true
   <-> NoDup (chars (toLowerCase word))) /\
  (exceedsRepeat 1 ∅ (chars (toLowerCase word)) = false
   <-> NoDup (chars (toLowerCase word))).
Proof.
  unfold distinct_chars, JsString.length.
  rewrite !Nat.eqb_eq. split; [|split].
  - rewrite <- length_remove_dups_NoDup, length_chars.
    unfold toLowerCase. rewrite length_map_string. reflexivity.
  - apply length_remove_dups_NoDup.
  - apply exceedsRepeat_once.
Qed.

(** The tests of [uniqueCharacters], of [excludeWordsWithRepeatingLetters]
    and of [maxRepeatLetters: 1] pass the same words: those whose lowercase
    form has no character twice. *)
Theorem repeated_letter_tests_agree (word : string) :
  let letters := chars (toLowerCase word) in
  let unique := (distinct_chars (toLowerCase word) =? JsString.length word)%nat in
  let noRepeating := (distinct_chars (toLowerCase word) =? List.length letters)%nat in
  let withinOne := negb (exceedsRepeat 1 ∅ letters) in
  unique = noRepeating /\ noRepeating = withinOne /\
  (unique = true <-> NoDup letters).
Proof.
  intros letters unique noRepeating withinOne.
  destruct (repeated_letter_tests word) as (Hu & He & Hm).
  fold letters in Hu, He, Hm. fold unique in Hu. fold noRepeating in He.
  assert (Hw : withinOne = true <-> NoDup letters).
  { unfold withinOne. rewrite negb_true_iff. exact Hm. }
  split; [|split; [|exact Hu]].
  - apply eq_true_iff_eq. rewrite Hu, He. reflexivity.
  - apply eq_true_iff_eq. rewrite He, Hw. reflexivity.
Qed.

Lemma keepWord_unique (o : Options) (h : gset string)
    (wl bl : option (gset string)) (w : string) :
  keepWord o h wl bl w = true ->
  uniqueCharacters o = true \/ excludeWordsWithRepeatingLetters o = true \/
  maxRepeatLetters o = Some 1 ->
  NoDup (chars (toLowerCase w)).
Proof.
  intros H Hopt. destruct (repeated_letter_tests w) as (Hu & He & Hm).
  filter_passed H. destruct Hopt as [Ho|[Ho|Ho]]; rewrite Ho in *;
    cbn [andb when_number] in *.
  - apply Hu. match goal with
    | Hc : negb (_ =? JsString.length w)%nat = false |- _ =>
        apply negb_false_iff in Hc; exact Hc
    end.
  - apply He. match goal with
    | Hc : negb (_ =? List.length _)%nat = false |- _ =>
        apply negb_false_iff in Hc; exact Hc
    end.
  - apply Hm. match goal with
    | Hc : (1 >? 0) && exceedsRepeat 1 ∅ _ = false |- _ => exact Hc
    end.
Qed.

(** When [uniqueCharacters] or [excludeWordsWithRepeatingLetters] is set,
    or [maxRepeatLetters] is 1, no emitted word has a character twice,
    upper and lower case taken as the same character. *)
Theorem getWords_unique_characters (o : Options) (a : argument)
    (ws : list string) (h : gset string) (r : Rng)
    (v : result) (h' : gset string) (r' : Rng) :
  shuffle_in_place o ->
  uniqueCharacters o = true \/ excludeWordsWithRepeatingLetters o = true \/
  maxRepeatLetters o = Some 1 ->
  getWords o a ws h r = Return v h' r' ->
  exists sel,
    carries v sel /\ forall w, w ∈ sel -> NoDup (chars (toLowerCase w)).
Proof.
  intros Hs Hopt Hret.
  destruct (getWords_selected _ _ _ _ _ _ _ _ Hret)
    as (n & sel & _ & _ & Hsel & Hv & _).
  exists sel. split; [exact Hv|]. intros w Hw.
  destruct (selectWords_origin o n ws h r sel r' w Hs Hsel Hw)
    as (w0 & -> & _ & Hkeep).
  rewrite toLowerCase_caseWord. exact (keepWord_unique _ _ _ _ _ Hkeep Hopt).
Qed.

Lemma getWords_unique_characters_witness :
  let o := with_uniqueCharacters true defaults in
  exists sel,
    carries (Words ["pear"%string]) sel /\
    forall w, w ∈ sel -> NoDup (chars (toLowerCase w)).
Proof.
  intros o.
  apply (getWords_unique_characters o (Number 5) ["Level"; "pear"]%string
           ∅ lowDraws (Words ["pear"%string])
           (updateHistory ∅ ["pear"%string]) lowDraws).
  - intros f Hf. discriminate Hf.
  - left. reflexivity.
  - vm_compute. reflexivity.
Defined.

(** ** The phonetic code *)

Lemma soundex_step_uncoded (st : list string * string) (c : ascii) :
  coded c = false -> soundex_step st (toLowerCaseChar c) = st.
Proof.
  unfold coded, soundex_step. destruct st as [arr prev].
  destruct (codes (toLowerCaseChar c)) as [code|]; [|reflexivity].
  intros ->. reflexivity.
Qed.

Lemma soundex_fold_keepCoded (s : string) (st : list string * string) :
  fold_left soundex_step (chars (toLowerCase (keepCoded s))) st
  = fold_left soundex_step (chars (toLowerCase s)) st.
Proof.
  revert st. induction s as [|c s IH]; intros st; [reflexivity|].
  cbn [keepCoded]. destruct (coded c) eqn:Hc.
  - change (chars (toLowerCase (String c (keepCoded s))))
      with (toLowerCaseChar c :: chars (toLowerCase (keepCoded s))).
    change (chars (toLowerCase (String c s)))
      with (toLowerCaseChar c :: chars (toLowerCase s)).
    cbn [fold_left]. apply IH.
  - change (chars (toLowerCase (String c s)))
      with (toLowerCaseChar c :: chars (toLowerCase s)).
    cbn [fold_left]. rewrite (soundex_step_uncoded st c Hc). apply IH.
Qed.

(** The phonetic code of a word does not depend on the case of its
    letters, nor on the characters after the first that have no digit in
    the table: vowels, [h], [w], [y] and whatever is not a letter. *)
Theorem soundex_ignores_case_and_uncoded (f : ascii) (s : string) :
  soundex (toUpperCase (String f s)) = soundex (String f s) /\
  soundex (toLowerCase (String f s)) = soundex (String f s) /\
  soundex (String f (keepCoded s)) = soundex (String f s).
Proof.
  split; [|split].
  - unfold soundex. rewrite toLowerCase_toUpperCase. reflexivity.
  - apply soundex_toLowerCase.
  - unfold soundex.
    change (chars (toLowerCase (String f (keepCoded s))))
      with (toLowerCaseChar f :: chars (toLowerCase (keepCoded s))).
    change (chars (toLowerCase (String f s)))
      with (toLowerCaseChar f :: chars (toLowerCase s)).
    cbv beta iota. rewrite soundex_fold_keepCoded. reflexivity.
Qed.

Lemma codes_digit (c : ascii) (code : string) :
  codes c = Some code -> truthy_string code = true -> digit_string code.
Proof.
  destruct c as [[] [] [] [] [] [] [] []]; cbn; intros [= <-]; cbn;
    first [discriminate | intros _; eexists; split; reflexivity].
Qed.

Lemma soundex_step_digits (st : list string * string) (c : ascii) (F : string) :
  (exists ds, st.1 = F :: ds /\ Forall digit_string ds) ->
  exists ds, (soundex_step st c).1 = F :: ds /\ Forall digit_string ds.
Proof.
  destruct st as [arr prev]. cbn [fst]. intros (ds & -> & Hds).
  unfold soundex_step.
  destruct (codes c) as [code|] eqn:Hc; [|exists ds; auto].
  destruct (truthy_string code) eqn:Ht; [|exists ds; auto].
  destruct (negb (String.eqb code prev)); [|exists ds; auto].
  exists (ds ++ [code]). split; [reflexivity|].
  apply Forall_app. split; [exact Hds|].
  apply Forall_cons. split; [exact (codes_digit c code Hc Ht)|constructor].
Qed.

Lemma soundex_fold_digits (a : list ascii) (st : list string * string)
    (F : string) :
  (exists ds, st.1 = F :: ds /\ Forall digit_string ds) ->
  exists ds, (fold_left soundex_step a st).1 = F :: ds /\ Forall digit_string ds.
Proof.
  revert st. induction a as [|c a IH]; intros st Hst; [exact Hst|].
  cbn [fold_left]. apply IH, soundex_step_digits, Hst.
Qed.

Lemma pad_digits (fuel : nat) (arr : list string) (F : string) :
  (4 - List.length arr <= fuel)%nat ->
  (exists ds, arr = F :: ds /\ Forall digit_string ds) ->
  exists ds, pad fuel arr = F :: ds /\ Forall digit_string ds /\
             (3 <= List.length ds)%nat.
Proof.
  revert arr. induction fuel as [|fuel IH]; intros arr Hfuel (ds & -> & Hds).
  - cbn [pad]. exists ds. cbn [List.length] in Hfuel.
    split; [reflexivity|]. split; [exact Hds|lia].
  - cbn [pad]. destruct (Nat.ltb_spec (List.length (F :: ds)) 4) as [Hlt|Hge].
    + apply IH.
      * rewrite length_app. cbn [List.length] in *. lia.
      * exists (ds ++ ["0"%string]). split; [reflexivity|].
        apply Forall_app. split; [exact Hds|].
        apply Forall_cons. split; [|constructor].
        exists "0"%char. split; reflexivity.
    + exists ds. cbn [List.length] in Hge.
      split; [reflexivity|]. split; [exact Hds|lia].
Qed.

(** The phonetic code of a word that is not empty is the upper-case form
    of its first character followed by three digits between 0 and 6. *)
Theorem soundex_shape (f : ascii) (s : string) :
  exists d1 d2 d3,
    soundex (String f s)
    = Ok (String (toUpperCaseChar (toLowerCaseChar f))
            (String d1 (String d2 (String d3 EmptyString)))) /\
    code_digit d1 = true /\ code_digit d2 = true /\ code_digit d3 = true.
Proof.
  unfold soundex.
  change (chars (toLowerCase (String f s)))
    with (toLowerCaseChar f :: chars (toLowerCase s)).
  cbv beta iota.
  set (F := String (toUpperCaseChar (toLowerCaseChar f)) EmptyString).
  destruct (soundex_fold_digits (chars (toLowerCase s)) ([F], ""%string) F)
    as (ds & Hfold & Hds); [exists []; split; [reflexivity|constructor]|].
  destruct (fold_left soundex_step (chars (toLowerCase s)) ([F], ""%string))
    as [arr prev]. cbn [fst] in Hfold. subst arr.
  destruct (pad_digits (4 - List.length (F :: ds)) (F :: ds) F)
    as (ds' & -> & Hds' & Hlen); [lia|exists ds; auto|].
  destruct ds' as [|x1 [|x2 [|x3 ds']]]; cbn [List.length] in Hlen; try lia.
  apply Forall_cons in Hds' as [(d1 & -> & H1) Hds'].
  apply Forall_cons in Hds' as [(d2 & -> & H2) Hds'].
  apply Forall_cons in Hds' as [(d3 & -> & H3) _].
  exists d1, d2, d3. split; [reflexivity|]. auto.
Qed.

(** ** The metadata records *)

Lemma distinct_chars_bounds (w : string) :
  (distinct_chars (toLowerCase w) <= JsString.length w)%nat /\
  (w <> ""%string -> 1 <= distinct_chars (toLowerCase w))%nat.
Proof.
  unfold distinct_chars, JsString.length. split.
  - rewrite <- (length_map_string toLowerCaseChar w), <- length_chars.
    apply length_remove_dups_le.
  - intros Hne. destruct w as [|c w]; [congruence|].
    change (chars (toLowerCase (String c w)))
      with (toLowerCaseChar c :: chars (toLowerCase w)).
    cbn [remove_dups].
    destruct (decide_rel elem_of (toLowerCaseChar c) (chars (toLowerCase w)))
      as [Hin|Hnot]; [|cbn [List.length]; lia].
    apply elem_of_remove_dups in Hin.
    destruct (remove_dups (chars (toLowerCase w))); [inversion Hin|].
    cbn [List.length]. lia.
Qed.

(** With [includeMetadata] and without [asString], [getWords] returns one
    record for each selected word, in the order of the selection: its
    [word] is the selected word, its [length] is the length of that word,
    and its [entropy] is what [customEntropyCalculator] gives for the word
    or, without one, log2(26) times the number of different characters of
    the lowercase word, a number between 1 and the length for a word that
    is not empty. The lowercase forms of the [word] fields are what the
    call adds to History. *)
Theorem getWords_metadata (o : Options) (a : argument) (ws : list string)
    (h : gset string) (r : Rng) (v : result) (h' : gset string) (r' : Rng) :
  asString o = false ->
  includeMetadata o = true ->
  getWords o a ws h r = Return v h' r' ->
  exists n sel records,
    a = Number n /\
    selectWords o n ws h r = Ok (sel, r') /\
    v = WithMetadata records /\
    meta_word <$> records = sel /\
    h' = h ∪ list_to_set (toLowerCase <$> (meta_word <$> records)) /\
    forall m, m ∈ records ->
      meta_length m = JsString.length (meta_word m) /\
      match customEntropyCalculator o with
      | Some f => meta_entropy m = Custom (f (meta_word m))
      | None =>
          exists k,
            meta_entropy m = TimesLog2Of26 k /\
            k = distinct_chars (toLowerCase (meta_word m)) /\
            (k <= meta_length m)%nat /\
            (meta_word m <> ""%string -> 1 <= k)%nat
      end.
Proof.
  intros Has Hmeta Hret.
  destruct (getWords_return_inv _ _ _ _ _ _ _ _ Hret)
    as (n & sel & -> & _ & Hsel & -> & ->).
  unfold shape. rewrite Has, Hmeta. eexists n, sel, _.
  split; [reflexivity|]. split; [exact Hsel|]. split; [reflexivity|].
  assert (Hwords : meta_word <$>
            ((fun word => {| meta_word := word;
                             meta_length := JsString.length word;
                             meta_entropy := calculateEntropy o word |}) <$> sel)
          = sel).
  { rewrite <- list_fmap_compose. apply list_fmap_id. }
  split; [exact Hwords|].
  split; [rewrite Hwords; apply updateHistory_union|].
  intros m Hm. apply list_elem_of_fmap in Hm as (w & -> & _).
  cbn [meta_length meta_word meta_entropy]. split; [reflexivity|].
  unfold calculateEntropy. destruct (customEntropyCalculator o) as [f|];
    [reflexivity|].
  exists (distinct_chars (toLowerCase w)).
  destruct (distinct_chars_bounds w) as [Hle Hge]. auto.
Qed.

Lemma getWords_metadata_witness :
  let o := with_includeMetadata true defaults in
  exists n sel records,
    Number 1 = Number n /\
    selectWords o n ["pear"; "fig"]%string ∅ lowDraws
    = Ok (sel, fun k => lowDraws (S k)) /\
    WithMetadata [ {| meta_word := "fig"; meta_length := 3;
                      meta_entropy := TimesLog2Of26 3 |} ] = WithMetadata records /\
    meta_word <$> records = sel /\
    updateHistory ∅ ["fig"%string]
    = ∅ ∪ list_to_set (toLowerCase <$> (meta_word <$> records)) /\
    forall m, m ∈ records ->
      meta_length m = JsString.length (meta_word m) /\
      match customEntropyCalculator o with
      | Some f => meta_entropy m = Custom (f (meta_word m))
      | None =>
          exists k,
            meta_entropy m = TimesLog2Of26 k /\
            k = distinct_chars (toLowerCase (meta_word m)) /\
            (k <= meta_length m)%nat /\
            (meta_word m <> ""%string -> 1 <= k)%nat
      end.
Proof.
  intros o.
  apply (getWords_metadata o (Number 1) ["pear"; "fig"]%string ∅ lowDraws
           (WithMetadata [ {| meta_word := "fig"; meta_length := 3;
                              meta_entropy := TimesLog2Of26 3 |} ])
           (updateHistory ∅ ["fig"%string]) (fun k => lowDraws (S k))).
  - reflexivity.
  - reflexivity.
  - vm_compute. reflexivity.
Defined.
